(** * Verification of the launcher's docker supervision code

    Shallow embedding of [launcher/docker.go] (package [launcher] of
    clabernetes): the daemon start-up loop, the container inventory
    queries, the log dump / log follow helpers and the daemon
    configuration writer, together with the pieces of the Go standard
    library they rely on ([strings], [unicode/utf8], [unicode], [fmt],
    [errors]).

    Go strings are byte sequences: they are modelled as [string] (a list
    of 8-bit [ascii] characters); the byte-level algorithms work on
    [list ascii].  Go [int] is a 64-bit two's complement integer, modelled
    as [Z] with the wrap-around written out. *)

From Stdlib Require Import ZArith Zbitwise List String Ascii Bool Lia.
From Stdlib Require Import Permutation.
Import ListNotations.

Local Open Scope Z_scope.

(* ================================================================== *)
(** * Bytes and runes *)
(* ================================================================== *)

Definition bytes := list ascii.
Definition rune := Z.

(** Numeric value of a byte. *)
Definition b2z (c : ascii) : Z := Z.of_N (N_of_ascii c).

Definition str (s : string) : bytes := list_ascii_of_string s.
Definition gostring (b : bytes) : string := string_of_list_ascii b.

(** Go [int]: 64-bit signed with wrap-around. *)
Definition int_max : Z := 2 ^ 63 - 1.
Definition int_wrap (z : Z) : Z := (z + 2 ^ 63) mod 2 ^ 64 - 2 ^ 63.

(* ================================================================== *)
(** * Package unicode/utf8 *)
(* ================================================================== *)

Module utf8.

Definition RuneError : rune := 0xFFFD.
Definition RuneSelf : Z := 0x80.
Definition UTFMax : Z := 4.

Definition locb : Z := 0x80.
Definition hicb : Z := 0xBF.
Definition maskx : Z := 0x3F.
Definition mask2 : Z := 0x1F.
Definition mask3 : Z := 0x0F.
Definition mask4 : Z := 0x07.

(** The [first] table together with [acceptRanges]: for every leading
    byte either "ASCII" ([as]), "invalid" ([xx]) or the size of the
    encoding and the accepted range of the second byte. *)
Inductive firstInfo : Type :=
| AS
| XX
| Lead (sz : nat) (lo hi : Z).

Definition first (b : Z) : firstInfo :=
  if b <? 0x80 then AS
  else if b <? 0xC2 then XX
  else if b <? 0xE0 then Lead 2 locb hicb
  else if b =? 0xE0 then Lead 3 0xA0 hicb
  else if b <? 0xED then Lead 3 locb hicb
  else if b =? 0xED then Lead 3 locb 0x9F
  else if b <? 0xF0 then Lead 3 locb hicb
  else if b =? 0xF0 then Lead 4 0x90 hicb
  else if b <? 0xF4 then Lead 4 locb hicb
  else if b =? 0xF4 then Lead 4 locb 0x8F
  else XX.

Definition cont (b : Z) : bool := (locb <=? b) && (b <=? hicb).

(** [utf8.DecodeRuneInString]: the first rune of [s] and its width in
    bytes; [(RuneError, 0)] on the empty string and [(RuneError, 1)]
    on an invalid encoding. *)
Definition DecodeRuneInString (s : bytes) : rune * nat :=
  match s with
  | [] => (RuneError, 0%nat)
  | c0 :: t =>
    let s0 := b2z c0 in
    match first s0 with
    | AS => (s0, 1%nat)
    | XX => (RuneError, 1%nat)
    | Lead sz lo hi =>
      if (List.length s <? sz)%nat then (RuneError, 1%nat) else
      match t with
      | [] => (RuneError, 1%nat)
      | c1 :: t1 =>
        let s1 := b2z c1 in
        if negb ((lo <=? s1) && (s1 <=? hi)) then (RuneError, 1%nat) else
        if (sz <=? 2)%nat then
          (Z.lor (Z.shiftl (Z.land s0 mask2) 6) (Z.land s1 maskx), 2%nat)
        else
        match t1 with
        | [] => (RuneError, 1%nat)
        | c2 :: t2 =>
          let s2 := b2z c2 in
          if negb (cont s2) then (RuneError, 1%nat) else
          if (sz <=? 3)%nat then
            (Z.lor (Z.lor (Z.shiftl (Z.land s0 mask3) 12)
                          (Z.shiftl (Z.land s1 maskx) 6))
                   (Z.land s2 maskx), 3%nat)
          else
          match t2 with
          | [] => (RuneError, 1%nat)
          | c3 :: _ =>
            let s3 := b2z c3 in
            if negb (cont s3) then (RuneError, 1%nat) else
            (Z.lor (Z.lor (Z.lor (Z.shiftl (Z.land s0 mask4) 18)
                                 (Z.shiftl (Z.land s1 maskx) 12))
                          (Z.shiftl (Z.land s2 maskx) 6))
                   (Z.land s3 maskx), 4%nat)
          end
        end
      end
    end
  end.

(** [utf8.RuneStart]: the byte is not a continuation byte. *)
Definition RuneStart (b : Z) : bool := negb (Z.land b 0xC0 =? 0x80).

(** Byte [s[i]] for an in-range index. *)
Definition at_ (s : bytes) (i : Z) : Z := b2z (nth (Z.to_nat i) s zero).

(** Slice [s[lo:hi]]. *)
Definition slice (s : bytes) (lo hi : nat) : bytes :=
  firstn (hi - lo) (skipn lo s).

(** The look-back loop of [DecodeLastRuneInString]:
    [for start--; start >= lim; start-- { if RuneStart(s[start]) { break } }]
    entered with [n] candidate positions [start, start-1, ..., lim]. *)
Fixpoint lookback (n : nat) (s : bytes) (start : Z) : Z :=
  match n with
  | O => start
  | S n' => if RuneStart (at_ s start) then start
            else lookback n' s (start - 1)
  end.

(** [utf8.DecodeLastRuneInString]. *)
Definition DecodeLastRuneInString (s : bytes) : rune * nat :=
  let end_ := Z.of_nat (List.length s) in
  if end_ =? 0 then (RuneError, 0%nat) else
  let start := end_ - 1 in
  let r := at_ s start in
  if r <? RuneSelf then (r, 1%nat) else
  let lim := Z.max 0 (end_ - UTFMax) in
  let start := lookback (Z.to_nat (start - 1 - lim + 1)) s (start - 1) in
  let start := Z.max 0 start in
  let '(r, size) := DecodeRuneInString (slice s (Z.to_nat start) (List.length s)) in
  if negb (start + Z.of_nat size =? end_) then (RuneError, 1%nat)
  else (r, size).

End utf8.

(* ================================================================== *)
(** * Package unicode *)
(* ================================================================== *)

Module unicode.

Definition MaxLatin1 : Z := 0xFF.

(** The [White_Space] range table, Latin-1 excluded. *)
Definition White_Space_excluding_Latin (r : rune) : bool :=
  (r =? 0x1680) || ((0x2000 <=? r) && (r <=? 0x200A))
  || ((0x2028 <=? r) && (r <=? 0x2029)) || (r =? 0x202F)
  || (r =? 0x205F) || (r =? 0x3000).

(** [unicode.IsSpace]. *)
Definition IsSpace (r : rune) : bool :=
  if (0 <=? r) && (r <=? MaxLatin1) then
    (r =? 9) || (r =? 10) || (r =? 11) || (r =? 12) || (r =? 13)
    || (r =? 32) || (r =? 0x85) || (r =? 0xA0)
  else White_Space_excluding_Latin r.

Definition MaxRune : Z := 0x10FFFF.

(** The [asciiFold] table: the next rune of the case orbit of an ASCII
    rune ('k' and 's' have a third, non-ASCII, member in their orbit). *)
Definition asciiFold (r : rune) : rune :=
  if (0x41 <=? r) && (r <=? 0x5A) then r + 0x20
  else if r =? 0x6B then 0x212A
  else if r =? 0x73 then 0x017F
  else if (0x61 <=? r) && (r <=? 0x7A) then r - 0x20
  else r.

Section SimpleFold.

(** The [caseOrbit] table and the [ToLower]/[ToUpper] fall-back for
    runes outside ASCII are data of the Unicode tables; they are kept
    abstract. *)
Variable orbit : rune -> rune.

(** [unicode.SimpleFold]. *)
Definition SimpleFold (r : rune) : rune :=
  if (r <? 0) || (MaxRune <? r) then r
  else if r <? 128 then asciiFold r
  else orbit r.

End SimpleFold.

End unicode.

(* ================================================================== *)
(** * Package strings *)
(* ================================================================== *)

Module strings.
Import utf8 unicode.

(** The [asciiSpace] table. *)
Definition asciiSpace (b : Z) : bool :=
  (b =? 9) || (b =? 10) || (b =? 11) || (b =? 12) || (b =? 13) || (b =? 32).

(** [indexFunc]: [for i, r := range s { if f(r) == truth { return i } }];
    [rest] is [s[i:]].  [None] stands for the result [-1]. *)
Fixpoint indexFunc_loop (fuel : nat) (rest : bytes) (i : nat)
         (f : rune -> bool) (truth : bool) : option nat :=
  match fuel with
  | O => None
  | S fuel' =>
    match rest with
    | [] => None
    | _ :: _ =>
      let '(r, w) := DecodeRuneInString rest in
      if Bool.eqb (f r) truth then Some i
      else indexFunc_loop fuel' (skipn w rest) (i + w)%nat f truth
    end
  end.

Definition indexFunc (s : bytes) (f : rune -> bool) (truth : bool) : option nat :=
  indexFunc_loop (List.length s) s 0%nat f truth.

(** [lastIndexFunc]:
    [for i := len(s); i > 0; { r, size := DecodeLastRuneInString(s[0:i]);
                                i -= size; if f(r) == truth { return i } }]. *)
Fixpoint lastIndexFunc_loop (fuel : nat) (s : bytes) (i : nat)
         (f : rune -> bool) (truth : bool) : option nat :=
  match fuel with
  | O => None
  | S fuel' =>
    if (i =? 0)%nat then None else
    let '(r, size) := DecodeLastRuneInString (firstn i s) in
    let i' := (i - size)%nat in
    if Bool.eqb (f r) truth then Some i'
    else lastIndexFunc_loop fuel' s i' f truth
  end.

Definition lastIndexFunc (s : bytes) (f : rune -> bool) (truth : bool) : option nat :=
  lastIndexFunc_loop (List.length s) s (List.length s) f truth.

(** [strings.TrimLeftFunc]. *)
Definition TrimLeftFunc (s : bytes) (f : rune -> bool) : bytes :=
  match indexFunc s f false with
  | None => []
  | Some i => skipn i s
  end.

(** [strings.TrimRightFunc]. *)
Definition TrimRightFunc (s : bytes) (f : rune -> bool) : bytes :=
  match lastIndexFunc s f false with
  | Some i =>
    if RuneSelf <=? at_ s (Z.of_nat i)
    then firstn (i + snd (DecodeRuneInString (skipn i s))) s
    else firstn (i + 1) s
  | None => firstn 0 s
  end.

(** [strings.TrimFunc]. *)
Definition TrimFunc (s : bytes) (f : rune -> bool) : bytes :=
  TrimRightFunc (TrimLeftFunc s f) f.

(** The two scanning loops of [strings.TrimSpace].  The first walks
    [start] up from 0 and is given [s[start:]]; the second walks [stop]
    down from [len(s)] and is given [s[start:stop]] reversed.  [inr]
    reports a byte [>= utf8.RuneSelf] at the current position, [inl]
    the end of the loop (by [break] or exhaustion). *)
Fixpoint TrimSpace_scan (s : bytes) : bytes + bytes :=
  match s with
  | [] => inl []
  | c :: s' =>
    if RuneSelf <=? b2z c then inr s
    else if asciiSpace (b2z c) then TrimSpace_scan s'
    else inl s
  end.

(** [strings.TrimSpace] on bytes. *)
Definition TrimSpaceB (s : bytes) : bytes :=
  match TrimSpace_scan s with
  | inr rest => TrimFunc rest IsSpace
  | inl rest =>
    match TrimSpace_scan (rev rest) with
    | inr r => TrimRightFunc (rev r) IsSpace
    | inl r => rev r
    end
  end.

Definition TrimSpace (s : string) : string := gostring (TrimSpaceB (str s)).

(** [strings.HasPrefix]. *)
Fixpoint HasPrefixB (s prefix : bytes) : bool :=
  match prefix, s with
  | [], _ => true
  | p :: prefix', c :: s' => Ascii.eqb c p && HasPrefixB s' prefix'
  | _ :: _, [] => false
  end.

(** [strings.Index]; [None] stands for [-1]. *)
Fixpoint IndexB (s substr : bytes) : option nat :=
  if HasPrefixB s substr then Some 0%nat
  else match s with
       | [] => None
       | _ :: s' => option_map S (IndexB s' substr)
       end.

(** [strings.Count] for a non-empty [substr]:
    [for { i := Index(s, substr); if i == -1 { return n }; n++;
           s = s[i+len(substr):] }]. *)
Fixpoint Count_loop (fuel : nat) (s substr : bytes) : nat :=
  match fuel with
  | O => 0%nat
  | S fuel' =>
    match IndexB s substr with
    | None => 0%nat
    | Some i => S (Count_loop fuel' (skipn (i + List.length substr) s) substr)
    end
  end.

Definition CountB (s substr : bytes) : nat :=
  Count_loop (S (List.length s)) s substr.

(** [explode]: the string cut into its UTF-8 sequences. *)
Fixpoint explode (fuel : nat) (s : bytes) : list bytes :=
  match fuel with
  | O => []
  | S fuel' =>
    match s with
    | [] => []
    | _ :: _ =>
      let w := snd (DecodeRuneInString s) in
      firstn w s :: explode fuel' (skipn w s)
    end
  end.

(** The loop of [genSplit] with [sepSave = 0]:
    [for i < n { m := Index(s, sep); if m < 0 { break };
                 a[i] = s[:m]; s = s[m+len(sep):]; i++ }; a[i] = s]. *)
Fixpoint genSplit_loop (n : nat) (s sep : bytes) : list bytes :=
  match n with
  | O => [s]
  | S n' =>
    match IndexB s sep with
    | None => [s]
    | Some m => firstn m s :: genSplit_loop n' (skipn (m + List.length sep) s) sep
    end
  end.

(** [strings.Split(s, sep)], that is [genSplit(s, sep, 0, -1)]. *)
Definition SplitB (s sep : bytes) : list bytes :=
  match sep with
  | [] => explode (List.length s) s
  | _ :: _ => genSplit_loop (CountB s sep) s sep
  end.

Definition Split (s sep : string) : list string :=
  map gostring (SplitB (str s) (str sep)).

(** [strings.Join]. *)
Fixpoint Join (elems : list string) (sep : string) : string :=
  match elems with
  | [] => ""%string
  | [e] => e
  | e :: rest => (e ++ sep ++ Join rest sep)%string
  end.

Section EqualFold.

(** Case-folding data of package unicode outside ASCII. *)
Variable orbit : rune -> rune.

(** [r := unicode.SimpleFold(sr);
     for r != sr && r < tr { r = unicode.SimpleFold(r) }],
    entered with [r = SimpleFold(sr)].  A case orbit has at most
    four members, which bounds the number of turns. *)
Fixpoint fold_loop (fuel : nat) (r sr tr : rune) : rune :=
  match fuel with
  | O => r
  | S fuel' =>
    if negb (r =? sr) && (r <? tr)
    then fold_loop fuel' (SimpleFold orbit r) sr tr
    else r
  end.

(** The [hasUnicode] part of [strings.EqualFold]:
    [for _, sr := range s { ... }; return len(t) == 0]. *)
Fixpoint EqualFold_unicode (fuel : nat) (s t : bytes) : bool :=
  match fuel, s with
  | S fuel', _ :: _ =>
    let '(sr, w) := DecodeRuneInString s in
    match t with
    | [] => false
    | t0 :: t' =>
      let '(tr, t_rest) :=
        if b2z t0 <? RuneSelf then (b2z t0, t')
        else let '(r, size) := DecodeRuneInString t in (r, skipn size t) in
      if tr =? sr then EqualFold_unicode fuel' (skipn w s) t_rest
      else
        let '(sr, tr) := if tr <? sr then (tr, sr) else (sr, tr) in
        if tr <? RuneSelf then
          if (0x41 <=? sr) && (sr <=? 0x5A) && (tr =? sr + 0x20)
          then EqualFold_unicode fuel' (skipn w s) t_rest
          else false
        else
          let r := fold_loop 4 (SimpleFold orbit sr) sr tr in
          if r =? tr then EqualFold_unicode fuel' (skipn w s) t_rest
          else false
    end
  | _, _ => match t with [] => true | _ :: _ => false end
  end.

(** [strings.EqualFold] on bytes: the ASCII loop, which jumps to
    [hasUnicode] with [s[i:]] and [t[i:]] at the first byte
    [>= utf8.RuneSelf] and otherwise ends in [len(s) == len(t)]. *)
Fixpoint EqualFoldB (s t : bytes) : bool :=
  match s, t with
  | c :: s', d :: t' =>
    let sr := b2z c in
    let tr := b2z d in
    if RuneSelf <=? Z.lor sr tr then EqualFold_unicode (List.length s) s t
    else if tr =? sr then EqualFoldB s' t'
    else
      let '(sr, tr) := if tr <? sr then (tr, sr) else (sr, tr) in
      if (0x41 <=? sr) && (sr <=? 0x5A) && (tr =? sr + 0x20)
      then EqualFoldB s' t'
      else false
  | [], [] => true
  | _, _ => false
  end.

Definition EqualFold (s t : string) : bool := EqualFoldB (str s) (str t).

End EqualFold.

End strings.

(* ================================================================== *)
(** * Errors: packages errors and fmt, and the launch sentinel *)
(* ================================================================== *)

(** Go [error] values met by the launcher.  A Go [error] that may be
    [nil] is an [option error]. *)
Inductive error : Type :=
| ErrLaunch                                   (* claberneteserrors.ErrLaunch *)
| SysError (msg : string)                     (* raised by os, os/exec, text/template *)
| WrapError (format : string) (wrapped : error). (* fmt.Errorf(format, wrapped), one %w verb *)

Definition error_eq_dec (a b : error) : {a = b} + {a <> b}.
Proof. decide equality; apply string_dec. Defined.

Definition error_eqb (a b : error) : bool :=
  if error_eq_dec a b then true else false.

(** [fmt.Errorf] applied to a format with a single [%w] verb. *)
Definition fmt_Errorf (format : string) (wrapped : error) : error :=
  WrapError format wrapped.

(** [errors.Unwrap]. *)
Definition errors_Unwrap (e : error) : option error :=
  match e with
  | WrapError _ w => Some w
  | _ => None
  end.

(** [errors.Is]: walks the chain of wrapped errors. *)
Fixpoint errors_Is (e target : error) : bool :=
  error_eqb e target ||
  match e with
  | WrapError _ w => errors_Is w target
  | _ => false
  end.

(** Text substitution of the first [%w] verb of a format. *)
Definition subst_w (format text : string) : string :=
  match strings.IndexB (str format) (str "%w") with
  | None => format
  | Some i =>
    gostring (firstn i (str format) ++ str text ++ skipn (i + 2) (str format))
  end.

(** The [Error()] method.  The text of the sentinel [ErrLaunch] lives in
    package [errors] of the repository and is a parameter. *)
Fixpoint Error (launch_text : string) (e : error) : string :=
  match e with
  | ErrLaunch => launch_text
  | SysError msg => msg
  | WrapError format w => subst_w format (Error launch_text w)
  end.

(* ================================================================== *)
(** * Processes, files and the environment *)
(* ================================================================== *)

(** [io.Writer] values handed to the launcher or built by it. *)
Inductive Writer : Type :=
| Sink (name : string)              (* a writer supplied by the caller *)
| FileWriter (name : string)        (* an os.File *)
| MultiWriter (w1 w2 : Writer).     (* io.MultiWriter(w1, w2) *)

(** [exec.Cmd]: the fields the launcher sets. *)
Record Cmd : Type := mkCmd {
  Path : string;
  Args : list string;
  Stdout : option Writer;
  Stderr : option Writer
}.

(** [exec.CommandContext(ctx, name, args...)]; the context only carries
    cancellation, which is an event of the environment. *)
Definition CommandContext (name : string) (args : list string) : Cmd :=
  mkCmd name args None None.

Definition set_Stdout (c : Cmd) (w : Writer) : Cmd :=
  mkCmd (Path c) (Args c) (Some w) (Stderr c).
Definition set_Stderr (c : Cmd) (w : Writer) : Cmd :=
  mkCmd (Path c) (Args c) (Stdout c) (Some w).

(** Values handed to the logging verbs. *)
Inductive Arg : Type :=
| ArgString (s : string)
| ArgError (e : option error).

(** The template variables of the daemon configuration. *)
Record TemplateVars : Type := mkTemplateVars {
  StorageDriver : string;
  InsecureRegistries : string
}.

(** The operating system, the external commands and the library calls
    whose result is decided outside the launcher.  Every call maps a
    state of the world to a result and a new state. *)
Class OS : Type := {
  World : Type;
  (** [Run] of [exec.Cmd]. *)
  cmd_Run : Cmd -> World -> option error * World;
  (** [Output] of [exec.Cmd]: standard output and error. *)
  cmd_Output : Cmd -> World -> (string * option error) * World;
  (** [os.Getenv]. *)
  os_Getenv : string -> World -> string;
  (** [os.Stat], result reduced to its error. *)
  os_Stat : string -> World -> option error;
  (** [os.Create], result reduced to its error. *)
  os_Create : string -> World -> option error * World;
  (** [os.WriteFile]. *)
  os_WriteFile : string -> string -> Z -> World -> option error * World;
  (** [template.ParseFS(Assets, name)] over the embedded assets. *)
  Template : Type;
  template_ParseFS : string -> Template + error;
  (** [Execute] of [template.Template] into a fresh buffer. *)
  template_Execute : Template -> TemplateVars -> string + error;
  (** [fmt.Sprintf("%q", s)], Go's quoted form of a string. *)
  fmt_Sprintf_q : string -> string;
  (** The case-folding tables of package unicode outside ASCII. *)
  unicode_orbit : rune -> rune
}.

(** What the launcher does, in order: the calls that reach the outside
    and, so that it can be spoken of, the execution of the template of
    the daemon configuration. *)
Inductive Event : Type :=
| EvRun (c : Cmd) (res : option error)
| EvOutput (c : Cmd) (out : string) (res : option error)
| EvSleep (nanoseconds : Z)
| EvWarnf (format : string) (args : list Arg)
| EvCreate (name : string) (res : option error)
| EvWriteFile (name data : string) (perm : Z) (res : option error)
| EvExecute (vars : TemplateVars) (res : string + error).

Section Monad.
Context {os : OS}.

Record State : Type := mkState {
  world : World;
  trace : list Event
}.

(** State-passing computations over the world and the trace. *)
Definition M (A : Type) : Type := State -> A * State.

Definition ret {A} (a : A) : M A := fun st => (a, st).

Definition bind {A B} (m : M A) (k : A -> M B) : M B :=
  fun st => let '(a, st') := m st in k a st'.

Definition emit (e : Event) : M unit :=
  fun st => (tt, mkState (world st) (trace st ++ [e])).

Definition Run (c : Cmd) : M (option error) :=
  fun st =>
    let '(res, w') := cmd_Run c (world st) in
    (res, mkState w' (trace st ++ [EvRun c res])).

Definition Output (c : Cmd) : M (string * option error) :=
  fun st =>
    let '((out, res), w') := cmd_Output c (world st) in
    ((out, res), mkState w' (trace st ++ [EvOutput c out res])).

Definition Getenv (name : string) : M string :=
  fun st => (os_Getenv name (world st), st).

Definition Stat (name : string) : M (option error) :=
  fun st => (os_Stat name (world st), st).

Definition Create (name : string) : M (option error) :=
  fun st =>
    let '(res, w') := os_Create name (world st) in
    (res, mkState w' (trace st ++ [EvCreate name res])).

Definition WriteFile (name data : string) (perm : Z) : M (option error) :=
  fun st =>
    let '(res, w') := os_WriteFile name data perm (world st) in
    (res, mkState w' (trace st ++ [EvWriteFile name data perm res])).

Definition Sleep (d : Z) : M unit := emit (EvSleep d).

Definition Warnf (format : string) (args : list Arg) : M unit :=
  emit (EvWarnf format args).

(** A computation started in world [w] with an empty trace. *)
Definition exec {A} (m : M A) (w : World) : A * State := m (mkState w []).

End Monad.

Declare Scope go_scope.
Delimit Scope go_scope with go.
Notation "x <- m ;; k" := (bind m (fun x => k))
  (at level 61, m at next level, right associativity) : go_scope.
Notation "m ;;; k" := (bind m (fun _ => k))
  (at level 61, right associativity) : go_scope.

(* ================================================================== *)
(** * launcher/docker.go: the sequential functions *)
(* ================================================================== *)

Local Open Scope string_scope.
Local Open Scope go_scope.

Definition LF : string := String "010" EmptyString.

Definition dockerDaemonConfig : string := "/etc/docker/daemon.json".
Definition vfsStorageDriver : string := "vfs".
Definition overlayStorageDriver : string := "overlay2".

(** Modelled from the spec: the constant [True] of package [constants],
    which is not among the sources; the privileged-mode flag is compared
    with the text "true". *)
Definition clabernetesconstants_True : string := "true".

(** [time.Second], in nanoseconds. *)
Definition time_Second : Z := 1000000000.

Definition is_nil (e : option error) : bool :=
  match e with None => true | Some _ => false end.

Section Launcher.
Context {os : OS}.

(** Constants of the package declared in files that are not among the
    sources. *)
Variable maxDockerLaunchAttempts : Z.
Variable LauncherInsecureRegistries : string.
Variable LauncherPrivilegedEnv : string.
Variable PermissionsEveryoneReadWriteOwnerExecute : Z.

(** [daemonConfigExists], lines 25-29. *)
Definition daemonConfigExists : M bool :=
  err <- Stat dockerDaemonConfig ;;
  ret (is_nil err).

(** [handleInsecureRegistries], lines 31-87.  The loop over
    [splitRegistries] that fills [quotedRegistries] is a [map]. *)
Definition handleInsecureRegistries : M (option error) :=
  insecureRegistries <- Getenv LauncherInsecureRegistries ;;
  if String.eqb insecureRegistries "" then ret None
  else
    let splitRegistries := strings.Split insecureRegistries "," in
    let quotedRegistries := map fmt_Sprintf_q splitRegistries in
    let templateVars :=
      mkTemplateVars vfsStorageDriver (strings.Join quotedRegistries ",") in
    privileged <- Getenv LauncherPrivilegedEnv ;;
    let templateVars :=
      if negb (strings.EqualFold unicode_orbit privileged clabernetesconstants_True)
      then mkTemplateVars overlayStorageDriver (InsecureRegistries templateVars)
      else templateVars in
    match template_ParseFS "assets/docker-daemon.json.template" with
    | inr err => ret (Some err)
    | inl t =>
      let rendered := template_Execute t templateVars in
      emit (EvExecute templateVars rendered) ;;;
      match rendered with
      | inr err => ret (Some err)
      | inl data =>
        err <- WriteFile dockerDaemonConfig data
                         PermissionsEveryoneReadWriteOwnerExecute ;;
        match err with
        | Some e => ret (Some e)
        | None => ret None
        end
      end
    end.

(** [enableLegacyIPTables], lines 89-107. *)
Definition enableLegacyIPTables (logger : Writer) : M (option error) :=
  let updateCmd :=
    CommandContext "update-alternatives"
                   ["--set"; "iptables"; "/usr/sbin/iptables-legacy"] in
  let updateCmd := set_Stdout updateCmd logger in
  let updateCmd := set_Stderr updateCmd logger in
  err <- Run updateCmd ;;
  match err with
  | Some e => ret (Some e)
  | None => ret None
  end.

(** The readiness probe and the restart command of [startDocker]. *)
Definition psCmd (logger : Writer) : Cmd :=
  set_Stderr (set_Stdout (CommandContext "docker" ["ps"]) logger) logger.

Definition startCmd (logger : Writer) : Cmd :=
  set_Stderr (set_Stdout (CommandContext "service" ["docker"; "start"]) logger) logger.

(** The [for { ... }] loop of [startDocker], lines 112-141.  [fuel]
    bounds the number of turns of the loop; [None] reports that the
    bound was reached before the loop returned. *)
Fixpoint startDocker_loop (fuel : nat) (logger : Writer) (attempts : Z)
  : M (option (option error)) :=
  match fuel with
  | O => ret None
  | S fuel' =>
    err <- Run (psCmd logger) ;;
    match err with
    | None => ret (Some None)
    | Some _ =>
      if attempts >? maxDockerLaunchAttempts then
        ret (Some (Some (fmt_Errorf "%w: failed starting docker" ErrLaunch)))
      else
        err <- Run (startCmd logger) ;;
        match err with
        | Some e => ret (Some (Some e))
        | None =>
          Sleep time_Second ;;;
          startDocker_loop fuel' logger (int_wrap (attempts + 1))
        end
    end
  end.

(** [startDocker], lines 109-142: [attempts] starts at zero; the loop
    leaves at the latest when [attempts] exceeds the ceiling, which
    [startDocker_run] below confirms. *)
Definition startDocker (logger : Writer) : M (option (option error)) :=
  startDocker_loop (S (Z.to_nat (maxDockerLaunchAttempts + 1))) logger 0.

(** The body of the [range] loop of [getContainerIDs], lines 164-170. *)
Definition appendTrimmed (containerIDs : list string) (line : string) : list string :=
  let trimmedLine := strings.TrimSpace line in
  if negb (String.eqb trimmedLine "") then (containerIDs ++ [trimmedLine])%list
  else containerIDs.

(** What [getContainerIDs] makes of the output of the command, lines
    160-172. *)
Definition parseContainerIDs (output : string) : list string :=
  let containerIDLines := strings.Split output LF in
  fold_left appendTrimmed containerIDLines [].

(** [getContainerIDs], lines 144-173. *)
Definition getContainerIDs (all : bool) : M (list string * option error) :=
  let args := ["ps"] in
  let args := if all then (args ++ ["-a"])%list else args in
  let args := (args ++ ["--quiet"])%list in
  let psCmd := CommandContext "docker" args in
  r <- Output psCmd ;;
  let '(output, err) := r in
  match err with
  | Some e => ret ([], Some e)
  | None => ret (parseContainerIDs output, None)
  end.

Definition printLogsCmd (logger : Writer) (containerID : string) : Cmd :=
  set_Stderr (set_Stdout (CommandContext "docker" ["logs"; containerID]) logger) logger.

Definition printLogsWarning : string :=
  "printing node logs for container id %q failed, err: %s".

(** [printContainerLogs], lines 175-198; [logger] is both the sink of
    the command and the receiver of [Warnf]. *)
Fixpoint printContainerLogs (logger : Writer) (containerIDs : list string) : M unit :=
  match containerIDs with
  | [] => ret tt
  | containerID :: rest =>
    err <- Run (printLogsCmd logger containerID) ;;
    match err with
    | Some e => Warnf printLogsWarning [ArgString containerID; ArgError (Some e)]
    | None => ret tt
    end ;;;
    printContainerLogs logger rest
  end.

Definition nodeNameCmd (nodeName : string) : Cmd :=
  CommandContext "docker" ["ps"; "--quiet"; "--filter"; "name=" ++ nodeName].

(** [getContainerIDForNodeName], lines 238-254. *)
Definition getContainerIDForNodeName (nodeName : string) : M (string * option error) :=
  r <- Output (nodeNameCmd nodeName) ;;
  let '(output, err) := r in
  match err with
  | Some e => ret ("", Some e)
  | None => ret (strings.TrimSpace output, None)
  end.

Definition addrFormat : string :=
  "{{range.NetworkSettings.Networks}}{{.IPAddress}}{{end}}".

Definition inspectCmd (containerID : string) : Cmd :=
  CommandContext "docker" ["inspect"; "--format"; addrFormat; containerID].

(** [getContainerAddr], lines 256-272. *)
Definition getContainerAddr (containerID : string) : M (string * option error) :=
  r <- Output (inspectCmd containerID) ;;
  let '(output, err) := r in
  match err with
  | Some e => ret ("", Some e)
  | None => ret (strings.TrimSpace output, None)
  end.

End Launcher.

(* ================================================================== *)
(** * launcher/docker.go: tailContainerLogs and its goroutines *)
(* ================================================================== *)

(** [tailContainerLogs], lines 200-236, starts one goroutine per
    container.  The function
    literal it starts captures the variable [err] of the enclosing
    function: every goroutine assigns to that one variable and reads it
    back.  The function and its goroutines are therefore modelled as
    threads over a shared store, run step by step under a schedule. *)
Module Tail.
Section Tail.
Context {os : OS}.

Definition tailLogsCmd (nodeOutWriter : Writer) (containerID : string) : Cmd :=
  set_Stderr
    (set_Stdout (CommandContext "docker" ["logs"; "-f"; containerID]) nodeOutWriter)
    nodeOutWriter.

Definition tailLogsWarning : string :=
  "tailing node logs for container id %q failed, err: %s".

(** Program points of a goroutine. *)
Inductive GoPC : Type :=
| GRun                          (* before [cmd.Run()] *)
| GStore (res : option error)   (* [cmd.Run()] has returned, [err = ...] pending *)
| GTest                         (* before [if err != nil] *)
| GWarn                         (* before [logger.Warnf(..., containerID, err)] *)
| GDone.

Record Goroutine : Type := mkGoroutine {
  g_containerID : string;
  g_nodeOutWriter : Writer;
  g_pc : GoPC
}.

(** Program points of [tailContainerLogs] itself. *)
Inductive MainPC : Type :=
| MCreate                                       (* before [os.Create] *)
| MTest                                         (* before [if err != nil] *)
| MRange (rest : list string) (nodeOutWriter : Writer)  (* in the [range] loop *)
| MReturned (res : option error).               (* the function has returned *)

Record TailState : Type := mkTailState {
  t_main : MainPC;
  t_err : option error;        (* the shared variable [err] *)
  t_pool : list Goroutine;     (* the goroutines started so far *)
  t_state : State
}.

Definition set_pc (g : Goroutine) (pc : GoPC) : Goroutine :=
  mkGoroutine (g_containerID g) (g_nodeOutWriter g) pc.

Fixpoint update {A} (l : list A) (k : nat) (a : A) : list A :=
  match l, k with
  | [], _ => []
  | _ :: l', O => a :: l'
  | x :: l', S k' => x :: update l' k' a
  end.

(** One step of [tailContainerLogs]. *)
Definition step_main (nodeLogger : Writer) (containerIDs : list string)
           (ts : TailState) : TailState :=
  match t_main ts with
  | MCreate =>
    let '(res, st') := Create "node.log" (t_state ts) in
    mkTailState MTest res (t_pool ts) st'
  | MTest =>
    match t_err ts with
    | Some e => mkTailState (MReturned (Some e)) (t_err ts) (t_pool ts) (t_state ts)
    | None =>
      let nodeOutWriter := MultiWriter nodeLogger (FileWriter "node.log") in
      mkTailState (MRange containerIDs nodeOutWriter) (t_err ts) (t_pool ts) (t_state ts)
    end
  | MRange [] _ =>
    mkTailState (MReturned None) (t_err ts) (t_pool ts) (t_state ts)
  | MRange (containerID :: rest) nodeOutWriter =>
    mkTailState (MRange rest nodeOutWriter) (t_err ts)
                (t_pool ts ++ [mkGoroutine containerID nodeOutWriter GRun])
                (t_state ts)
  | MReturned _ => ts
  end.

(** One step of the goroutine [g], number [k] of the pool. *)
Definition step_goroutine (k : nat) (g : Goroutine) (ts : TailState) : TailState :=
  match g_pc g with
  | GRun =>
    let '(res, st') :=
      Run (tailLogsCmd (g_nodeOutWriter g) (g_containerID g)) (t_state ts) in
    mkTailState (t_main ts) (t_err ts) (update (t_pool ts) k (set_pc g (GStore res))) st'
  | GStore res =>
    mkTailState (t_main ts) res (update (t_pool ts) k (set_pc g GTest)) (t_state ts)
  | GTest =>
    let pc := match t_err ts with Some _ => GWarn | None => GDone end in
    mkTailState (t_main ts) (t_err ts) (update (t_pool ts) k (set_pc g pc)) (t_state ts)
  | GWarn =>
    let '(_, st') :=
      Warnf tailLogsWarning [ArgString (g_containerID g); ArgError (t_err ts)]
            (t_state ts) in
    mkTailState (t_main ts) (t_err ts) (update (t_pool ts) k (set_pc g GDone)) st'
  | GDone => ts
  end.

(** Thread identifiers: the caller, or the [k]-th goroutine started. *)
Inductive Tid : Type :=
| TMain
| TGo (k : nat).

Definition step (nodeLogger : Writer) (containerIDs : list string)
           (t : Tid) (ts : TailState) : TailState :=
  match t with
  | TMain => step_main nodeLogger containerIDs ts
  | TGo k =>
    match nth_error (t_pool ts) k with
    | Some g => step_goroutine k g ts
    | None => ts
    end
  end.

(** The state at the call of [tailContainerLogs]. *)
Definition init (w : World) : TailState :=
  mkTailState MCreate None [] (mkState w []).

(** The run of [tailContainerLogs] and its goroutines under a schedule. *)
Definition run (nodeLogger : Writer) (containerIDs : list string)
           (sched : list Tid) (ts : TailState) : TailState :=
  fold_left (fun ts t => step nodeLogger containerIDs t ts) sched ts.

Definition tailContainerLogs (nodeLogger : Writer) (containerIDs : list string)
           (sched : list Tid) (w : World) : TailState :=
  run nodeLogger containerIDs sched (init w).

Definition is_warning_for (containerID : string) (e : Event) : bool :=
  match e with
  | EvWarnf _ (ArgString s :: _) => String.eqb s containerID
  | _ => false
  end.

Definition all_done (ts : TailState) : bool :=
  forallb (fun g => match g_pc g with GDone => true | _ => false end) (t_pool ts).

End Tail.
End Tail.

(* ================================================================== *)
(** * Concrete environments *)
(* ================================================================== *)

Definition list_string_eqb (a b : list string) : bool :=
  if list_eq_dec string_dec a b then true else false.

(** The command is [name args...]. *)
Definition cmd_is (name : string) (args : list string) (c : Cmd) : bool :=
  String.eqb (Path c) name && list_string_eqb (Args c) args.

Definition quote : string := String "034" EmptyString.

(** An environment given by tables: the world is the list of the
    commands run so far, latest first. *)
Definition tableOS
           (run : list Cmd -> Cmd -> option error)
           (output : Cmd -> string * option error)
           (env : string -> string)
           (create : string -> option error) : OS :=
  {| World := list Cmd;
     cmd_Run := fun c w => (run w c, c :: w);
     cmd_Output := fun c w => (output c, c :: w);
     os_Getenv := fun name _ => env name;
     os_Stat := fun _ _ => None;
     os_Create := fun name w => (create name, w);
     os_WriteFile := fun _ _ _ w => (None, w);
     Template := unit;
     template_ParseFS := fun _ => inl tt;
     template_Execute := fun _ vars =>
       inl ("{storage-driver: " ++ StorageDriver vars ++ ", insecure-registries: ["
              ++ InsecureRegistries vars ++ "]}");
     fmt_Sprintf_q := fun s => quote ++ s ++ quote;
     unicode_orbit := fun r => r |}.

Definition exit1 : error := SysError "exit status 1".

Definition is_probe (c : Cmd) : bool := cmd_is "docker" ["ps"] c.
Definition is_restart (c : Cmd) : bool := cmd_is "service" ["docker"; "start"] c.

(** The daemon never answers; the service manager works. *)
Definition deadDaemon : OS :=
  tableOS (fun _ c => if is_probe c then Some exit1 else None)
          (fun _ => ("", None)) (fun _ => "") (fun _ => None).

(** The daemon answers the [k]-th probe (counted from 1). *)
Definition slowDaemon (k : nat) : OS :=
  tableOS (fun w c =>
             if is_probe c
             then if (List.length (filter is_probe w) + 1 <? k)%nat
                  then Some exit1 else None
             else None)
          (fun _ => ("", None)) (fun _ => "") (fun _ => None).

(** No service manager: the restart command cannot be executed. *)
Definition noService : error := SysError "exec: service: executable file not found in $PATH".

Definition noServiceManager : OS :=
  tableOS (fun _ c => if is_probe c then Some exit1
                      else if is_restart c then Some noService else None)
          (fun _ => ("", None)) (fun _ => "") (fun _ => None).

(** The daemon configuration is wanted: registries [regs], privileged
    flag [priv]. *)
Definition registriesOS (regs priv : string) : OS :=
  tableOS (fun _ _ => None) (fun _ => ("", None))
          (fun name => if String.eqb name "LAUNCHER_INSECURE_REGISTRIES" then regs
                       else if String.eqb name "LAUNCHER_PRIVILEGED" then priv
                       else "")
          (fun _ => None).

(** A runtime whose commands print [out], or fail when [fails] is set. *)
Definition queryOS (out : string) (fails : bool) : OS :=
  tableOS (fun _ _ => None)
          (fun _ => if fails then ("", Some exit1) else (out, None))
          (fun _ => "") (fun _ => None).

(** ** The runtime's side of [getContainerAddr]

    [docker inspect --format F id] executes the Go template [F] on the
    description of the container and prints the result followed by a
    newline.  The fields the template [addrFormat] reads: *)
Record EndpointSettings : Type := mkEndpoint {
  IPAddress : string
}.

Record NetworkSettings : Type := mkNetworkSettings {
  (** a map from network names to endpoints, kept in key order, the
      order in which a template ranges over a map *)
  Networks : list (string * EndpointSettings)
}.

Record ContainerJSON : Type := mkContainerJSON {
  NetworkSettings_ : NetworkSettings
}.

(** [{{range.NetworkSettings.Networks}}{{.IPAddress}}{{end}}]: for every
    network of the container, in turn, the text of its address. *)
Definition execute_addrFormat (c : ContainerJSON) : string :=
  String.concat "" (map (fun kv => IPAddress (snd kv)) (Networks (NetworkSettings_ c))).

Definition inspect_output (c : ContainerJSON) : string :=
  execute_addrFormat c ++ LF.

(** The address of the first attached network, if any. *)
Definition first_network_address (c : ContainerJSON) : string :=
  match Networks (NetworkSettings_ c) with
  | [] => ""
  | kv :: _ => IPAddress (snd kv)
  end.

(** A runtime holding the single container [c]. *)
Definition inspectOS (c : ContainerJSON) : OS := queryOS (inspect_output c) false.

Definition twoNetworks : ContainerJSON :=
  mkContainerJSON (mkNetworkSettings
    [("bridge", mkEndpoint "172.17.0.2"); ("mgmt", mkEndpoint "10.0.0.5")]).

Definition oneNetwork : ContainerJSON :=
  mkContainerJSON (mkNetworkSettings [("bridge", mkEndpoint "172.17.0.2")]).

(** ** A run of [tailContainerLogs] with two containers

    [docker logs -f a] fails, every other command succeeds. *)
Definition tailOS : OS :=
  tableOS (fun _ c => if cmd_is "docker" ["logs"; "-f"; "a"] c then Some exit1 else None)
          (fun _ => ("", None)) (fun _ => "") (fun _ => None).

Definition callerSteps : list Tail.Tid :=
  [Tail.TMain; Tail.TMain; Tail.TMain; Tail.TMain; Tail.TMain].

(** The caller runs to its end; goroutine 0 runs its command and stores
    the failure in [err]; goroutine 1 runs its command and stores [nil];
    then both test [err]. *)
Definition overwritten : list Tail.Tid :=
  (callerSteps ++
   [Tail.TGo 0; Tail.TGo 0; Tail.TGo 1; Tail.TGo 1; Tail.TGo 0; Tail.TGo 1])%list.

(** Goroutine 1 stores [nil] first, goroutine 0 then stores its failure,
    and goroutine 1 reads it. *)
Definition misattributed : list Tail.Tid :=
  (callerSteps ++
   [Tail.TGo 0; Tail.TGo 1; Tail.TGo 1; Tail.TGo 0;
    Tail.TGo 1; Tail.TGo 1; Tail.TGo 0; Tail.TGo 0])%list.

(** No file can be created. *)
Definition readOnlyOS : OS :=
  tableOS (fun _ _ => None) (fun _ => ("", None)) (fun _ => "")
          (fun _ => Some (SysError "open node.log: read-only file system")).

(* ================================================================== *)
(** * Vocabulary of the specification *)
(* ================================================================== *)

(** The runes of a string, read from the left. *)
Fixpoint runes_loop (fuel : nat) (s : bytes) : list rune :=
  match fuel with
  | O => []
  | S fuel' =>
    match s with
    | [] => []
    | _ :: _ =>
      let '(r, w) := utf8.DecodeRuneInString s in
      r :: runes_loop fuel' (skipn w s)
    end
  end.

Definition runes (s : string) : list rune :=
  runes_loop (String.length s) (str s).

(** A blank entry: empty, or made of white space only. *)
Definition blank (s : string) : bool := forallb unicode.IsSpace (runes s).

(** ASCII white space only. *)
Definition ascii_spaces (s : string) : bool :=
  forallb (fun c => strings.asciiSpace (b2z c)) (str s).

(** A token: a non-empty run of ASCII bytes none of which is a space. *)
Definition token_byte (c : ascii) : bool :=
  (b2z c <? utf8.RuneSelf)%Z && negb (strings.asciiSpace (b2z c)).

Definition is_token (s : string) : bool :=
  negb (String.eqb s "") && forallb token_byte (str s).

(** A string cut at every occurrence of the byte [c]. *)
Fixpoint split_at (c : ascii) (s : bytes) : list bytes :=
  match s with
  | [] => [[]]
  | x :: s' =>
    if Ascii.eqb x c then [] :: split_at c s'
    else match split_at c s' with
         | l :: ls => (x :: l) :: ls
         | [] => [[x]]
         end
  end.

Fixpoint count_byte (c : ascii) (s : bytes) : nat :=
  match s with
  | [] => 0%nat
  | x :: s' => if Ascii.eqb x c then S (count_byte c s') else count_byte c s'
  end.

(** The lines of a text: what stands between its newlines. *)
Definition lines (s : string) : list string :=
  map gostring (split_at "010"%char (str s)).

(** The lines of the output, trimmed, those left empty dropped. *)
Definition trimmed_nonempty_lines (output : string) : list string :=
  filter (fun l => negb (String.eqb l ""))
         (map strings.TrimSpace (lines output)).

(** Trimming an ASCII text: the ASCII spaces at both ends removed. *)
Fixpoint drop_spaces (s : bytes) : bytes :=
  match s with
  | [] => []
  | c :: s' => if strings.asciiSpace (b2z c) then drop_spaces s' else s
  end.

Definition trim_ascii (s : bytes) : bytes :=
  rev (drop_spaces (rev (drop_spaces s))).

(** Bytes that are ASCII spaces, and ASCII bytes that are not. *)
Definition is_space_byte (c : ascii) : Prop := strings.asciiSpace (b2z c) = true.
Definition is_token_byte (c : ascii) : Prop :=
  (b2z c < utf8.RuneSelf)%Z /\ strings.asciiSpace (b2z c) = false.

(** Equality of two strings up to the case of ASCII letters. *)
Definition lowerZ (x : Z) : Z :=
  if ((0x41 <=? x) && (x <=? 0x5A))%Z then x + 0x20 else x.

Definition equal_ignoring_case (s t : string) : bool :=
  if list_eq_dec Z.eq_dec (map (fun c => lowerZ (b2z c)) (str s))
                          (map (fun c => lowerZ (b2z c)) (str t))
  then true else false.

(** Reading a trace. *)
Definition runs (tr : list Event) : list (Cmd * option error) :=
  flat_map (fun ev => match ev with EvRun c res => [(c, res)] | _ => [] end) tr.

Definition probe_results (tr : list Event) : list (option error) :=
  map snd (filter (fun cr => is_probe (fst cr)) (runs tr)).

Definition restart_results (tr : list Event) : list (option error) :=
  map snd (filter (fun cr => is_restart (fst cr)) (runs tr)).

Definition warnings (tr : list Event) : list (string * list Arg) :=
  flat_map (fun ev => match ev with EvWarnf f args => [(f, args)] | _ => [] end) tr.

Definition failures (rs : list (Cmd * option error)) : list (Cmd * error) :=
  flat_map (fun cr => match snd cr with Some e => [(fst cr, e)] | None => [] end) rs.

Definition executions (tr : list Event) : list TemplateVars :=
  flat_map (fun ev => match ev with EvExecute vars _ => [vars] | _ => [] end) tr.

Definition writes (tr : list Event) : list (string * string) :=
  flat_map (fun ev => match ev with
                      | EvWriteFile name data _ _ => [(name, data)]
                      | _ => []
                      end) tr.

(** An error that wraps the launch sentinel and reads "<sentinel>: msg",
    whatever the text of the sentinel. *)
Definition launch_error_with (msg : string) (e : error) : Prop :=
  errors_Is e ErrLaunch = true /\
  forall launch_text, Error launch_text e = launch_text ++ ": " ++ msg.

Section LoopRuns.
Variable maxDockerLaunchAttempts : Z.
Variable logger : Writer.

(** The events and the result of the loop of [startDocker] entered
    with a given value of [attempts]. *)
Inductive loop_run : Z -> list Event -> option error -> Prop :=
| run_ready a :
    loop_run a [EvRun (psCmd logger) None] None
| run_exhausted a e :
    a > maxDockerLaunchAttempts ->
    loop_run a [EvRun (psCmd logger) (Some e)]
             (Some (fmt_Errorf "%w: failed starting docker" ErrLaunch))
| run_restart_failed a e e' :
    a <= maxDockerLaunchAttempts ->
    loop_run a [EvRun (psCmd logger) (Some e); EvRun (startCmd logger) (Some e')]
             (Some e')
| run_retry a e evs r :
    a <= maxDockerLaunchAttempts ->
    loop_run (a + 1) evs r ->
    loop_run a (EvRun (psCmd logger) (Some e) :: EvRun (startCmd logger) None
                      :: EvSleep time_Second :: evs) r.

End LoopRuns.

(** The command that [getContainerIDs] runs. *)
Definition listCmd (all : bool) : Cmd :=
  CommandContext "docker" (if all then ["ps"; "-a"; "--quiet"] else ["ps"; "--quiet"]).

(** The text of an address as the runtime prints it: nothing, or a token. *)
Definition address_text (s : string) : bool := String.eqb s "" || is_token s.

(** The warning [printContainerLogs] owes for a container and the result
    of its command. *)
Definition warning_of (id_res : string * option error) : list (string * list Arg) :=
  match snd id_res with
  | Some e => [(printLogsWarning, [ArgString (fst id_res); ArgError (Some e)])]
  | None => []
  end.

(** The error [startDocker] returns at the ceiling. *)
Definition launchError : error := fmt_Errorf "%w: failed starting docker" ErrLaunch.

Definition templateName : string := "assets/docker-daemon.json.template".

(** The writer [tailContainerLogs] builds over the sink "node". *)
Definition tailWriter : Writer := MultiWriter (Sink "node") (FileWriter "node.log").

(** What the caller of [tailContainerLogs], started in world [w], knows at
    each of its program points, whatever the goroutines have done. *)
Definition caller_inv {os : OS} (w : World) (ts : Tail.TailState) : Prop :=
  match Tail.t_main ts with
  | Tail.MCreate => Tail.t_state ts = mkState w [] /\ Tail.t_pool ts = []
  | Tail.MTest => Tail.t_err ts = fst (os_Create "node.log" w) /\ Tail.t_pool ts = []
  | Tail.MRange _ _ => fst (os_Create "node.log" w) = None
  | Tail.MReturned r => r = fst (os_Create "node.log" w)
  end.

(** Three containers; the logs of "b" cannot be fetched. *)
Definition dumpOS : OS :=
  tableOS (fun _ c => if cmd_is "docker" ["logs"; "b"] c then Some exit1 else None)
          (fun _ => ("", None)) (fun _ => "") (fun _ => None).

(* ================================================================== *)
(** * Further vocabulary *)
(* ================================================================== *)

(** Position [i] of [u] is where a rune may start: the end of the string,
    or a byte that is not a continuation byte. *)
Definition boundary (u : bytes) (i : nat) : Prop :=
  i = List.length u \/ utf8.cont (b2z (nth i u zero)) = false.

(** The string begins, or ends, with a white-space rune. *)
Definition starts_with_space (s : string) : bool :=
  unicode.IsSpace (fst (utf8.DecodeRuneInString (str s))).

Definition ends_with_space (s : string) : bool :=
  unicode.IsSpace (fst (utf8.DecodeLastRuneInString (str s))).

(** [t] is a part of [s]: it stands in [s], bytes before and after. *)
Definition part_of (t s : string) : Prop :=
  exists pre post, s = pre ++ t ++ post.

(** A line of output that carries a token: the token between runs of
    ASCII spaces other than the newline. *)
Definition no_newline (s : string) : bool :=
  forallb (fun c => negb (Ascii.eqb c "010"%char)) (str s).

Definition padded (line : string * string * string) : string :=
  let '(pre, tok, post) := line in pre ++ tok ++ post.

Definition well_padded (line : string * string * string) : bool :=
  let '(pre, tok, post) := line in
  ascii_spaces pre && no_newline pre && is_token tok
  && ascii_spaces post && no_newline post.

(** Lines written one after the other, each closed by a newline. *)
Definition unlines (ls : list string) : string :=
  String.concat "" (map (fun l => l ++ LF) ls).

(** The durations slept, in order. *)
Definition sleeps (tr : list Event) : list Z :=
  flat_map (fun ev => match ev with EvSleep d => [d] | _ => [] end) tr.

(** How many of the results are nil. *)
Definition successes (rs : list (option error)) : nat :=
  List.length (filter is_nil rs).

(** What [printContainerLogs] does for one container, given the result
    of its command. *)
Definition dump_events (logger : Writer) (id_res : string * option error) : list Event :=
  EvRun (printLogsCmd logger (fst id_res)) (snd id_res)
  :: match snd id_res with
     | Some e => [EvWarnf printLogsWarning [ArgString (fst id_res); ArgError (Some e)]]
     | None => []
     end.

(** The comma-separated elements of a text. *)
Definition elements (s : string) : list string :=
  map gostring (split_at ","%char (str s)).

Definition no_comma (s : string) : bool :=
  forallb (fun c => negb (Ascii.eqb c ","%char)) (str s).

Definition CR : string := String "013" EmptyString.

(** The writes of a trace, with their permissions and results. *)
Definition write_events (tr : list Event) : list (string * string * Z * option error) :=
  flat_map (fun ev => match ev with
                      | EvWriteFile name data perm res => [(name, data, perm, res)]
                      | _ => []
                      end) tr.

(** A file written with success is there for [os.Stat]. *)
Definition files_persist {os : OS} : Prop :=
  forall name data perm w,
    fst (os_WriteFile name data perm w) = None ->
    os_Stat name (snd (os_WriteFile name data perm w)) = None.

(** An environment with a file system: the world is the list of the
    files that exist. *)
Definition noFile : error := SysError "no such file or directory".

Definition fsOS (regs priv : string) : OS :=
  {| World := list string;
     cmd_Run := fun _ w => (None, w);
     cmd_Output := fun _ w => (("", None), w);
     os_Getenv := fun name _ =>
       if String.eqb name "LAUNCHER_INSECURE_REGISTRIES" then regs
       else if String.eqb name "LAUNCHER_PRIVILEGED" then priv
       else "";
     os_Stat := fun name w => if existsb (String.eqb name) w then None else Some noFile;
     os_Create := fun name w => (None, name :: w);
     os_WriteFile := fun name _ _ w => (None, name :: w);
     Template := unit;
     template_ParseFS := fun _ => inl tt;
     template_Execute := fun _ vars =>
       inl ("{storage-driver: " ++ StorageDriver vars ++ ", insecure-registries: ["
              ++ InsecureRegistries vars ++ "]}");
     fmt_Sprintf_q := fun s => quote ++ s ++ quote;
     unicode_orbit := fun r => r |}.

(** ** Reading the threads of [tailContainerLogs] *)

(** The writer [tailContainerLogs] hands to its goroutines. *)
Definition nodeOutWriterOf (nodeLogger : Writer) : Writer :=
  MultiWriter nodeLogger (FileWriter "node.log").

(** The goroutine has run its command; it has come to its end. *)
Definition started (g : Tail.Goroutine) : bool :=
  match Tail.g_pc g with Tail.GRun => false | _ => true end.

Definition finished (g : Tail.Goroutine) : bool :=
  match Tail.g_pc g with Tail.GDone => true | _ => false end.

Definition goroutineCmd (g : Tail.Goroutine) : Cmd :=
  Tail.tailLogsCmd (Tail.g_nodeOutWriter g) (Tail.g_containerID g).

(** The steps the caller has still to take, at most, for [n] containers. *)
Definition main_left (n : nat) (pc : Tail.MainPC) : nat :=
  match pc with
  | Tail.MCreate => 3 + n
  | Tail.MTest => 2 + n
  | Tail.MRange rest _ => 1 + List.length rest
  | Tail.MReturned _ => 0
  end.

Definition main_steps (sched : list Tail.Tid) : nat :=
  List.length (filter (fun t => match t with Tail.TMain => true | _ => false end) sched).

(** The warning a goroutine emits for its container. *)
Definition tailWarning (containerID : string) (err : option error) : string * list Arg :=
  (Tail.tailLogsWarning, [ArgString containerID; ArgError err]).

(** What holds of the goroutines and of the trace at every point of
    every run of [tailContainerLogs]. *)
Definition tail_inv {os : OS} (nodeLogger : Writer) (containerIDs : list string)
           (ts : Tail.TailState) : Prop :=
  let pool := Tail.t_pool ts in
  let tr := trace (Tail.t_state ts) in
  (match Tail.t_main ts with
   | Tail.MCreate | Tail.MTest => pool = []
   | Tail.MRange rest wr =>
     wr = nodeOutWriterOf nodeLogger /\
     (map Tail.g_containerID pool ++ rest)%list = containerIDs
   | Tail.MReturned None => map Tail.g_containerID pool = containerIDs
   | Tail.MReturned (Some _) => pool = []
   end) /\
  Forall (fun wr => wr = nodeOutWriterOf nodeLogger) (map Tail.g_nodeOutWriter pool) /\
  Permutation (map fst (runs tr)) (map goroutineCmd (filter started pool)) /\
  (List.length (warnings tr) <= List.length (filter finished pool))%nat /\
  Forall (fun fa => exists id err,
              In id (map Tail.g_containerID pool) /\ fa = tailWarning id err)
         (warnings tr).

(** The same for a single container [id]: the shared variable [err] has
    one writer only. *)
Definition single_inv {os : OS} (nodeLogger : Writer) (id : string)
           (ts : Tail.TailState) : Prop :=
  let tr := trace (Tail.t_state ts) in
  let c := Tail.tailLogsCmd (nodeOutWriterOf nodeLogger) id in
  match Tail.t_pool ts with
  | [] =>
    runs tr = [] /\ warnings tr = [] /\
    match Tail.t_main ts with
    | Tail.MRange rest wr => rest = [id] /\ wr = nodeOutWriterOf nodeLogger
    | Tail.MReturned None => False
    | _ => True
    end
  | [g] =>
    Tail.g_containerID g = id /\
    Tail.g_nodeOutWriter g = nodeOutWriterOf nodeLogger /\
    (match Tail.t_main ts with
     | Tail.MRange [] _ | Tail.MReturned None => True
     | _ => False
     end) /\
    match Tail.g_pc g with
    | Tail.GRun => runs tr = [] /\ warnings tr = []
    | Tail.GStore res => runs tr = [(c, res)] /\ warnings tr = []
    | Tail.GTest => runs tr = [(c, Tail.t_err ts)] /\ warnings tr = []
    | Tail.GWarn =>
      runs tr = [(c, Tail.t_err ts)] /\ warnings tr = [] /\ Tail.t_err ts <> None
    | Tail.GDone =>
      runs tr = [(c, Tail.t_err ts)] /\
      warnings tr = match Tail.t_err ts with
                    | Some e => [tailWarning id (Some e)]
                    | None => []
                    end
    end
  | _ => False
  end.

(** Both streams of the command go to [logger]. *)
Definition streams_to (logger : Writer) (c : Cmd) : Prop :=
  Stdout c = Some logger /\ Stderr c = Some logger.

(** The command of [enableLegacyIPTables]. *)
Definition updateAlternativesCmd (logger : Writer) : Cmd :=
  mkCmd "update-alternatives" ["--set"; "iptables"; "/usr/sbin/iptables-legacy"]
        (Some logger) (Some logger).

(* ================================================================== *)
(** * Facts about the decoding of runes *)
(* ================================================================== *)

Local Close Scope string_scope.
Local Open Scope Z_scope.

Module utf8_facts.
Import utf8 unicode.

Lemma b2z_range c : 0 <= b2z c < 256.
Proof.
  unfold b2z. pose proof (N_ascii_bounded c). lia.
Qed.

Lemma IsSpace_RuneError : IsSpace RuneError = false.
Proof. reflexivity. Qed.

Ltac split_decode :=
  repeat match goal with
         | |- context [match ?x with _ => _ end] =>
           match type of x with
           | firstInfo => destruct x eqn:?
           | bool => destruct x eqn:?
           | list _ => destruct x eqn:?
           end
         | H : context [match ?x with _ => _ end] |- _ =>
           match type of x with
           | firstInfo => destruct x eqn:?
           | bool => destruct x eqn:?
           | list _ => destruct x eqn:?
           end
         end.

Ltac ltb_facts :=
  repeat match goal with
         | H : (_ <? _)%nat = false |- _ => apply Nat.ltb_ge in H
         | H : (_ <? _)%nat = true |- _ => apply Nat.ltb_lt in H
         | H : (_ <=? _)%nat = false |- _ => apply Nat.leb_gt in H
         | H : (_ <=? _)%nat = true |- _ => apply Nat.leb_le in H
         end.

Lemma Decode_size s :
  s <> [] -> (1 <= snd (DecodeRuneInString s) <= List.length s)%nat.
Proof.
  intros Hs. destruct s as [|c0 t]; [congruence|].
  unfold DecodeRuneInString.
  split_decode; subst; cbn [snd List.length] in *; ltb_facts;
    cbn [List.length] in *; try lia.
Qed.

Lemma Decode_ascii c t :
  b2z c < RuneSelf -> DecodeRuneInString (c :: t) = (b2z c, 1%nat).
Proof.
  intros H. unfold DecodeRuneInString, first.
  unfold RuneSelf in H.
  destruct (Z.ltb_spec (b2z c) 128); [reflexivity | lia].
Qed.

(** A complete encoding decodes the same way whatever follows it. *)
Lemma Decode_app u rest r :
  DecodeRuneInString u = (r, List.length u) ->
  r <> RuneError ->
  DecodeRuneInString (u ++ rest) = (r, List.length u).
Proof.
  intros H Hr.
  destruct u as [|c0 [|c1 [|c2 [|c3 [|c4 u]]]]];
    cbn [app List.length] in *; unfold DecodeRuneInString in *;
    split_decode; ltb_facts; cbn [List.length] in *;
    try congruence; try lia;
    try (injection H; intros; subst; congruence);
    try (injection H; intros; lia).
Qed.

(** Cutting a string short either keeps its first rune or makes the
    encoding invalid. *)
Lemma Decode_firstn j u :
  (1 <= j)%nat ->
  fst (DecodeRuneInString (firstn j u)) = fst (DecodeRuneInString u) \/
  fst (DecodeRuneInString (firstn j u)) = RuneError.
Proof.
  intros Hj.
  destruct j as [|[|[|[|j]]]]; [lia|..];
    destruct u as [|c0 [|c1 [|c2 [|c3 u]]]];
    cbn [firstn]; unfold DecodeRuneInString;
    split_decode; cbn [fst]; auto; ltb_facts; cbn [List.length] in *;
    try lia; try congruence.
  pose proof (length_firstn j u). lia.
Qed.

Lemma lookback_le n s start : lookback n s start <= start.
Proof.
  revert start. induction n as [|n IH]; intros start; cbn [lookback]; [lia|].
  destruct (RuneStart _); [lia|]. specialize (IH (start - 1)). lia.
Qed.

Lemma DecodeLast_size s :
  s <> [] -> (1 <= snd (DecodeLastRuneInString s) <= List.length s)%nat.
Proof.
  intros Hs. unfold DecodeLastRuneInString.
  assert (Hlen : (1 <= List.length s)%nat) by (destruct s; [congruence | cbn; lia]).
  destruct (Z.eqb_spec (Z.of_nat (List.length s)) 0); [lia|].
  destruct (_ <? RuneSelf); [cbn; lia|].
  set (lb := lookback _ _ _).
  assert (Hlb : lb <= Z.of_nat (List.length s) - 1 - 1) by apply lookback_le.
  destruct (DecodeRuneInString _) as [r size].
  destruct (Z.eqb_spec (Z.max 0 lb + Z.of_nat size) (Z.of_nat (List.length s)));
    cbn [negb snd]; lia.
Qed.

(** When the last rune found from the end is a space covering the whole
    string, the string is the encoding of that rune. *)
Lemma DecodeLast_whole s r :
  DecodeLastRuneInString s = (r, List.length s) ->
  IsSpace r = true ->
  DecodeRuneInString s = (r, List.length s).
Proof.
  unfold DecodeLastRuneInString. intros H Hsp.
  destruct (Z.eqb_spec (Z.of_nat (List.length s)) 0) as [E|E].
  - injection H; intros; subst. discriminate.
  - destruct (Z.ltb_spec (at_ s (Z.of_nat (List.length s) - 1)) RuneSelf) as [Hlt|Hge].
    + injection H; intros Hl Hr.
      destruct s as [|c [|c' s]]; cbn [List.length] in *; try lia.
      unfold at_ in *. cbn in Hr, Hlt. subst r.
      apply Decode_ascii. exact Hlt.
    + set (lb := lookback _ _ _) in H.
      destruct (DecodeRuneInString _) as [r' size] eqn:Hd.
      destruct (Z.eqb_spec (Z.max 0 lb + Z.of_nat size) (Z.of_nat (List.length s))) as [E'|E'];
        cbn [negb] in H.
      * injection H; intros; subst.
        assert (Hz : Z.max 0 lb = 0) by lia.
        rewrite Hz in Hd. cbn [Z.to_nat] in Hd. unfold slice in Hd.
        rewrite Nat.sub_0_r, skipn_O, firstn_all in Hd. exact Hd.
      * injection H; intros; subst. discriminate.
Qed.

End utf8_facts.

(* ================================================================== *)
(** * Facts about the trimming functions *)
(* ================================================================== *)

Module strings_facts.
Import utf8 unicode strings utf8_facts.

Lemma IsSpace_ascii b : 0 <= b < RuneSelf -> IsSpace b = asciiSpace b.
Proof.
  unfold RuneSelf, IsSpace, asciiSpace, MaxLatin1. intros H.
  destruct (Z.leb_spec 0 b); [|lia].
  destruct (Z.leb_spec b 255); [|lia]. cbn [andb].
  destruct (Z.eqb_spec b 133); [lia|].
  destruct (Z.eqb_spec b 160); [lia|].
  rewrite !orb_false_r. reflexivity.
Qed.

Lemma IsSpace_not_RuneError r : IsSpace r = true -> r <> RuneError.
Proof. intros H ->. discriminate. Qed.

Lemma firstn_nonempty {A} (j : nat) (u : list A) :
  (1 <= j)%nat -> u <> [] -> firstn j u <> [].
Proof. destruct j, u; cbn; intros; try lia; congruence. Qed.

Lemma lastIndexFunc_found fuel :
  forall u i,
    IsSpace (fst (DecodeRuneInString u)) = false ->
    (1 <= i <= List.length u)%nat -> (i <= fuel)%nat ->
    exists k, lastIndexFunc_loop fuel u i IsSpace false = Some k /\ (k < i)%nat.
Proof.
  induction fuel as [|fuel IH]; intros u i Hfirst Hi Hfuel; [lia|].
  cbn [lastIndexFunc_loop].
  destruct (Nat.eqb_spec i 0); [lia|].
  assert (Hlen : List.length (firstn i u) = i) by (rewrite length_firstn; lia).
  assert (Hne : firstn i u <> []) by (intros E; rewrite E in Hlen; cbn in Hlen; lia).
  pose proof (DecodeLast_size _ Hne) as Hsz. rewrite Hlen in Hsz.
  destruct (DecodeLastRuneInString (firstn i u)) as [r size] eqn:Hd.
  cbn [snd] in Hsz.
  destruct (IsSpace r) eqn:Hr; cbn [Bool.eqb].
  - destruct (Nat.eq_dec size i) as [->|Hneq].
    + exfalso. rewrite <- Hlen in Hd at 2.
      apply DecodeLast_whole in Hd; [|exact Hr].
      apply (Decode_app _ (skipn i u)) in Hd; [|apply IsSpace_not_RuneError; exact Hr].
      rewrite firstn_skipn in Hd. rewrite Hd in Hfirst. cbn in Hfirst. congruence.
    + destruct (IH u (i - size)%nat Hfirst) as [k [Hk Hlt]]; [lia|lia|].
      exists k. split; [exact Hk | lia].
  - exists (i - size)%nat. split; [reflexivity | lia].
Qed.

Lemma TrimRightFunc_firstn u :
  u <> [] -> IsSpace (fst (DecodeRuneInString u)) = false ->
  exists j, (1 <= j)%nat /\ TrimRightFunc u IsSpace = firstn j u.
Proof.
  intros Hne Hfirst. unfold TrimRightFunc, lastIndexFunc.
  assert (Hlen : (1 <= List.length u)%nat) by (destruct u; [congruence | cbn; lia]).
  destruct (lastIndexFunc_found (List.length u) u (List.length u) Hfirst) as [k [-> Hk]];
    [lia | lia |].
  assert (Hsk : skipn k u <> []).
  { intros E. apply (f_equal (@List.length ascii)) in E.
    rewrite length_skipn in E. cbn in E. lia. }
  pose proof (Decode_size _ Hsk).
  destruct (RuneSelf <=? _).
  - eexists. split; [|reflexivity]. lia.
  - eexists. split; [|reflexivity]. lia.
Qed.

(** Trimming on the right keeps a leading rune that is not a space. *)
Lemma TrimRightFunc_first u :
  u <> [] -> IsSpace (fst (DecodeRuneInString u)) = false ->
  TrimRightFunc u IsSpace <> [] /\
  IsSpace (fst (DecodeRuneInString (TrimRightFunc u IsSpace))) = false.
Proof.
  intros Hne Hfirst.
  destruct (TrimRightFunc_firstn u Hne Hfirst) as [j [Hj ->]].
  split; [apply firstn_nonempty; assumption|].
  destruct (Decode_firstn j u Hj) as [-> | ->]; [exact Hfirst | reflexivity].
Qed.

Lemma indexFunc_found f fuel :
  forall rest i k,
    indexFunc_loop fuel rest i f false = Some k ->
    exists d, k = (i + d)%nat /\ skipn d rest <> [] /\
              f (fst (DecodeRuneInString (skipn d rest))) = false.
Proof.
  induction fuel as [|fuel IH]; intros rest i k H; cbn [indexFunc_loop] in H;
    [discriminate|].
  destruct rest as [|c t]; [discriminate|].
  destruct (DecodeRuneInString (c :: t)) as [r w] eqn:Hd.
  destruct (f r) eqn:Hf; cbn [Bool.eqb] in H.
  - apply IH in H. destruct H as [d [-> [Hne Hfd]]].
    rewrite skipn_skipn in Hne, Hfd.
    exists (d + w)%nat. split; [lia|]. split; assumption.
  - injection H; intros <-. exists 0%nat. cbn [skipn].
    split; [lia|]. split; [discriminate|]. rewrite Hd. exact Hf.
Qed.

Lemma TrimLeftFunc_first s f :
  TrimLeftFunc s f = [] \/
  (TrimLeftFunc s f <> [] /\ f (fst (DecodeRuneInString (TrimLeftFunc s f))) = false).
Proof.
  unfold TrimLeftFunc, indexFunc.
  destruct (indexFunc_loop _ _ _ _ _) as [k|] eqn:H; [|left; reflexivity].
  apply indexFunc_found in H. destruct H as [d [-> [Hne Hf]]].
  right. cbn [Nat.add]. split; assumption.
Qed.

Lemma TrimRightFunc_nil f : TrimRightFunc [] f = [].
Proof. reflexivity. Qed.

Lemma TrimFunc_first s :
  TrimFunc s IsSpace = [] \/
  (TrimFunc s IsSpace <> [] /\
   IsSpace (fst (DecodeRuneInString (TrimFunc s IsSpace))) = false).
Proof.
  unfold TrimFunc.
  destruct (TrimLeftFunc_first s IsSpace) as [-> | [Hne Hf]].
  - left. reflexivity.
  - right. apply TrimRightFunc_first; assumption.
Qed.

Lemma space_byte_ascii c : is_space_byte c -> b2z c < RuneSelf.
Proof.
  unfold is_space_byte, asciiSpace, RuneSelf. intros H.
  repeat (apply orb_true_iff in H; destruct H as [H|H]);
    apply Z.eqb_eq in H; lia.
Qed.

Lemma scan_spaces pre s :
  Forall is_space_byte pre -> TrimSpace_scan (pre ++ s) = TrimSpace_scan s.
Proof.
  induction 1 as [|c pre Hc _ IH]; [reflexivity|].
  cbn [app TrimSpace_scan].
  pose proof (space_byte_ascii c Hc).
  destruct (Z.leb_spec RuneSelf (b2z c)); [lia|].
  rewrite Hc. exact IH.
Qed.

Lemma scan_token c t :
  is_token_byte c -> TrimSpace_scan (c :: t) = inl (c :: t).
Proof.
  intros [Hlt Hns]. cbn [TrimSpace_scan].
  destruct (Z.leb_spec RuneSelf (b2z c)); [lia|]. rewrite Hns. reflexivity.
Qed.

(** What the scanning loop leaves: a suffix, cut after ASCII spaces. *)
Lemma scan_inv s :
  match TrimSpace_scan s with
  | inl rest =>
    exists pre, s = pre ++ rest /\ Forall is_space_byte pre /\
                (rest = [] \/ exists c t, rest = c :: t /\ is_token_byte c)
  | inr rest =>
    exists pre, s = pre ++ rest /\ Forall is_space_byte pre /\
                exists c t, rest = c :: t /\ RuneSelf <= b2z c
  end.
Proof.
  induction s as [|c s IH]; cbn [TrimSpace_scan].
  - exists []. repeat split; auto.
  - destruct (Z.leb_spec RuneSelf (b2z c)) as [Hge|Hlt].
    + exists []. repeat split; auto. exists c, s. split; [reflexivity | exact Hge].
    + destruct (asciiSpace (b2z c)) eqn:Hsp.
      * destruct (TrimSpace_scan s) as [rest|rest];
          destruct IH as [pre [-> [Hpre Hrest]]];
          exists (c :: pre); (split; [reflexivity|]); (split; [constructor; assumption|]);
          exact Hrest.
      * exists []. repeat split; auto. right. exists c, s. repeat split; auto.
Qed.

Lemma Decode_token c t :
  is_token_byte c -> IsSpace (fst (DecodeRuneInString (c :: t))) = false.
Proof.
  intros [Hlt Hns]. rewrite Decode_ascii by exact Hlt. cbn [fst].
  rewrite IsSpace_ascii; [exact Hns|]. pose proof (b2z_range c). lia.
Qed.

(** The result of [TrimSpace] is empty or starts with a rune that is not
    a space. *)
Lemma TrimSpaceB_first s :
  TrimSpaceB s = [] \/
  (TrimSpaceB s <> [] /\ IsSpace (fst (DecodeRuneInString (TrimSpaceB s))) = false).
Proof.
  unfold TrimSpaceB.
  pose proof (scan_inv s) as Hs.
  destruct (TrimSpace_scan s) as [rest|rest]; [|apply TrimFunc_first].
  destruct Hs as [pre [-> [Hpre [-> | [c [t [-> Hc]]]]]]].
  - left. reflexivity.
  - pose proof (scan_inv (rev (c :: t))) as Hr.
    destruct (TrimSpace_scan (rev (c :: t))) as [r|r];
      destruct Hr as [pre' [Hrev [Hpre' Hr]]];
      apply (f_equal (@rev ascii)) in Hrev;
      rewrite rev_involutive, rev_app_distr in Hrev.
    + destruct Hr as [-> | [c' [t' [-> _]]]]; [left; reflexivity|].
      right.
      destruct (rev (c' :: t')) as [|x xs] eqn:Hx.
      { apply (f_equal (@List.length ascii)) in Hx. rewrite length_rev in Hx. discriminate. }
      cbn [app] in Hrev. injection Hrev; intros _ <-.
      split; [discriminate | apply Decode_token; exact Hc].
    + destruct Hr as [c' [t' [-> _]]].
      destruct (rev (c' :: t')) as [|x xs] eqn:Hx.
      { apply (f_equal (@List.length ascii)) in Hx. rewrite length_rev in Hx. discriminate. }
      cbn [app] in Hrev. injection Hrev; intros _ <-.
      right. apply TrimRightFunc_first; [discriminate | apply Decode_token; exact Hc].
Qed.

Lemma drop_spaces_ascii s :
  Forall (fun c => b2z c < RuneSelf) s ->
  Forall (fun c => b2z c < RuneSelf) (drop_spaces s).
Proof.
  induction 1 as [|c s Hc Hs IH]; cbn [drop_spaces]; [constructor|].
  destruct (asciiSpace (b2z c)); [exact IH | constructor; assumption].
Qed.

Lemma scan_ascii s :
  Forall (fun c => b2z c < RuneSelf) s -> TrimSpace_scan s = inl (drop_spaces s).
Proof.
  induction 1 as [|c s Hc Hs IH]; cbn [TrimSpace_scan drop_spaces]; [reflexivity|].
  destruct (Z.leb_spec RuneSelf (b2z c)); [lia|].
  destruct (asciiSpace (b2z c)); [exact IH | reflexivity].
Qed.

(** On ASCII text [TrimSpace] removes the ASCII spaces at both ends. *)
Lemma TrimSpaceB_ascii s :
  Forall (fun c => b2z c < RuneSelf) s -> TrimSpaceB s = trim_ascii s.
Proof.
  intros H. unfold TrimSpaceB, trim_ascii.
  rewrite (scan_ascii s H).
  rewrite scan_ascii; [reflexivity|].
  apply Forall_rev. apply drop_spaces_ascii. exact H.
Qed.

(** A string between ASCII spaces whose first and last bytes are ASCII
    and not spaces comes out of [TrimSpace] unchanged. *)
Lemma TrimSpaceB_edges pre tok post a t z t' :
  tok = a :: t -> rev tok = z :: t' ->
  Forall is_space_byte pre -> Forall is_space_byte post ->
  is_token_byte a -> is_token_byte z ->
  TrimSpaceB (pre ++ tok ++ post) = tok.
Proof.
  intros Htok Hrev Hpre Hpost Ha Hz. unfold TrimSpaceB.
  rewrite scan_spaces by exact Hpre.
  assert (Hs : TrimSpace_scan (tok ++ post) = inl (tok ++ post)).
  { rewrite Htok. cbn [app]. apply scan_token. exact Ha. }
  rewrite Hs, rev_app_distr.
  rewrite scan_spaces by (apply Forall_rev; exact Hpost).
  rewrite Hrev, scan_token by exact Hz.
  rewrite <- Hrev. apply rev_involutive.
Qed.

End strings_facts.

(* ================================================================== *)
(** * Facts about case folding *)
(* ================================================================== *)

Module fold_facts.
Import utf8 unicode strings utf8_facts.

Lemma lor_ge_l a b : 0 <= b -> a <= Z.lor a b.
Proof.
  intros Hb.
  pose proof (Z.add_lor_land a b) as H1.
  pose proof (Z.sub_land_same_l b a) as H2.
  assert (H3 : 0 <= Z.land b (Z.lnot a)) by (apply Z.land_nonneg; left; exact Hb).
  rewrite (Z.land_comm a b) in H1. lia.
Qed.

Lemma lor_ge_r a b : 0 <= a -> b <= Z.lor a b.
Proof. intros Ha. rewrite Z.lor_comm. apply lor_ge_l. exact Ha. Qed.

Lemma land_mask_nonneg x m : 0 <= m -> 0 <= Z.land x m.
Proof. intros. apply Z.land_nonneg. right. assumption. Qed.

Lemma shiftl_nonneg' x n : 0 <= x -> 0 <= Z.shiftl x n.
Proof. intros. apply Z.shiftl_nonneg. assumption. Qed.

Lemma land_maskx s : Z.land s maskx = s mod 64.
Proof. change maskx with (Z.ones 6). rewrite Z.land_ones by lia. reflexivity. Qed.

Lemma land_mask2 s : Z.land s mask2 = s mod 32.
Proof. change mask2 with (Z.ones 5). rewrite Z.land_ones by lia. reflexivity. Qed.

Lemma land_mask3 s : Z.land s mask3 = s mod 16.
Proof. change mask3 with (Z.ones 4). rewrite Z.land_ones by lia. reflexivity. Qed.

Lemma land_mask4 s : Z.land s mask4 = s mod 8.
Proof. change mask4 with (Z.ones 3). rewrite Z.land_ones by lia. reflexivity. Qed.

Lemma first_Lead b sz lo hi :
  0 <= b < 256 -> first b = Lead sz lo hi ->
  (sz = 2%nat /\ 0xC2 <= b <= 0xDF /\ lo = locb /\ hi = hicb) \/
  (sz = 3%nat /\ 0xE0 <= b <= 0xEF /\ (b = 0xE0 -> lo = 0xA0) /\ hi <= 0xBF) \/
  (sz = 4%nat /\ 0xF0 <= b <= 0xF4 /\ (b = 0xF0 -> lo = 0x90) /\ hi <= 0xBF).
Proof.
  intros Hb. unfold first, locb, hicb.
  repeat match goal with
         | |- context [if ?x <? ?y then _ else _] => destruct (Z.ltb_spec x y)
         | |- context [if ?x =? ?y then _ else _] => destruct (Z.eqb_spec x y)
         end; intros Hlead; try discriminate; injection Hlead; intros; subst; lia.
Qed.

(** A string that starts with a byte outside ASCII starts with a rune
    outside ASCII. *)
Lemma Decode_nonascii c t :
  RuneSelf <= b2z c -> RuneSelf <= fst (DecodeRuneInString (c :: t)).
Proof.
  intros Hc. pose proof (b2z_range c) as Hr. unfold RuneSelf in *.
  unfold DecodeRuneInString.
  destruct (first (b2z c)) as [| |sz lo hi] eqn:Hf.
  - unfold first in Hf. destruct (Z.ltb_spec (b2z c) 128); [lia|].
    repeat match type of Hf with
           | context [if ?x <? ?y then _ else _] => destruct (Z.ltb_spec x y)
           | context [if ?x =? ?y then _ else _] => destruct (Z.eqb_spec x y)
           end; discriminate.
  - cbn. unfold RuneError. lia.
  - apply first_Lead in Hf; [|exact Hr].
    destruct (_ <? _)%nat; [cbn; unfold RuneError; lia|].
    destruct t as [|c1 t1]; [cbn; unfold RuneError; lia|].
    pose proof (b2z_range c1) as Hr1.
    destruct ((lo <=? b2z c1) && (b2z c1 <=? hi)) eqn:H1; cbn [negb];
      [|cbn; unfold RuneError; lia].
    apply andb_true_iff in H1. destruct H1 as [H1 H1']. apply Z.leb_le in H1, H1'.
    destruct Hf as [[-> [Hb _]] | [[-> [Hb [Hlo Hlo']]] | [-> [Hb [Hlo Hlo']]]]].
    + cbn [Nat.leb fst].
      etransitivity; [|apply lor_ge_l; apply land_mask_nonneg; unfold maskx; lia].
      rewrite Z.shiftl_mul_pow2 by lia. rewrite land_mask2.
      change (2 ^ 6) with 64. Z.div_mod_to_equations. lia.
    + cbn [Nat.leb].
      destruct t1 as [|c2 t2]; [cbn; unfold RuneError; lia|].
      destruct (cont (b2z c2)); cbn [negb]; [|cbn; unfold RuneError; lia].
      cbn [fst].
      etransitivity; [|apply lor_ge_l; apply land_mask_nonneg; unfold maskx; lia].
      rewrite !Z.shiftl_mul_pow2 by lia. rewrite land_mask3, land_maskx.
      change (2 ^ 12) with 4096. change (2 ^ 6) with 64.
      destruct (Z.eq_dec (b2z c) 0xE0) as [E|E].
      * specialize (Hlo E). subst lo.
        etransitivity; [|apply lor_ge_r; Z.div_mod_to_equations; lia].
        Z.div_mod_to_equations. lia.
      * etransitivity; [|apply lor_ge_l; Z.div_mod_to_equations; lia].
        Z.div_mod_to_equations. lia.
    + cbn [Nat.leb].
      destruct t1 as [|c2 t2]; [cbn; unfold RuneError; lia|].
      destruct (cont (b2z c2)); cbn [negb]; [|cbn; unfold RuneError; lia].
      destruct t2 as [|c3 t3]; [cbn; unfold RuneError; lia|].
      destruct (cont (b2z c3)); cbn [negb]; [|cbn; unfold RuneError; lia].
      cbn [fst].
      etransitivity; [|apply lor_ge_l; apply land_mask_nonneg; unfold maskx; lia].
      etransitivity; [|apply lor_ge_l; apply shiftl_nonneg'; apply land_mask_nonneg; unfold maskx; lia].
      rewrite !Z.shiftl_mul_pow2 by lia. rewrite land_mask4, land_maskx.
      change (2 ^ 18) with 262144. change (2 ^ 12) with 4096.
      destruct (Z.eq_dec (b2z c) 0xF0) as [E|E].
      * specialize (Hlo E). subst lo.
        etransitivity; [|apply lor_ge_r; Z.div_mod_to_equations; lia].
        Z.div_mod_to_equations. lia.
      * etransitivity; [|apply lor_ge_l; Z.div_mod_to_equations; lia].
        Z.div_mod_to_equations. lia.
Qed.

Lemma lor_lt_128 a b : 0 <= a < 128 -> 0 <= b < 128 -> Z.lor a b < 128.
Proof.
  intros Ha Hb.
  assert (H0 : 0 <= Z.lor a b) by (apply Z.lor_nonneg; lia).
  destruct (Z.eq_dec (Z.lor a b) 0) as [->|Hne]; [lia|].
  change 128 with (2 ^ 7). apply Z.log2_lt_pow2; [lia|].
  rewrite Z.log2_lor by lia.
  assert (La : Z.log2 a < 7).
  { destruct (Z.eq_dec a 0) as [->|]; [cbn; lia|]. apply Z.log2_lt_pow2; lia. }
  assert (Lb : Z.log2 b < 7).
  { destruct (Z.eq_dec b 0) as [->|]; [cbn; lia|]. apply Z.log2_lt_pow2; lia. }
  lia.
Qed.

Ltac zcases :=
  repeat (match goal with
          | |- context [?a <? ?b] => destruct (Z.ltb_spec a b); try lia
          | |- context [?a <=? ?b] => destruct (Z.leb_spec a b); try lia
          | |- context [?a =? ?b] => destruct (Z.eqb_spec a b); try lia
          end; cbn [andb orb negb]).

Lemma letters_of_true d :
  In d (str "true") -> b2z d = 116 \/ b2z d = 114 \/ b2z d = 117 \/ b2z d = 101.
Proof.
  cbn. intros [<-|[<-|[<-|[<-|[]]]]]; vm_compute; auto.
Qed.

Lemma EqualFoldB_ascii_letter orbit c s' d t' :
  b2z c < RuneSelf -> In d (str "true") ->
  EqualFoldB orbit (c :: s') (d :: t') =
  (lowerZ (b2z c) =? b2z d) && EqualFoldB orbit s' t'.
Proof.
  intros Hc Hd. apply letters_of_true in Hd.
  pose proof (b2z_range c) as Hrc. unfold RuneSelf in *.
  cbn [EqualFoldB]. unfold RuneSelf, lowerZ.
  pose proof (lor_lt_128 (b2z c) (b2z d)) as Hlor.
  destruct (Z.leb_spec 128 (Z.lor (b2z c) (b2z d))); [lia|].
  generalize dependent (b2z d). generalize dependent (b2z c). intros x Hx _ l Hl _ _.
  destruct (Z.eqb_spec l x).
  - subst x. zcases. reflexivity.
  - destruct (Z.ltb_spec l x); zcases; reflexivity.
Qed.

Lemma EqualFoldB_unicode_letter orbit c s' d t' :
  RuneSelf <= b2z c -> In d (str "true") ->
  EqualFoldB orbit (c :: s') (d :: t') = false.
Proof.
  intros Hc Hd. apply letters_of_true in Hd.
  pose proof (Decode_nonascii c s' Hc) as Hsr.
  cbn [EqualFoldB].
  assert (Hlor : (RuneSelf <=? Z.lor (b2z c) (b2z d)) = true).
  { apply Z.leb_le. etransitivity; [exact Hc | apply lor_ge_l; lia]. }
  rewrite Hlor. cbn [List.length EqualFold_unicode].
  destruct (DecodeRuneInString (c :: s')) as [sr w]. cbn [fst] in Hsr.
  unfold RuneSelf in *.
  generalize dependent (b2z d). intros l Hl _.
  destruct (Z.ltb_spec l 128); [|lia].
  destruct (Z.eqb_spec l sr); [lia|].
  destruct (Z.ltb_spec l sr); [|lia].
  destruct (Z.ltb_spec sr 128); [lia|].
  assert (Hf1 : SimpleFold orbit l = l - 32).
  { unfold SimpleFold, MaxRune, asciiFold. zcases. }
  assert (Hf2 : SimpleFold orbit (l - 32) = l).
  { unfold SimpleFold, MaxRune, asciiFold. zcases. }
  rewrite Hf1. cbn [fold_loop].
  destruct (Z.eqb_spec (l - 32) l); [lia|].
  destruct (Z.ltb_spec (l - 32) sr); [|lia]. cbn [negb andb].
  rewrite Hf2. rewrite Z.eqb_refl. cbn [negb andb].
  destruct (Z.eqb_spec l sr); [lia|]. reflexivity.
Qed.

(** [strings.EqualFold] against "true" is equality up to the case of
    ASCII letters. *)
Lemma EqualFoldB_true orbit s :
  EqualFoldB orbit s (str "true") =
  if list_eq_dec Z.eq_dec (map (fun c => lowerZ (b2z c)) s)
                          (map (fun c => lowerZ (b2z c)) (str "true"))
  then true else false.
Proof.
  assert (Hstep : forall c s' d t',
             In d (str "true") ->
             EqualFoldB orbit (c :: s') (d :: t') =
             (lowerZ (b2z c) =? b2z d) && EqualFoldB orbit s' t').
  { intros c s' d t' Hd.
    destruct (Z.ltb_spec (b2z c) RuneSelf) as [Hc|Hc].
    - apply EqualFoldB_ascii_letter; assumption.
    - rewrite EqualFoldB_unicode_letter by assumption.
      apply letters_of_true in Hd. unfold lowerZ, RuneSelf in *.
      zcases; reflexivity. }
  change (str "true") with ["t"; "r"; "u"; "e"]%char.
  destruct s as [|c0 [|c1 [|c2 [|c3 [|c4 s]]]]];
    repeat (rewrite Hstep by (cbn; auto)); cbn [EqualFoldB map];
    try rewrite !andb_false_r;
    match goal with
    | |- _ = (if ?d then true else false) => destruct d as [E|E]
    end; try discriminate; try reflexivity.
  - injection E; intros E3 E2 E1 E0. change (b2z "t") with 116. change (b2z "r") with 114.
    change (b2z "u") with 117. change (b2z "e") with 101.
    change (lowerZ (b2z "t")) with 116 in E0. change (lowerZ (b2z "r")) with 114 in E1.
    change (lowerZ (b2z "u")) with 117 in E2. change (lowerZ (b2z "e")) with 101 in E3.
    rewrite E0, E1, E2, E3. reflexivity.
  - change (b2z "t") with 116. change (b2z "r") with 114.
    change (b2z "u") with 117. change (b2z "e") with 101.
    destruct (Z.eqb_spec (lowerZ (b2z c0)) 116) as [E0|]; [|reflexivity].
    destruct (Z.eqb_spec (lowerZ (b2z c1)) 114) as [E1|]; [|reflexivity].
    destruct (Z.eqb_spec (lowerZ (b2z c2)) 117) as [E2|]; [|reflexivity].
    destruct (Z.eqb_spec (lowerZ (b2z c3)) 101) as [E3|]; [|reflexivity].
    exfalso. apply E. cbn [map]. rewrite E0, E1, E2, E3. reflexivity.
Qed.

End fold_facts.

(* ================================================================== *)
(** * The bounds of the loops are large enough *)
(* ================================================================== *)

Module fuel_facts.
Import utf8 unicode strings utf8_facts.

Lemma skipn_shorter (w : nat) (rest : bytes) :
  rest <> [] -> (1 <= w)%nat -> (List.length (skipn w rest) < List.length rest)%nat.
Proof.
  intros Hne Hw. rewrite length_skipn.
  destruct rest; [congruence | cbn [List.length]; lia].
Qed.

(** More fuel than the length of the string changes nothing: the loop
    of [indexFunc] ends by itself. *)
Lemma indexFunc_loop_fuel f truth n :
  forall fuel rest i,
    (List.length rest <= n)%nat -> (n <= fuel)%nat ->
    indexFunc_loop fuel rest i f truth = indexFunc_loop n rest i f truth.
Proof.
  induction n as [|n IH]; intros fuel rest i Hlen Hfuel.
  - destruct rest; [|cbn in Hlen; lia]. destruct fuel; reflexivity.
  - destruct fuel as [|fuel]; [lia|]. cbn [indexFunc_loop].
    destruct rest as [|c t]; [reflexivity|].
    pose proof (Decode_size (c :: t) ltac:(discriminate)) as Hw.
    destruct (DecodeRuneInString (c :: t)) as [r w]. cbn [snd] in Hw.
    destruct (Bool.eqb (f r) truth); [reflexivity|].
    apply IH; [|lia].
    pose proof (skipn_shorter w (c :: t) ltac:(discriminate) ltac:(lia)). lia.
Qed.

Lemma lastIndexFunc_loop_fuel f truth n :
  forall fuel s i,
    (i <= n)%nat -> (n <= fuel)%nat -> (i <= List.length s)%nat ->
    lastIndexFunc_loop fuel s i f truth = lastIndexFunc_loop n s i f truth.
Proof.
  induction n as [|n IH]; intros fuel s i Hi Hfuel Hlen.
  - assert (i = 0%nat) by lia. subst i. destruct fuel; reflexivity.
  - destruct fuel as [|fuel]; [lia|]. cbn [lastIndexFunc_loop].
    destruct (Nat.eqb_spec i 0); [reflexivity|].
    assert (Hl : List.length (firstn i s) = i) by (rewrite length_firstn; lia).
    assert (Hne : firstn i s <> []) by (intros E; rewrite E in Hl; cbn in Hl; lia).
    pose proof (DecodeLast_size _ Hne) as Hsz. rewrite Hl in Hsz.
    destruct (DecodeLastRuneInString (firstn i s)) as [r size]. cbn [snd] in Hsz.
    destruct (Bool.eqb (f r) truth); [reflexivity|].
    apply IH; lia.
Qed.

Lemma HasPrefixB_length s p : HasPrefixB s p = true -> (List.length p <= List.length s)%nat.
Proof.
  revert s. induction p as [|x p IH]; intros s H; [cbn; lia|].
  destruct s as [|c s]; [discriminate|]. cbn in H.
  apply andb_true_iff in H. destruct H as [_ H]. apply IH in H. cbn. lia.
Qed.

Lemma IndexB_bound s sub i :
  IndexB s sub = Some i -> (i + List.length sub <= List.length s)%nat.
Proof.
  revert i. induction s as [|c s IH]; intros i H; cbn [IndexB] in H.
  - destruct (HasPrefixB [] sub) eqn:Hp; [|discriminate].
    injection H; intros <-. apply HasPrefixB_length in Hp. lia.
  - destruct (HasPrefixB (c :: s) sub) eqn:Hp.
    + injection H; intros <-. apply HasPrefixB_length in Hp. lia.
    + destruct (IndexB s sub) as [j|] eqn:Hj; [|discriminate].
      injection H; intros <-. specialize (IH j eq_refl). cbn [List.length]. lia.
Qed.

Lemma Count_loop_fuel sub n :
  sub <> [] ->
  forall fuel s,
    (List.length s < n)%nat -> (n <= fuel)%nat ->
    Count_loop fuel s sub = Count_loop n s sub.
Proof.
  intros Hsub. induction n as [|n IH]; intros fuel s Hlen Hfuel; [lia|].
  destruct fuel as [|fuel]; [lia|]. cbn [Count_loop].
  destruct (IndexB s sub) as [i|] eqn:Hi; [|reflexivity].
  f_equal. apply IH; [|lia].
  apply IndexB_bound in Hi. rewrite length_skipn.
  assert (1 <= List.length sub)%nat by (destruct sub; [congruence | cbn; lia]). lia.
Qed.

Lemma EqualFold_unicode_fuel orbit n :
  forall fuel s t,
    (List.length s <= n)%nat -> (n <= fuel)%nat ->
    EqualFold_unicode orbit fuel s t = EqualFold_unicode orbit n s t.
Proof.
  induction n as [|n IH]; intros fuel s t Hlen Hfuel.
  - destruct s; [|cbn in Hlen; lia]. destruct fuel; reflexivity.
  - destruct fuel as [|fuel]; [lia|]. cbn [EqualFold_unicode].
    destruct s as [|c s']; [reflexivity|].
    pose proof (Decode_size (c :: s') ltac:(discriminate)) as Hw.
    destruct (DecodeRuneInString (c :: s')) as [sr w]. cbn [snd] in Hw.
    pose proof (skipn_shorter w (c :: s') ltac:(discriminate) ltac:(lia)) as Hsk.
    assert (Hrec : forall t', EqualFold_unicode orbit fuel (skipn w (c :: s')) t' =
                              EqualFold_unicode orbit n (skipn w (c :: s')) t').
    { intros t'. apply IH; lia. }
    destruct t as [|t0 t']; [reflexivity|].
    destruct (if b2z t0 <? RuneSelf then _ else _) as [tr t_rest].
    rewrite !Hrec. reflexivity.
Qed.

End fuel_facts.

(* ================================================================== *)
(** * Facts about splitting *)
(* ================================================================== *)

Module split_facts.
Import strings fuel_facts.

Lemma IndexB_cons x s c :
  IndexB (x :: s) [c] = if Ascii.eqb x c then Some 0%nat else option_map S (IndexB s [c]).
Proof.
  cbn [IndexB HasPrefixB].
  destruct (Ascii.eqb x c); cbn [andb]; [destruct s; reflexivity | reflexivity].
Qed.

Lemma IndexB_nil c : IndexB [] [c] = None.
Proof. reflexivity. Qed.

Lemma split_at_first c s :
  match IndexB s [c] with
  | None => split_at c s = [s] /\ count_byte c s = 0%nat
  | Some i =>
    split_at c s = firstn i s :: split_at c (skipn (i + 1) s) /\
    count_byte c s = S (count_byte c (skipn (i + 1) s))
  end.
Proof.
  induction s as [|x s IH]; [cbn; auto|].
  rewrite IndexB_cons. cbn [split_at count_byte].
  destruct (Ascii.eqb x c); [cbn; auto|].
  destruct (IndexB s [c]) as [i|]; cbn [option_map]; destruct IH as [Hs Hc].
  - rewrite Hs. cbn [firstn skipn Nat.add]. auto.
  - rewrite Hs. auto.
Qed.

Lemma Count_loop_count c fuel :
  forall s, (List.length s < fuel)%nat -> Count_loop fuel s [c] = count_byte c s.
Proof.
  induction fuel as [|fuel IH]; intros s Hlen; [lia|].
  cbn [Count_loop]. pose proof (split_at_first c s) as H.
  destruct (IndexB s [c]) as [i|] eqn:Hi; destruct H as [_ Hc]; [|congruence].
  rewrite Hc. f_equal. apply IH.
  apply IndexB_bound in Hi. rewrite length_skipn. cbn [List.length] in *. lia.
Qed.

Lemma genSplit_loop_split c n :
  forall s, (count_byte c s <= n)%nat -> genSplit_loop n s [c] = split_at c s.
Proof.
  induction n as [|n IH]; intros s Hn; pose proof (split_at_first c s) as H.
  - cbn [genSplit_loop]. destruct (IndexB s [c]); destruct H as [Hs Hc]; [lia | congruence].
  - cbn [genSplit_loop]. destruct (IndexB s [c]) as [i|]; destruct H as [Hs Hc];
      [|congruence].
    rewrite Hs. cbn [List.length]. f_equal. apply IH. lia.
Qed.

(** Splitting at a one-byte separator with [strings.Split] cuts the
    string at every occurrence of the byte. *)
Lemma SplitB_split_at c s : SplitB s [c] = split_at c s.
Proof.
  unfold SplitB, CountB. rewrite Count_loop_count by lia.
  apply genSplit_loop_split. lia.
Qed.

Lemma Split_lines s : Split s LF = lines s.
Proof. unfold Split, lines. change (str LF) with ["010"%char]. rewrite SplitB_split_at. reflexivity. Qed.

End split_facts.

(* ================================================================== *)
(** * Facts about strings *)
(* ================================================================== *)

Module string_facts.
Import utf8 unicode strings utf8_facts strings_facts.

Lemma str_gostring b : str (gostring b) = b.
Proof. apply list_ascii_of_string_of_list_ascii. Qed.

Lemma gostring_str s : gostring (str s) = s.
Proof. apply string_of_list_ascii_of_string. Qed.

Lemma str_app a b : str (a ++ b)%string = str a ++ str b.
Proof.
  induction a as [|c a IH]; [reflexivity|].
  cbn. unfold str in IH. rewrite IH. reflexivity.
Qed.

Lemma length_str s : List.length (str s) = String.length s.
Proof.
  induction s as [|c s IH]; [reflexivity|].
  cbn. unfold str in IH. rewrite IH. reflexivity.
Qed.

Lemma str_nil s : str s = [] -> s = EmptyString.
Proof. destruct s; [reflexivity | discriminate]. Qed.

Lemma gostring_nil b : gostring b = EmptyString -> b = [].
Proof. destruct b; [reflexivity | discriminate]. Qed.

Lemma TrimSpace_empty : TrimSpace EmptyString = EmptyString.
Proof. reflexivity. Qed.

(** A non-empty result of [TrimSpace] is not blank. *)
Lemma TrimSpace_not_blank s :
  TrimSpace s <> EmptyString -> blank (TrimSpace s) = false.
Proof.
  unfold TrimSpace, blank, runes. intros Hne.
  rewrite <- length_str, str_gostring.
  destruct (TrimSpaceB_first (str s)) as [E | [Hn Hf]].
  - rewrite E in Hne. exfalso. apply Hne. reflexivity.
  - destruct (TrimSpaceB (str s)) as [|c t]; [congruence|].
    cbn [List.length runes_loop].
    destruct (DecodeRuneInString (c :: t)) as [r w]. cbn [fst] in Hf.
    cbn [forallb]. rewrite Hf. reflexivity.
Qed.

Lemma ascii_spaces_Forall s :
  ascii_spaces s = true -> Forall is_space_byte (str s).
Proof.
  unfold ascii_spaces. intros H. apply Forall_forall. intros c Hc.
  rewrite forallb_forall in H. apply H. exact Hc.
Qed.

Lemma token_byte_spec c : token_byte c = true -> is_token_byte c.
Proof.
  unfold token_byte, is_token_byte. intros H.
  apply andb_true_iff in H. destruct H as [H1 H2].
  apply Z.ltb_lt in H1. apply negb_true_iff in H2. auto.
Qed.

(** A token between runs of ASCII spaces is what [TrimSpace] returns. *)
Lemma TrimSpace_token pre tok post :
  ascii_spaces pre = true -> is_token tok = true -> ascii_spaces post = true ->
  TrimSpace (pre ++ tok ++ post)%string = tok.
Proof.
  intros Hpre Htok Hpost. unfold TrimSpace.
  rewrite !str_app.
  unfold is_token in Htok. apply andb_true_iff in Htok. destruct Htok as [Hne Hall].
  rewrite forallb_forall in Hall.
  destruct (str tok) as [|a t] eqn:Ha.
  { apply str_nil in Ha. subst tok. discriminate. }
  destruct (rev (a :: t)) as [|z t'] eqn:Hz.
  { apply (f_equal (@List.length ascii)) in Hz. rewrite length_rev in Hz. discriminate. }
  rewrite (TrimSpaceB_edges (str pre) (a :: t) (str post) a t z t'); auto.
  - rewrite <- Ha. apply gostring_str.
  - apply ascii_spaces_Forall. exact Hpre.
  - apply ascii_spaces_Forall. exact Hpost.
  - apply token_byte_spec, Hall. left. reflexivity.
  - apply token_byte_spec, Hall. apply in_rev. rewrite Hz. left. reflexivity.
Qed.

Lemma fold_appendTrimmed lines acc :
  fold_left appendTrimmed lines acc =
  acc ++ filter (fun l => negb (String.eqb l EmptyString)) (map TrimSpace lines).
Proof.
  revert acc. induction lines as [|l lines IH]; intros acc; cbn [fold_left map filter].
  - rewrite app_nil_r. reflexivity.
  - rewrite IH. unfold appendTrimmed.
    destruct (negb (String.eqb (TrimSpace l) EmptyString)).
    + rewrite <- app_assoc. reflexivity.
    + reflexivity.
Qed.

Lemma parseContainerIDs_lines output :
  parseContainerIDs output = trimmed_nonempty_lines output.
Proof.
  unfold parseContainerIDs, trimmed_nonempty_lines.
  rewrite fold_appendTrimmed, split_facts.Split_lines. reflexivity.
Qed.

Lemma trimmed_nonempty_lines_not_blank output :
  Forall (fun id => id <> EmptyString /\ blank id = false)
         (trimmed_nonempty_lines output).
Proof.
  unfold trimmed_nonempty_lines. apply Forall_forall. intros id Hid.
  apply filter_In in Hid. destruct Hid as [Hin Hne].
  apply in_map_iff in Hin. destruct Hin as [l [<- _]].
  apply negb_true_iff in Hne. apply String.eqb_neq in Hne.
  split; [exact Hne | apply TrimSpace_not_blank; exact Hne].
Qed.

End string_facts.

(* ================================================================== *)
(** * The container inventory *)
(* ================================================================== *)

Local Open Scope string_scope.

Module inventory_facts.
Import string_facts.

Lemma is_token_app a b :
  is_token a = true -> is_token b = true -> is_token (a ++ b) = true.
Proof.
  unfold is_token. intros Ha Hb.
  apply andb_true_iff in Ha. destruct Ha as [Ha1 Ha2].
  apply andb_true_iff in Hb. destruct Hb as [_ Hb2].
  apply andb_true_iff. split.
  - destruct a; [discriminate | reflexivity].
  - rewrite str_app, forallb_app, Ha2, Hb2. reflexivity.
Qed.

Lemma append_empty_r a : a ++ "" = a.
Proof. induction a; cbn; congruence. Qed.

Lemma address_text_app a b :
  address_text a = true -> address_text b = true -> address_text (a ++ b) = true.
Proof.
  unfold address_text. intros Ha Hb.
  apply orb_true_iff in Ha. apply orb_true_iff in Hb.
  destruct Ha as [Ha|Ha].
  - apply String.eqb_eq in Ha. subst a. cbn [append]. apply orb_true_iff. exact Hb.
  - destruct Hb as [Hb|Hb].
    + apply String.eqb_eq in Hb. subst b.
      rewrite append_empty_r, Ha. apply orb_true_r.
    + rewrite is_token_app by assumption. apply orb_true_r.
Qed.

Lemma address_text_concat l :
  forallb address_text l = true -> address_text (String.concat "" l) = true.
Proof.
  induction l as [|a l IH]; intros H; [reflexivity|].
  cbn [forallb] in H. apply andb_true_iff in H. destruct H as [Ha Hl].
  specialize (IH Hl).
  destruct l as [|b l]; [exact Ha|].
  change (String.concat "" (a :: b :: l)) with (a ++ "" ++ String.concat "" (b :: l)).
  cbn [append]. apply address_text_app; assumption.
Qed.

Lemma forallb_map_comp {A B} (f : B -> bool) (g : A -> B) l :
  forallb f (map g l) = forallb (fun x => f (g x)) l.
Proof. induction l as [|a l IH]; cbn; [reflexivity | rewrite IH; reflexivity]. Qed.

(** The runtime ends its answer with a newline; trimming removes it. *)
Lemma TrimSpace_address s :
  address_text s = true -> strings.TrimSpace (s ++ LF) = s.
Proof.
  unfold address_text. intros H. apply orb_true_iff in H. destruct H as [H|H].
  - apply String.eqb_eq in H. subst s. reflexivity.
  - apply (TrimSpace_token "" s LF); [reflexivity | exact H | reflexivity].
Qed.

End inventory_facts.

(** C2.  Whatever the runtime prints, [getContainerIDs] returns exactly
    the trimmed lines of that output that are not empty, in the order of
    the output; no entry is empty or made of white space only.  The
    output "abc\n\n  \ndef\n" gives ["abc"; "def"]. *)
Theorem getContainerIDs_trimmed_lines :
  forall (os : OS) (all : bool) (w w' : World) (output : string),
    cmd_Output (listCmd all) w = ((output, None), w') ->
    fst (exec (getContainerIDs all) w) = (trimmed_nonempty_lines output, None) /\
    Forall (fun id => id <> "" /\ blank id = false) (trimmed_nonempty_lines output) /\
    parseContainerIDs ("abc" ++ LF ++ LF ++ "  " ++ LF ++ "def" ++ LF) = ["abc"; "def"].
Proof.
  intros os all w w' output H.
  split; [|split].
  - unfold exec, getContainerIDs, bind, Output. cbn [world].
    replace (CommandContext "docker" _) with (listCmd all) by (destruct all; reflexivity).
    rewrite H. unfold ret. cbn [fst].
    rewrite string_facts.parseContainerIDs_lines. reflexivity.
  - apply string_facts.trimmed_nonempty_lines_not_blank.
  - vm_compute. reflexivity.
Qed.

Lemma getContainerIDs_trimmed_lines_witness :
  fst (@exec (queryOS ("abc" ++ LF ++ LF ++ "  " ++ LF ++ "def" ++ LF) false) _
             (@getContainerIDs (queryOS ("abc" ++ LF ++ LF ++ "  " ++ LF ++ "def" ++ LF) false)
                               true) [])
  = (["abc"; "def"], None).
Proof.
  pose proof (getContainerIDs_trimmed_lines
                (queryOS ("abc" ++ LF ++ LF ++ "  " ++ LF ++ "def" ++ LF) false)
                true [] [listCmd true]
                ("abc" ++ LF ++ LF ++ "  " ++ LF ++ "def" ++ LF) eq_refl) as [H _].
  rewrite H. vm_compute. reflexivity.
Defined.

(** C3.  [getContainerIDForNodeName] returns the error of the filter
    command, and so an error exactly when that command fails, with the
    empty string; when the command succeeds and prints nothing it returns
    the empty string and no error; when the command prints one token,
    possibly surrounded by white space, it returns that token. *)
Theorem getContainerIDForNodeName_result :
  forall (os : OS) (nodeName : string) (w w' : World) (output : string)
         (cerr : option error),
    cmd_Output (nodeNameCmd nodeName) w = ((output, cerr), w') ->
    let '(id, err) := fst (exec (getContainerIDForNodeName nodeName) w) in
    err = cerr /\
    (cerr <> None -> id = "") /\
    (cerr = None -> output = "" -> id = "") /\
    (cerr = None ->
     forall pre tok post,
       ascii_spaces pre = true -> is_token tok = true -> ascii_spaces post = true ->
       output = pre ++ tok ++ post -> id = tok).
Proof.
  intros os nodeName w w' output cerr H.
  unfold exec, getContainerIDForNodeName, bind, Output. cbn [world].
  rewrite H. destruct cerr as [e|]; unfold ret; cbn [fst].
  - repeat split; try congruence.
  - repeat split; try congruence.
    + intros _ ->. reflexivity.
    + intros _ pre tok post Hpre Htok Hpost ->.
      apply string_facts.TrimSpace_token; assumption.
Qed.

Lemma getContainerIDForNodeName_result_witness :
  fst (@exec (queryOS ("4f1c2a9b7d3e" ++ LF) false) _
             (@getContainerIDForNodeName (queryOS ("4f1c2a9b7d3e" ++ LF) false) "srl1") [])
  = ("4f1c2a9b7d3e", None).
Proof.
  pose proof (getContainerIDForNodeName_result
                (queryOS ("4f1c2a9b7d3e" ++ LF) false) "srl1" [] [nodeNameCmd "srl1"]
                ("4f1c2a9b7d3e" ++ LF) None eq_refl) as H.
  destruct (fst (@exec (queryOS ("4f1c2a9b7d3e" ++ LF) false) _
                       (@getContainerIDForNodeName (queryOS ("4f1c2a9b7d3e" ++ LF) false)
                                                   "srl1") []))
    as [id err].
  destruct H as [He [_ [_ Htok]]].
  rewrite He.
  rewrite (Htok eq_refl "" "4f1c2a9b7d3e" LF eq_refl eq_refl eq_refl eq_refl).
  reflexivity.
Defined.

(** C6, as the code has it.  [getContainerAddr] returns the error of the
    inspect command, and so an error exactly when it fails, with the
    empty string.  When the command succeeds, the address returned is the
    trimmed output: the addresses of all the networks attached to the
    container, one after the other -- the empty string for a container
    with no network, the address of the network when there is one. *)
Theorem getContainerAddr_result :
  forall (os : OS) (containerID : string) (w w' : World) (output : string)
         (cerr : option error),
    cmd_Output (inspectCmd containerID) w = ((output, cerr), w') ->
    let '(addr, err) := fst (exec (getContainerAddr containerID) w) in
    err = cerr /\
    (cerr <> None -> addr = "") /\
    (cerr = None ->
     forall c : ContainerJSON,
       output = inspect_output c ->
       forallb (fun kv => address_text (IPAddress (snd kv)))
               (Networks (NetworkSettings_ c)) = true ->
       addr = String.concat "" (map (fun kv => IPAddress (snd kv))
                                    (Networks (NetworkSettings_ c))) /\
       (Networks (NetworkSettings_ c) = [] -> addr = "") /\
       (forall kv, Networks (NetworkSettings_ c) = [kv] -> addr = IPAddress (snd kv))).
Proof.
  intros os containerID w w' output cerr H.
  unfold exec, getContainerAddr, bind, Output. cbn [world].
  rewrite H. destruct cerr as [e|]; unfold ret; cbn [fst].
  - repeat split; try congruence.
  - split; [reflexivity|]. split; [congruence|].
    intros _ c Hout Haddr. rewrite Hout. unfold inspect_output, execute_addrFormat.
    split; [|split].
    + apply inventory_facts.TrimSpace_address. apply inventory_facts.address_text_concat.
      rewrite inventory_facts.forallb_map_comp. exact Haddr.
    + intros Hn. rewrite Hn. reflexivity.
    + intros kv Hn. rewrite Hn in *. cbn [map String.concat forallb] in *.
      apply inventory_facts.TrimSpace_address. rewrite andb_true_r in Haddr. exact Haddr.
Qed.

Lemma getContainerAddr_result_witness :
  fst (@exec (inspectOS oneNetwork) _ (@getContainerAddr (inspectOS oneNetwork) "c1") [])
  = ("172.17.0.2", None).
Proof.
  pose proof (getContainerAddr_result
                (inspectOS oneNetwork) "c1" [] [inspectCmd "c1"]
                (inspect_output oneNetwork) None eq_refl) as H.
  destruct (fst (@exec (inspectOS oneNetwork) _
                       (@getContainerAddr (inspectOS oneNetwork) "c1") []))
    as [addr err].
  destruct H as [He [_ Hout]].
  destruct (Hout eq_refl oneNetwork eq_refl eq_refl) as [_ [_ Hone]].
  rewrite He, (Hone ("bridge", mkEndpoint "172.17.0.2") eq_refl).
  reflexivity.
Defined.

(** C6, as the specification words it, fails: with two networks attached
    the address returned is not the address of the first network. *)
Lemma getContainerAddr_first_network_counterexample :
  fst (fst (@exec (inspectOS twoNetworks) _
                  (@getContainerAddr (inspectOS twoNetworks) "c1") []))
    = "172.17.0.210.0.0.5" /\
  first_network_address twoNetworks = "172.17.0.2" /\
  fst (fst (@exec (inspectOS twoNetworks) _
                  (@getContainerAddr (inspectOS twoNetworks) "c1") []))
    <> first_network_address twoNetworks.
Proof.
  split; [vm_compute; reflexivity|]. split; [reflexivity|].
  vm_compute. discriminate.
Qed.

(* ================================================================== *)
(** * The one-shot log dump *)
(* ================================================================== *)

Section PrintLogs.
Context {os : OS}.
Variable logger : Writer.

(** The events of [printContainerLogs]: one command per container, in
    order, each failure followed by its warning. *)
Lemma printContainerLogs_events ids :
  forall st, exists evs,
    trace (snd (printContainerLogs logger ids st)) = (trace st ++ evs)%list /\
    map fst (runs evs) = map (printLogsCmd logger) ids /\
    warnings evs = flat_map warning_of (combine ids (map snd (runs evs))).
Proof.
  induction ids as [|id ids IH]; intros st.
  - exists []. cbn. rewrite app_nil_r. auto.
  - cbn [printContainerLogs]. unfold bind at 1. unfold bind at 1. unfold Run.
    destruct (cmd_Run (printLogsCmd logger id) (world st)) as [res w1].
    destruct res as [e|].
    + unfold Warnf, emit. cbn [trace world].
      match goal with
      | |- context [printContainerLogs logger ids ?s] =>
        destruct (IH s) as [evs [Ht [Hr Hw]]]
      end.
      exists (EvRun (printLogsCmd logger id) (Some e)
               :: EvWarnf printLogsWarning [ArgString id; ArgError (Some e)] :: evs).
      rewrite Ht. cbn [trace]. rewrite <- !app_assoc. cbn [app].
      split; [reflexivity|].
      unfold runs, warnings in *. cbn [flat_map app map fst snd combine].
      rewrite Hr, Hw. unfold warning_of at 2. cbn [fst snd app]. auto.
    + unfold ret.
      match goal with
      | |- context [printContainerLogs logger ids ?s] =>
        destruct (IH s) as [evs [Ht [Hr Hw]]]
      end.
      exists (EvRun (printLogsCmd logger id) None :: evs).
      rewrite Ht. cbn [trace]. rewrite <- !app_assoc. cbn [app].
      split; [reflexivity|].
      unfold runs, warnings in *. cbn [flat_map app map fst snd combine].
      rewrite Hr, Hw. unfold warning_of at 2. cbn [fst snd app]. auto.
Qed.

Lemma warnings_single pre id post e :
  flat_map warning_of
           (combine (pre ++ id :: post)
                    (repeat None (List.length pre) ++ Some e :: repeat None (List.length post)))
  = [(printLogsWarning, [ArgString id; ArgError (Some e)])].
Proof.
  induction pre as [|p pre IH]; cbn.
  - clear. induction post as [|q post IH]; [reflexivity|]. cbn in *. exact IH.
  - exact IH.
Qed.

End PrintLogs.

(** C5.  For every list of identifiers [printContainerLogs] runs the
    fetch-logs command once per identifier, in the order of the list, and
    comes to its end; the warnings are those owed for the commands that
    failed.  When exactly one command fails, exactly one warning is
    emitted, and it carries the identifier of the failing container. *)
Theorem printContainerLogs_all_attempted :
  forall (os : OS) (logger : Writer) (containerIDs : list string) (w : World),
    let tr := trace (snd (exec (printContainerLogs logger containerIDs) w)) in
    map fst (runs tr) = map (printLogsCmd logger) containerIDs /\
    warnings tr = flat_map warning_of (combine containerIDs (map snd (runs tr))) /\
    (forall pre containerID post e,
        containerIDs = (pre ++ containerID :: post)%list ->
        map snd (runs tr) =
          (repeat None (List.length pre) ++ Some e :: repeat None (List.length post))%list ->
        warnings tr = [(printLogsWarning, [ArgString containerID; ArgError (Some e)])]).
Proof.
  intros os logger ids w tr.
  destruct (printContainerLogs_events logger ids (mkState w [])) as [evs [Ht [Hr Hw]]].
  cbn [trace app] in Ht.
  assert (E : tr = evs) by exact Ht. rewrite E.
  split; [exact Hr|]. split; [exact Hw|].
  intros pre id post e -> Hres. rewrite Hw, Hres. apply warnings_single.
Qed.

Lemma printContainerLogs_all_attempted_witness :
  warnings (trace (snd (@exec dumpOS _
                               (@printContainerLogs dumpOS (Sink "log") ["a"; "b"; "c"]) [])))
  = [(printLogsWarning, [ArgString "b"; ArgError (Some exit1)])].
Proof.
  destruct (printContainerLogs_all_attempted dumpOS (Sink "log") ["a"; "b"; "c"] [])
    as [_ [_ H]].
  apply (H ["a"] "b" ["c"] exit1).
  - reflexivity.
  - vm_compute. reflexivity.
Defined.

(* ================================================================== *)
(** * The daemon supervisor *)
(* ================================================================== *)

Section StartDocker.
Context {os : OS}.
Variable M : Z.
Variable logger : Writer.
Hypothesis HM : M < int_max.

Lemma int_wrap_succ a : 0 <= a <= M -> int_wrap (a + 1) = a + 1.
Proof.
  intros Ha. unfold int_wrap, int_max in *.
  rewrite Z.mod_small by lia. lia.
Qed.

(** The loop returns, and what it did is a [loop_run]. *)
Lemma startDocker_loop_run fuel :
  forall a st,
    0 <= a -> (Z.to_nat (M + 1 - a) < fuel)%nat ->
    exists r evs w',
      startDocker_loop M fuel logger a st
        = (Some r, mkState w' (trace st ++ evs)%list) /\
      loop_run M logger a evs r.
Proof.
  induction fuel as [|fuel IH]; intros a st Ha Hfuel; [lia|].
  cbn [startDocker_loop]. unfold bind at 1. unfold Run at 1.
  destruct (cmd_Run (psCmd logger) (world st)) as [res w1].
  destruct res as [e|].
  - destruct (Z.gtb_spec a M) as [Hgt|Hle].
    + unfold ret. do 3 eexists. split; [reflexivity|].
      apply run_exhausted. lia.
    + unfold bind at 1. unfold Run at 1. cbn [world trace].
      destruct (cmd_Run (startCmd logger) w1) as [res2 w2].
      destruct res2 as [e'|].
      * unfold ret. do 3 eexists. rewrite <- app_assoc. split; [reflexivity|].
        apply run_restart_failed. lia.
      * unfold bind at 1. unfold Sleep, emit. cbn [world trace].
        rewrite int_wrap_succ by lia.
        match goal with
        | |- context [startDocker_loop M fuel logger (a + 1) ?s] =>
          destruct (IH (a + 1) s) as [r [evs [w' [Hrun Hlr]]]]; [lia|lia|]
        end.
        rewrite Hrun. cbn [trace]. do 3 eexists.
        rewrite <- !app_assoc. cbn [app]. split; [reflexivity|].
        apply run_retry; [lia | exact Hlr].
  - unfold ret. do 3 eexists. split; [reflexivity|]. apply run_ready.
Qed.

(** [startDocker] always returns. *)
Lemma startDocker_run w :
  exists r st,
    exec (startDocker M logger) w = (Some r, st) /\ loop_run M logger 0 (trace st) r.
Proof.
  unfold exec, startDocker.
  destruct (startDocker_loop_run (S (Z.to_nat (M + 1))) 0 (mkState w []))
    as [r [evs [w' [Hrun Hlr]]]]; [lia | lia |].
  rewrite Hrun. do 2 eexists. split; [reflexivity|]. exact Hlr.
Qed.

Lemma probe_results_probe res evs :
  probe_results (EvRun (psCmd logger) res :: evs) = res :: probe_results evs.
Proof. reflexivity. Qed.

Lemma probe_results_restart res evs :
  probe_results (EvRun (startCmd logger) res :: evs) = probe_results evs.
Proof. reflexivity. Qed.

Lemma probe_results_sleep d evs :
  probe_results (EvSleep d :: evs) = probe_results evs.
Proof. reflexivity. Qed.

Lemma restart_results_probe res evs :
  restart_results (EvRun (psCmd logger) res :: evs) = restart_results evs.
Proof. reflexivity. Qed.

Lemma restart_results_restart res evs :
  restart_results (EvRun (startCmd logger) res :: evs) = res :: restart_results evs.
Proof. reflexivity. Qed.

Lemma restart_results_sleep d evs :
  restart_results (EvSleep d :: evs) = restart_results evs.
Proof. reflexivity. Qed.

Ltac results :=
  rewrite ?probe_results_probe, ?probe_results_restart, ?probe_results_sleep,
          ?restart_results_probe, ?restart_results_restart, ?restart_results_sleep in *;
  change (probe_results []) with (@nil (option error)) in *;
  change (restart_results []) with (@nil (option error)) in *.

(** A successful probe ends the run, successfully. *)
Lemma loop_run_ready a evs r :
  loop_run M logger a evs r ->
  forall k, nth_error (probe_results evs) k = Some None ->
            r = None /\
            List.length (probe_results evs) = S k /\
            restart_results evs = repeat None k /\
            exists pre, evs = (pre ++ [EvRun (psCmd logger) None])%list.
Proof.
  induction 1 as [a | a e Ha | a e e' Ha | a e evs r Ha Hrun IH]; intros k Hk; results.
  - destruct k as [|k]; [|destruct k; discriminate].
    repeat split. exists []. reflexivity.
  - destruct k as [|k]; [discriminate | destruct k; discriminate].
  - destruct k as [|k]; [discriminate | destruct k; discriminate].
  - destruct k as [|k]; [discriminate|]. cbn [nth_error] in Hk.
    destruct (IH k Hk) as [-> [Hlen [Hres [pre ->]]]].
    split; [reflexivity|]. split; [cbn [List.length]; lia|].
    split; [cbn [repeat]; rewrite Hres; reflexivity|].
    eexists (_ :: _ :: _ :: pre). reflexivity.
Qed.

(** A failed restart ends the run with the error of the restart. *)
Lemma loop_run_restart_failed a evs r :
  loop_run M logger a evs r ->
  forall e', In (Some e') (restart_results evs) ->
             r = Some e' /\
             exists pre, evs = (pre ++ [EvRun (startCmd logger) (Some e')])%list.
Proof.
  induction 1 as [a | a e Ha | a e e' Ha | a e evs r Ha Hrun IH]; intros e1 Hin; results.
  - destruct Hin.
  - destruct Hin.
  - destruct Hin as [Hin|[]]. injection Hin; intros ->.
    split; [reflexivity|]. eexists [_]. reflexivity.
  - destruct Hin as [Hin|Hin]; [discriminate|].
    destruct (IH e1 Hin) as [-> [pre ->]].
    split; [reflexivity|]. eexists (_ :: _ :: _ :: pre). reflexivity.
Qed.

(** With no successful probe and no failed restart the run ends at the
    ceiling check. *)
Lemma loop_run_exhausted a evs r :
  loop_run M logger a evs r ->
  Forall (fun res => res <> None) (probe_results evs) ->
  Forall (fun res => res = None) (restart_results evs) ->
  r = Some launchError.
Proof.
  induction 1 as [a | a e Ha | a e e' Ha | a e evs r Ha Hrun IH];
    intros Hp Hr; results.
  - inversion Hp; subst. congruence.
  - reflexivity.
  - inversion Hr; subst. discriminate.
  - inversion Hp; subst. inversion Hr; subst. apply IH; assumption.
Qed.

(** It does so after [M + 2 - a] probes and [M + 1 - a] restarts. *)
Lemma loop_run_exhausted_counts a evs r :
  loop_run M logger a evs r ->
  0 <= a <= M + 1 ->
  Forall (fun res => res <> None) (probe_results evs) ->
  Forall (fun res => res = None) (restart_results evs) ->
  Z.of_nat (List.length (probe_results evs)) = M + 2 - a /\
  Z.of_nat (List.length (restart_results evs)) = M + 1 - a.
Proof.
  induction 1 as [a | a e Ha | a e e' Ha | a e evs r Ha Hrun IH];
    intros Hrange Hp Hr; results.
  - inversion Hp; subst. congruence.
  - cbn [List.length]. split; lia.
  - inversion Hr; subst. discriminate.
  - inversion Hp; subst. inversion Hr; subst.
    destruct IH as [Hlp Hlr]; [lia | assumption | assumption |].
    cbn [List.length]. split; lia.
Qed.

End StartDocker.

Lemma launchError_text : launch_error_with "failed starting docker" launchError.
Proof.
  split; [reflexivity|]. intros txt. unfold launchError, fmt_Errorf.
  cbn [Error]. unfold subst_w.
  change (strings.IndexB (str "%w: failed starting docker") (str "%w")) with (Some 0%nat).
  cbn [firstn app Nat.add].
  change (skipn 2 (str "%w: failed starting docker")) with (str ": failed starting docker").
  rewrite <- string_facts.str_app. apply string_facts.gostring_str.
Qed.

(** C1, as the code has it.  With a ceiling [M >= 0], when no probe
    succeeds (and every restart command runs), [startDocker] returns its
    launch error after [M + 2] probes and [M + 1] restarts: the ceiling
    check [attempts > maxDockerLaunchAttempts] lets one more round
    through than the [M + 1] probes and [M] restarts of the
    specification. *)
Theorem startDocker_never_ready_counts :
  forall (os : OS) (maxDockerLaunchAttempts : Z) (logger : Writer) (w : World),
    0 <= maxDockerLaunchAttempts < int_max ->
    let '(res, st) := exec (startDocker maxDockerLaunchAttempts logger) w in
    Forall (fun res => res <> None) (probe_results (trace st)) ->
    Forall (fun res => res = None) (restart_results (trace st)) ->
    res = Some (Some launchError) /\
    Z.of_nat (List.length (probe_results (trace st))) = maxDockerLaunchAttempts + 2 /\
    Z.of_nat (List.length (restart_results (trace st))) = maxDockerLaunchAttempts + 1.
Proof.
  intros os M logger w [HM0 HM].
  destruct (startDocker_run M logger HM w) as [r [st [-> Hrun]]].
  intros Hp Hr.
  rewrite (loop_run_exhausted M logger 0 _ _ Hrun Hp Hr).
  destruct (loop_run_exhausted_counts M logger 0 _ _ Hrun) as [H1 H2];
    [lia | assumption | assumption |].
  split; [reflexivity|]. split; lia.
Qed.

(** Ceiling 3, a daemon that never answers: five probes, four restarts. *)
Lemma startDocker_never_ready_counts_witness :
  let '(res, st) := @exec deadDaemon _ (@startDocker deadDaemon 3 (Sink "log")) [] in
  res = Some (Some launchError) /\
  List.length (probe_results (trace st)) = 5%nat /\
  List.length (restart_results (trace st)) = 4%nat.
Proof.
  pose proof (startDocker_never_ready_counts deadDaemon 3 (Sink "log") []) as H.
  destruct (@exec deadDaemon _ (@startDocker deadDaemon 3 (Sink "log")) []) as [res st] eqn:E.
  assert (Hst : trace st =
                trace (snd (@exec deadDaemon _ (@startDocker deadDaemon 3 (Sink "log")) [])))
    by (rewrite E; reflexivity).
  destruct H as [H1 [H2 H3]].
  - unfold int_max. lia.
  - rewrite Hst. vm_compute. repeat constructor; discriminate.
  - rewrite Hst. vm_compute. repeat constructor.
  - split; [exact H1|]. split; lia.
Defined.

(** C7, as the code has it.  When [startDocker] runs out of attempts, no
    probe having succeeded, it returns an error that wraps the launch
    sentinel and reads "<sentinel>: failed starting docker". *)
Theorem startDocker_exhausted_error :
  forall (os : OS) (maxDockerLaunchAttempts : Z) (logger : Writer) (w : World),
    maxDockerLaunchAttempts < int_max ->
    let '(res, st) := exec (startDocker maxDockerLaunchAttempts logger) w in
    Forall (fun res => res <> None) (probe_results (trace st)) ->
    Forall (fun res => res = None) (restart_results (trace st)) ->
    exists e, res = Some (Some e) /\ launch_error_with "failed starting docker" e.
Proof.
  intros os M logger w HM.
  destruct (startDocker_run M logger HM w) as [r [st [-> Hrun]]].
  intros Hp Hr.
  rewrite (loop_run_exhausted M logger 0 _ _ Hrun Hp Hr).
  exists launchError. split; [reflexivity | apply launchError_text].
Qed.

Lemma startDocker_exhausted_error_witness :
  exists e,
    fst (@exec deadDaemon _ (@startDocker deadDaemon 3 (Sink "log")) []) = Some (Some e) /\
    launch_error_with "failed starting docker" e.
Proof.
  pose proof (startDocker_exhausted_error deadDaemon 3 (Sink "log") []) as H.
  destruct (@exec deadDaemon _ (@startDocker deadDaemon 3 (Sink "log")) []) as [res st] eqn:E.
  assert (Hst : trace st =
                trace (snd (@exec deadDaemon _ (@startDocker deadDaemon 3 (Sink "log")) [])))
    by (rewrite E; reflexivity).
  apply H.
  - unfold int_max. lia.
  - rewrite Hst. vm_compute. repeat constructor; discriminate.
  - rewrite Hst. vm_compute. repeat constructor.
Defined.

(** C7, as the specification words it, fails: the error returned at the
    ceiling does not read "<sentinel>: daemon did not become ready". *)
Lemma startDocker_exhausted_tag_counterexample :
  ~ (exists e,
        fst (@exec deadDaemon _ (@startDocker deadDaemon 3 (Sink "log")) [])
          = Some (Some e) /\
        launch_error_with "daemon did not become ready" e).
Proof.
  intros [e [He [_ Htxt]]].
  vm_compute in He. injection He; intros <-.
  specialize (Htxt ""). vm_compute in Htxt. discriminate.
Qed.

(** C8.  When the restart command fails, [startDocker] returns the error
    of that command, as it is, and at once: the failed restart is the
    last thing it does. *)
Theorem startDocker_restart_failure_unmodified :
  forall (os : OS) (maxDockerLaunchAttempts : Z) (logger : Writer) (w : World) (e : error),
    maxDockerLaunchAttempts < int_max ->
    let '(res, st) := exec (startDocker maxDockerLaunchAttempts logger) w in
    In (Some e) (restart_results (trace st)) ->
    res = Some (Some e) /\
    exists pre, trace st = (pre ++ [EvRun (startCmd logger) (Some e)])%list.
Proof.
  intros os M logger w e HM.
  destruct (startDocker_run M logger HM w) as [r [st [-> Hrun]]].
  intros Hin.
  destruct (loop_run_restart_failed M logger 0 _ _ Hrun _ Hin) as [-> Hlast].
  split; [reflexivity | exact Hlast].
Qed.

Lemma startDocker_restart_failure_unmodified_witness :
  fst (@exec noServiceManager _ (@startDocker noServiceManager 3 (Sink "log")) [])
  = Some (Some noService).
Proof.
  pose proof (startDocker_restart_failure_unmodified
                noServiceManager 3 (Sink "log") [] noService) as H.
  destruct (@exec noServiceManager _ (@startDocker noServiceManager 3 (Sink "log")) [])
    as [res st] eqn:E.
  assert (Hst : trace st =
                trace (snd (@exec noServiceManager _
                                  (@startDocker noServiceManager 3 (Sink "log")) [])))
    by (rewrite E; reflexivity).
  destruct H as [H _].
  - unfold int_max. lia.
  - rewrite Hst. vm_compute. left. reflexivity.
  - exact H.
Defined.

(** C9.  For every [k] with [1 <= k <= M + 1], when the probe succeeds
    on attempt [k], [startDocker] returns success; [k] probes were made,
    the [k - 1] restart commands before it all ran, and the successful
    probe is the last thing [startDocker] does: no restart follows. *)
Theorem startDocker_ready_on_attempt :
  forall (os : OS) (maxDockerLaunchAttempts : Z) (logger : Writer) (w : World) (k : nat),
    maxDockerLaunchAttempts < int_max ->
    (1 <= k)%nat -> Z.of_nat k <= maxDockerLaunchAttempts + 1 ->
    let '(res, st) := exec (startDocker maxDockerLaunchAttempts logger) w in
    nth_error (probe_results (trace st)) (k - 1) = Some None ->
    res = Some None /\
    List.length (probe_results (trace st)) = k /\
    restart_results (trace st) = repeat None (k - 1) /\
    exists pre, trace st = (pre ++ [EvRun (psCmd logger) None])%list.
Proof.
  intros os M logger w k HM Hk1 Hk2.
  destruct (startDocker_run M logger HM w) as [r [st [-> Hrun]]].
  intros Hnth.
  destruct (loop_run_ready M logger 0 _ _ Hrun _ Hnth) as [-> [Hlen [Hres Hlast]]].
  split; [reflexivity|]. split; [lia|]. split; assumption.
Qed.

Lemma startDocker_ready_on_attempt_witness :
  let '(res, st) := @exec (slowDaemon 3) _ (@startDocker (slowDaemon 3) 3 (Sink "log")) [] in
  res = Some None /\
  List.length (probe_results (trace st)) = 3%nat /\
  restart_results (trace st) = [None; None].
Proof.
  pose proof (startDocker_ready_on_attempt (slowDaemon 3) 3 (Sink "log") [] 3) as H.
  destruct (@exec (slowDaemon 3) _ (@startDocker (slowDaemon 3) 3 (Sink "log")) [])
    as [res st] eqn:E.
  assert (Hst : trace st =
                trace (snd (@exec (slowDaemon 3) _
                                  (@startDocker (slowDaemon 3) 3 (Sink "log")) [])))
    by (rewrite E; reflexivity).
  destruct H as [H1 [H2 [H3 _]]].
  - unfold int_max. lia.
  - lia.
  - lia.
  - rewrite Hst. vm_compute. reflexivity.
  - split; [exact H1|]. split; [exact H2 | exact H3].
Defined.

(* ================================================================== *)
(** * The daemon configuration *)
(* ================================================================== *)

(** Against the text "true", [strings.EqualFold] is equality up to the
    case of ASCII letters. *)
Lemma EqualFold_true orbit s :
  strings.EqualFold orbit s clabernetesconstants_True = equal_ignoring_case s "true".
Proof.
  unfold strings.EqualFold, equal_ignoring_case, clabernetesconstants_True.
  apply fold_facts.EqualFoldB_true.
Qed.

(** C10.  With an empty insecure-registries variable
    [handleInsecureRegistries] returns success and does nothing: nothing
    is rendered, nothing is written.  With a non-empty one, and the
    template at hand, the configuration is rendered once, with the
    storage driver "vfs" exactly when the privileged-mode variable equals
    "true" up to case and with "overlay2" otherwise, and with the quoted
    registries; the rendering is written to the daemon configuration
    file with the permission constant, by one call of [os.WriteFile]
    whose result is the result of the function and whose world is the
    world it leaves; when the template cannot be executed its error is
    returned and nothing is written.  When the template cannot be parsed
    the error is returned and nothing is done. *)
Theorem handleInsecureRegistries_storage_driver :
  forall (os : OS) (LauncherInsecureRegistries LauncherPrivilegedEnv : string)
         (perm : Z) (w : World),
    let registries := os_Getenv LauncherInsecureRegistries w in
    let privileged := os_Getenv LauncherPrivilegedEnv w in
    let '(res, st) :=
      exec (handleInsecureRegistries LauncherInsecureRegistries LauncherPrivilegedEnv perm) w in
    (registries = "" -> res = None /\ trace st = [] /\ world st = w) /\
    (registries <> "" ->
     forall t, template_ParseFS templateName = inl t ->
       exists vars,
         executions (trace st) = [vars] /\
         StorageDriver vars =
           (if equal_ignoring_case privileged "true" then "vfs" else "overlay2") /\
         (StorageDriver vars = "vfs" <-> equal_ignoring_case privileged "true" = true) /\
         (forall name data, In (name, data) (writes (trace st)) ->
                            name = dockerDaemonConfig /\ template_Execute t vars = inl data) /\
         InsecureRegistries vars =
           strings.Join (map fmt_Sprintf_q (strings.Split registries ",")) "," /\
         match template_Execute t vars with
         | inl data =>
           trace st = [EvExecute vars (inl data);
                       EvWriteFile dockerDaemonConfig data perm res] /\
           writes (trace st) = [(dockerDaemonConfig, data)] /\
           (res, world st) = os_WriteFile dockerDaemonConfig data perm w
         | inr err =>
           res = Some err /\ trace st = [EvExecute vars (inr err)] /\ world st = w
         end) /\
    (registries <> "" ->
     forall err, template_ParseFS templateName = inr err ->
       res = Some err /\ trace st = [] /\ world st = w).
Proof.
  intros os LIR LPE perm w. cbv zeta.
  unfold exec, handleInsecureRegistries, bind, Getenv. cbn [world].
  set (registries := os_Getenv LIR w). set (privileged := os_Getenv LPE w).
  destruct (String.eqb_spec registries "") as [E|E].
  - unfold ret. cbv beta iota. split; [auto|]. split; congruence.
  - rewrite EqualFold_true. fold templateName.
    destruct (template_ParseFS templateName) as [t|err] eqn:Hparse.
    + unfold emit, WriteFile. cbn [world trace app].
      match goal with
      | |- context [template_Execute t ?v] => set (vars := v)
      end.
      assert (Hdrv : StorageDriver vars =
                     (if equal_ignoring_case privileged "true" then "vfs" else "overlay2")).
      { subst vars. unfold privileged.
        destruct (equal_ignoring_case (os_Getenv LPE w) "true"); reflexivity. }
      assert (Hiff : StorageDriver vars = "vfs" <->
                     equal_ignoring_case privileged "true" = true).
      { rewrite Hdrv. destruct (equal_ignoring_case privileged "true");
          split; intros; try reflexivity; discriminate. }
      assert (Hregs : InsecureRegistries vars =
                      strings.Join (map fmt_Sprintf_q (strings.Split registries ",")) ",").
      { subst vars. destruct (negb _); reflexivity. }
      destruct (template_Execute t vars) as [data|err] eqn:Hexec.
      * cbn [world trace app].
        destruct (os_WriteFile dockerDaemonConfig data perm w) as [werr w'] eqn:Hwrite.
        destruct werr; unfold ret; cbv beta iota; cbn [trace world];
          (split; [congruence|]); (split; [|intros _ err' Herr'; discriminate]);
          intros _ t' Ht';
          (assert (t' = t) by congruence; subst t');
          exists vars;
          (split; [reflexivity|]); (split; [exact Hdrv|]); (split; [exact Hiff|]);
          (split; [intros name d [Hin|[]]; injection Hin; intros <- <-; auto|]);
          (split; [exact Hregs|]);
          rewrite Hexec; (split; [reflexivity|]); (split; [reflexivity|]);
          symmetry; exact Hwrite.
      * unfold ret. cbv beta iota. cbn [trace world].
        split; [congruence|]. split; [|intros _ err' Herr'; discriminate].
        intros _ t' Ht'. assert (t' = t) by congruence. subst t'.
        exists vars.
        split; [reflexivity|]. split; [exact Hdrv|]. split; [exact Hiff|].
        split; [intros name d []|]. split; [exact Hregs|].
        rewrite Hexec. repeat split; reflexivity.
    + unfold ret. cbv beta iota. cbn [trace world]. split; [congruence|].
      split; [intros _ t Ht; discriminate|].
      intros _ err' Herr'. injection Herr' as <-. auto.
Qed.

(** The rendering of the table environment for a storage driver and the
    registries "reg1:5000,reg2", and what the function did there. *)
Lemma handleInsecureRegistries_storage_driver_witness :
  (exists vars,
      executions (trace (snd (@exec (registriesOS "reg1:5000,reg2" "TRUE") _
         (@handleInsecureRegistries (registriesOS "reg1:5000,reg2" "TRUE")
            "LAUNCHER_INSECURE_REGISTRIES" "LAUNCHER_PRIVILEGED" 493) []))) = [vars] /\
      StorageDriver vars = "vfs") /\
  (exists vars,
      executions (trace (snd (@exec (registriesOS "reg1:5000,reg2" "false") _
         (@handleInsecureRegistries (registriesOS "reg1:5000,reg2" "false")
            "LAUNCHER_INSECURE_REGISTRIES" "LAUNCHER_PRIVILEGED" 493) []))) = [vars] /\
      StorageDriver vars = "overlay2") /\
  @exec (registriesOS "" "true") _
        (@handleInsecureRegistries (registriesOS "" "true")
           "LAUNCHER_INSECURE_REGISTRIES" "LAUNCHER_PRIVILEGED" 493) []
  = (None, @mkState (registriesOS "" "true") [] []) /\
  (let '(res, st) :=
     @exec (registriesOS "reg1:5000,reg2" "TRUE") _
        (@handleInsecureRegistries (registriesOS "reg1:5000,reg2" "TRUE")
           "LAUNCHER_INSECURE_REGISTRIES" "LAUNCHER_PRIVILEGED" 493) [] in
   res = None /\
   writes (trace st) =
     [(dockerDaemonConfig,
       "{storage-driver: vfs, insecure-registries: ["
         ++ quote ++ "reg1:5000" ++ quote ++ "," ++ quote ++ "reg2" ++ quote ++ "]}")]) /\
  (let '(res, st) :=
     @exec (registriesOS "reg1:5000,reg2" "false") _
        (@handleInsecureRegistries (registriesOS "reg1:5000,reg2" "false")
           "LAUNCHER_INSECURE_REGISTRIES" "LAUNCHER_PRIVILEGED" 493) [] in
   res = None /\
   writes (trace st) =
     [(dockerDaemonConfig,
       "{storage-driver: overlay2, insecure-registries: ["
         ++ quote ++ "reg1:5000" ++ quote ++ "," ++ quote ++ "reg2" ++ quote ++ "]}")]).
Proof.
  split; [|split; [|split; [|split]]].
  - pose proof (handleInsecureRegistries_storage_driver
                  (registriesOS "reg1:5000,reg2" "TRUE")
                  "LAUNCHER_INSECURE_REGISTRIES" "LAUNCHER_PRIVILEGED" 493 []) as H.
    cbv zeta in H.
    destruct (@exec (registriesOS "reg1:5000,reg2" "TRUE") _ _ []) as [res st].
    destruct H as [_ [H _]].
    destruct (H ltac:(vm_compute; discriminate) tt eq_refl) as [vars [H1 [H2 _]]].
    exists vars. split; [exact H1 | exact H2].
  - pose proof (handleInsecureRegistries_storage_driver
                  (registriesOS "reg1:5000,reg2" "false")
                  "LAUNCHER_INSECURE_REGISTRIES" "LAUNCHER_PRIVILEGED" 493 []) as H.
    cbv zeta in H.
    destruct (@exec (registriesOS "reg1:5000,reg2" "false") _ _ []) as [res st].
    destruct H as [_ [H _]].
    destruct (H ltac:(vm_compute; discriminate) tt eq_refl) as [vars [H1 [H2 _]]].
    exists vars. split; [exact H1 | exact H2].
  - pose proof (handleInsecureRegistries_storage_driver
                  (registriesOS "" "true")
                  "LAUNCHER_INSECURE_REGISTRIES" "LAUNCHER_PRIVILEGED" 493 []) as H.
    cbv zeta in H.
    destruct (@exec (registriesOS "" "true") _ _ []) as [res [wd tr]].
    destruct H as [H _].
    destruct (H eq_refl) as [-> [Htr Hw]]. cbn [trace world] in *. subst. reflexivity.
  - pose proof (handleInsecureRegistries_storage_driver
                  (registriesOS "reg1:5000,reg2" "TRUE")
                  "LAUNCHER_INSECURE_REGISTRIES" "LAUNCHER_PRIVILEGED" 493 []) as H.
    cbv zeta in H.
    destruct (@exec (registriesOS "reg1:5000,reg2" "TRUE") _ _ []) as [res st].
    destruct H as [_ [H _]].
    destruct (H ltac:(vm_compute; discriminate) tt eq_refl)
      as [[driver regs] [_ [H2 [_ [_ [H3 H4]]]]]].
    cbn [StorageDriver InsecureRegistries] in H2, H3.
    vm_compute in H2. vm_compute in H3. subst driver regs.
    cbn [template_Execute registriesOS tableOS StorageDriver InsecureRegistries] in H4.
    destruct H4 as [_ [Hwrites Hres]].
    cbn [os_WriteFile registriesOS tableOS] in Hres.
    split; [congruence|]. rewrite Hwrites. vm_compute. reflexivity.
  - pose proof (handleInsecureRegistries_storage_driver
                  (registriesOS "reg1:5000,reg2" "false")
                  "LAUNCHER_INSECURE_REGISTRIES" "LAUNCHER_PRIVILEGED" 493 []) as H.
    cbv zeta in H.
    destruct (@exec (registriesOS "reg1:5000,reg2" "false") _ _ []) as [res st].
    destruct H as [_ [H _]].
    destruct (H ltac:(vm_compute; discriminate) tt eq_refl)
      as [[driver regs] [_ [H2 [_ [_ [H3 H4]]]]]].
    cbn [StorageDriver InsecureRegistries] in H2, H3.
    vm_compute in H2. vm_compute in H3. subst driver regs.
    cbn [template_Execute registriesOS tableOS StorageDriver InsecureRegistries] in H4.
    destruct H4 as [_ [Hwrites Hres]].
    cbn [os_WriteFile registriesOS tableOS] in Hres.
    split; [congruence|]. rewrite Hwrites. vm_compute. reflexivity.
Defined.

(* ================================================================== *)
(** * The log follower and its goroutines *)
(* ================================================================== *)

Module Tail_facts.
Import Tail.
Section Tail_facts.
Context {os : OS}.
Variable nodeLogger : Writer.
Variable containerIDs : list string.
Variable w : World.

Lemma caller_inv_step t ts :
  caller_inv w ts -> caller_inv w (step nodeLogger containerIDs t ts).
Proof.
  unfold caller_inv. intros H. destruct t as [|k]; cbn [step].
  - unfold step_main. destruct (t_main ts) as [| |rest wr|r] eqn:Hm.
    + destruct H as [Hst Hpool]. unfold Create. rewrite Hst. cbn [world trace].
      destruct (os_Create "node.log" w) as [res w']. cbn. auto.
    + destruct H as [Herr Hpool]. destruct (t_err ts) as [e|]; cbn; auto.
    + destruct rest; cbn; auto.
    + rewrite Hm. exact H.
  - destruct (nth_error (t_pool ts) k) as [g|] eqn:Hg; [|exact H].
    destruct (t_main ts) as [| |rest wr|r] eqn:Hm.
    + destruct H as [_ Hpool]. rewrite Hpool in Hg. destruct k; discriminate.
    + destruct H as [_ Hpool]. rewrite Hpool in Hg. destruct k; discriminate.
    + unfold step_goroutine.
      destruct (g_pc g); cbn; try rewrite Hm; try exact H.
      unfold Run. destruct (cmd_Run _ _). cbn. try rewrite Hm. exact H.
    + unfold step_goroutine.
      destruct (g_pc g); cbn; try rewrite Hm; try exact H.
      unfold Run. destruct (cmd_Run _ _). cbn. try rewrite Hm. exact H.
Qed.

Lemma caller_inv_run sched :
  forall ts, caller_inv w ts -> caller_inv w (run nodeLogger containerIDs sched ts).
Proof.
  induction sched as [|t sched IH]; intros ts H; [exact H|].
  cbn [run fold_left]. apply IH. apply caller_inv_step. exact H.
Qed.

(** Under every schedule, what [tailContainerLogs] returns is the result
    of [os.Create]: an error if and only if the file cannot be created,
    and never the failure of a goroutine. *)
Lemma tailContainerLogs_returns_create_error sched r :
  t_main (tailContainerLogs nodeLogger containerIDs sched w) = MReturned r ->
  r = fst (os_Create "node.log" w).
Proof.
  intros H.
  assert (Hinv : caller_inv w (tailContainerLogs nodeLogger containerIDs sched w)).
  { apply caller_inv_run. cbn. auto. }
  unfold caller_inv in Hinv. rewrite H in Hinv. exact Hinv.
Qed.

Lemma run_cons t sched ts :
  run nodeLogger containerIDs (t :: sched) ts =
  run nodeLogger containerIDs sched (step nodeLogger containerIDs t ts).
Proof. reflexivity. Qed.

Lemma run_returned n r err pool st :
  run nodeLogger containerIDs (repeat TMain n) (mkTailState (MReturned r) err pool st) =
  mkTailState (MReturned r) err pool st.
Proof.
  induction n as [|n IH]; [reflexivity|].
  cbn [repeat]. rewrite run_cons. exact IH.
Qed.

Lemma range_run nodeOutWriter rest :
  forall err pool st,
    run nodeLogger containerIDs (repeat TMain (S (List.length rest)))
        (mkTailState (MRange rest nodeOutWriter) err pool st) =
    mkTailState (MReturned None) err
                (pool ++ map (fun id => mkGoroutine id nodeOutWriter GRun) rest)%list st.
Proof.
  induction rest as [|id rest IH]; intros err pool st.
  - cbn [List.length repeat map]. rewrite run_cons, app_nil_r. reflexivity.
  - change (repeat TMain (S (List.length (id :: rest))))
      with (TMain :: repeat TMain (S (List.length rest))).
    rewrite run_cons.
    cbn [step step_main t_main t_err t_pool t_state].
    rewrite IH. cbn [map]. rewrite <- app_assoc. reflexivity.
Qed.

(** Run alone, the caller returns after [len(containerIDs) + 3] steps:
    with the error of [os.Create], or else with [nil], one goroutine per
    container started, in order, and none of them begun. *)
Lemma tailContainerLogs_returns_at_once :
  tailContainerLogs nodeLogger containerIDs
                    (repeat TMain (3 + List.length containerIDs)) w =
  match os_Create "node.log" w with
  | (Some e, w') =>
    mkTailState (MReturned (Some e)) (Some e) []
                (mkState w' [EvCreate "node.log" (Some e)])
  | (None, w') =>
    mkTailState (MReturned None) None
                (map (fun id => mkGoroutine id (MultiWriter nodeLogger (FileWriter "node.log"))
                                            GRun) containerIDs)
                (mkState w' [EvCreate "node.log" None])
  end.
Proof.
  unfold tailContainerLogs, init.
  change (repeat TMain (3 + List.length containerIDs))
    with (TMain :: TMain :: repeat TMain (S (List.length containerIDs))).
  rewrite !run_cons.
  cbn [step step_main t_main t_err t_pool t_state].
  unfold Create. cbn [world trace app].
  destruct (os_Create "node.log" w) as [[e|] w'];
    cbn [step_main t_main t_err t_pool t_state].
  - apply run_returned.
  - rewrite range_run. reflexivity.
Qed.

End Tail_facts.
End Tail_facts.

(** C4, where the code departs from it.  Two containers, "a" and "b";
    the follow command of "a" fails, that of "b" succeeds.  Under the
    schedule [overwritten] the caller has returned [nil], both goroutines
    have finished, and no warning at all was emitted: goroutine "b" has
    assigned [nil] to the shared [err] between the assignment and the
    test of goroutine "a". *)
Lemma tailContainerLogs_failure_unreported :
  let ts := @Tail.tailContainerLogs tailOS (Sink "node") ["a"; "b"] overwritten [] in
  Tail.t_main ts = Tail.MReturned None /\
  Tail.all_done ts = true /\
  runs (trace (Tail.t_state ts)) =
    [(@Tail.tailLogsCmd tailWriter "a", Some exit1);
     (@Tail.tailLogsCmd tailWriter "b", None)] /\
  warnings (trace (Tail.t_state ts)) = [].
Proof. vm_compute. auto. Qed.

(** Under the schedule [misattributed] goroutine "b", whose command
    succeeded, reads the failure of "a" in [err] and emits a warning
    under its own identifier. *)
Lemma tailContainerLogs_failure_misattributed :
  let ts := @Tail.tailContainerLogs tailOS (Sink "node") ["a"; "b"] misattributed [] in
  Tail.t_main ts = Tail.MReturned None /\
  Tail.all_done ts = true /\
  runs (trace (Tail.t_state ts)) =
    [(@Tail.tailLogsCmd tailWriter "a", Some exit1);
     (@Tail.tailLogsCmd tailWriter "b", None)] /\
  warnings (trace (Tail.t_state ts)) =
    [(Tail.tailLogsWarning, [ArgString "b"; ArgError (Some exit1)]);
     (Tail.tailLogsWarning, [ArgString "a"; ArgError (Some exit1)])].
Proof. vm_compute. auto. Qed.

(* ================================================================== *)
(** * Further facts: trimming *)
(* ================================================================== *)

Local Close Scope string_scope.

Module trim_facts.
Import utf8 unicode strings utf8_facts strings_facts.

Lemma first_Lead_range b sz lo hi :
  first b = Lead sz lo hi -> 0x80 <= lo /\ hi <= 0xBF /\ (2 <= sz)%nat.
Proof.
  unfold first, locb, hicb.
  repeat match goal with
         | |- context [if ?x <? ?y then _ else _] => destruct (Z.ltb_spec x y)
         | |- context [if ?x =? ?y then _ else _] => destruct (Z.eqb_spec x y)
         end; intros Hlead; try discriminate; injection Hlead; intros; subst; lia.
Qed.

Lemma first_AS b : first b = AS -> b < RuneSelf.
Proof.
  unfold first, RuneSelf.
  repeat match goal with
         | |- context [if ?x <? ?y then _ else _] => destruct (Z.ltb_spec x y)
         | |- context [if ?x =? ?y then _ else _] => destruct (Z.eqb_spec x y)
         end; intros Hf; try discriminate; lia.
Qed.

Lemma first_cont b : cont b = true -> first b = XX.
Proof.
  unfold cont, first, locb, hicb. intros H.
  apply andb_true_iff in H. destruct H as [H1 H2].
  apply Z.leb_le in H1, H2.
  destruct (Z.ltb_spec b 128); [lia|].
  destruct (Z.ltb_spec b 194); [reflexivity | lia].
Qed.

(** A byte outside ASCII that is not followed by a continuation byte is a
    rune of width one. *)
Lemma Decode_width_one c rest :
  RuneSelf <= b2z c ->
  (rest = [] \/ cont (b2z (hd zero rest)) = false) ->
  snd (DecodeRuneInString (c :: rest)) = 1%nat.
Proof.
  intros Hc Hrest. unfold DecodeRuneInString.
  destruct (first (b2z c)) as [| |sz lo hi] eqn:Hf.
  - apply first_AS in Hf. lia.
  - reflexivity.
  - apply first_Lead_range in Hf. destruct Hf as [Hlo [Hhi Hsz]].
    destruct (_ <? _)%nat; [reflexivity|].
    destruct rest as [|c1 t1]; [reflexivity|].
    destruct Hrest as [Hrest|Hrest]; [discriminate|]. cbn [hd] in Hrest.
    unfold cont, locb, hicb in Hrest.
    assert (Hr : (lo <=? b2z c1) && (b2z c1 <=? hi) = false).
    { apply andb_false_iff in Hrest. apply andb_false_iff.
      destruct Hrest as [H|H]; [left|right]; apply Z.leb_gt in H; apply Z.leb_gt; lia. }
    rewrite Hr. reflexivity.
Qed.

(** A full-width decoding of two bytes or more is a valid encoding, and
    stays what it is whatever follows. *)
Lemma Decode_app_wide u rest r :
  DecodeRuneInString u = (r, List.length u) -> (2 <= List.length u)%nat ->
  DecodeRuneInString (u ++ rest) = (r, List.length u).
Proof.
  intros H Hr.
  destruct u as [|c0 [|c1 [|c2 [|c3 [|c4 u]]]]];
    cbn [app List.length] in *; unfold DecodeRuneInString in *;
    split_decode; ltb_facts; cbn [List.length] in *;
    try congruence; try lia;
    try (injection H; intros; subst; congruence);
    try (injection H; intros; lia).
Qed.

(** The first byte of a decoded rune other than [RuneError] is not a
    continuation byte. *)
Lemma Decode_start c t :
  fst (DecodeRuneInString (c :: t)) <> RuneError -> cont (b2z c) = false.
Proof.
  intros H. destruct (cont (b2z c)) eqn:Hc; [|reflexivity].
  apply first_cont in Hc. unfold DecodeRuneInString in H. rewrite Hc in H.
  cbn in H. congruence.
Qed.

Lemma at_firstn u i k :
  (k < i)%nat -> at_ (firstn i u) (Z.of_nat k) = at_ u (Z.of_nat k).
Proof.
  intros H. unfold at_. rewrite Nat2Z.id. f_equal.
  rewrite nth_firstn. destruct (Nat.ltb_spec k i); [reflexivity | lia].
Qed.

Lemma skipn_cons_nth u k :
  (k < List.length u)%nat -> skipn k u = nth k u zero :: skipn (S k) u.
Proof.
  revert k. induction u as [|x u IH]; intros k H; [cbn in H; lia|].
  destruct k as [|k]; [reflexivity|]. cbn [skipn nth]. apply IH. cbn in H. lia.
Qed.

Lemma slice_firstn u i start :
  (start <= i)%nat -> (i <= List.length u)%nat ->
  slice (firstn i u) start i = firstn (i - start) (skipn start u).
Proof.
  intros Hs Hi. unfold slice.
  rewrite skipn_firstn_comm. rewrite firstn_firstn, Nat.min_id. reflexivity.
Qed.

(** What [DecodeLastRuneInString] finds at the end of [u[0:i]], seen from
    the left: the rune that [u[k:]] starts with, [k] being where the rune
    found begins, ends at [i]. *)
Lemma DecodeLast_forward u i r size :
  (1 <= i <= List.length u)%nat -> boundary u i ->
  DecodeLastRuneInString (firstn i u) = (r, size) ->
  (1 <= size <= i)%nat /\
  (if RuneSelf <=? at_ u (Z.of_nat (i - size))
   then (i - size + snd (DecodeRuneInString (skipn (i - size) u)))%nat
   else (i - size + 1)%nat) = i.
Proof.
  intros Hi Hb Hd.
  assert (Hlen : List.length (firstn i u) = i) by (rewrite length_firstn; lia).
  assert (Hne : firstn i u <> []) by (intros E; rewrite E in Hlen; cbn in Hlen; lia).
  pose proof (DecodeLast_size _ Hne) as Hsz. rewrite Hd, Hlen in Hsz. cbn [snd] in Hsz.
  split; [exact Hsz|].
  (* the byte before position i *)
  assert (Hlast : at_ (firstn i u) (Z.of_nat i - 1) = at_ u (Z.of_nat (i - 1))).
  { replace (Z.of_nat i - 1) with (Z.of_nat (i - 1)) by lia. apply at_firstn. lia. }
  (* a byte outside ASCII just before i has width one *)
  assert (Hone : RuneSelf <= at_ u (Z.of_nat (i - 1)) ->
                 snd (DecodeRuneInString (skipn (i - 1) u)) = 1%nat).
  { intros Hge. rewrite (skipn_cons_nth u (i - 1)) by lia.
    apply Decode_width_one.
    - unfold at_ in Hge. rewrite Nat2Z.id in Hge. exact Hge.
    - replace (S (i - 1)) with i by lia.
      destruct Hb as [Hb|Hb].
      + left. rewrite Hb. apply skipn_all.
      + destruct (Nat.eq_dec i (List.length u)) as [E|E];
          [left; rewrite E; apply skipn_all|].
        right. rewrite (skipn_cons_nth u i) by lia. exact Hb. }
  unfold DecodeLastRuneInString in Hd. rewrite Hlen in Hd.
  destruct (Z.eqb_spec (Z.of_nat i) 0); [lia|].
  rewrite Hlast in Hd.
  destruct (Z.ltb_spec (at_ u (Z.of_nat (i - 1))) RuneSelf) as [Hlt|Hge].
  - injection Hd; intros <- _.
    destruct (Z.leb_spec RuneSelf (at_ u (Z.of_nat (i - 1)))); lia.
  - specialize (Hone Hge).
    set (lb := lookback _ _ _) in Hd.
    assert (Hlb : lb <= Z.of_nat i - 1 - 1) by apply lookback_le.
    set (start := Z.to_nat (Z.max 0 lb)) in *.
    assert (Hstart : (start <= i - 1)%nat) by lia.
    fold start in Hd. rewrite slice_firstn in Hd by lia.
    destruct (DecodeRuneInString (firstn (i - start) (skipn start u))) as [r' size'] eqn:Hdec.
    destruct (Z.eqb_spec (Z.max 0 lb + Z.of_nat size') (Z.of_nat i)) as [E|E];
      cbn [negb] in Hd; injection Hd; intros <- <-.
    + assert (Hk : (i - size' = start)%nat) by lia.
      assert (Hsize : size' = (i - start)%nat) by lia.
      rewrite Hk.
      assert (Hfl : List.length (firstn (i - start) (skipn start u)) = (i - start)%nat).
      { rewrite length_firstn, length_skipn. lia. }
      destruct (Nat.le_gt_cases 2 size') as [Hwide|Hnarrow].
      * assert (Hfull : DecodeRuneInString (skipn start u) = (r', size')).
        { pose proof (Decode_app_wide (firstn (i - start) (skipn start u))
                                      (skipn (i - start) (skipn start u)) r') as Hw.
          rewrite Hfl, firstn_skipn, <- Hsize in Hw.
          apply Hw; [|lia].
          replace (firstn size' (skipn start u))
            with (firstn (i - start) (skipn start u)) by (f_equal; lia).
          exact Hdec. }
        rewrite Hfull. cbn [snd].
        destruct (Z.leb_spec RuneSelf (at_ u (Z.of_nat start))) as [_|Hascii]; [lia|].
        exfalso.
        rewrite (skipn_cons_nth u start) in Hfull by lia.
        rewrite Decode_ascii in Hfull.
        -- injection Hfull; intros. lia.
        -- unfold at_ in Hascii. rewrite Nat2Z.id in Hascii. exact Hascii.
      * assert (Hs1 : start = (i - 1)%nat) by lia.
        rewrite Hs1 in *.
        destruct (Z.leb_spec RuneSelf (at_ u (Z.of_nat (i - 1)))); [|lia].
        rewrite Hone. lia.
    + replace (i - 1)%nat with (i - 1)%nat by reflexivity.
      destruct (Z.leb_spec RuneSelf (at_ u (Z.of_nat (i - 1)))); [|lia].
      rewrite Hone. lia.
Qed.

(** The rune found from the end, when it is a space, starts at a
    boundary. *)
Lemma DecodeLast_space_boundary u i r size :
  (1 <= i <= List.length u)%nat ->
  DecodeLastRuneInString (firstn i u) = (r, size) ->
  IsSpace r = true ->
  boundary u (i - size).
Proof.
  intros Hi Hd Hr.
  assert (Hlen : List.length (firstn i u) = i) by (rewrite length_firstn; lia).
  assert (Hne : firstn i u <> []) by (intros E; rewrite E in Hlen; cbn in Hlen; lia).
  pose proof (DecodeLast_size _ Hne) as Hsz. rewrite Hd, Hlen in Hsz. cbn [snd] in Hsz.
  right.
  unfold DecodeLastRuneInString in Hd. rewrite Hlen in Hd.
  destruct (Z.eqb_spec (Z.of_nat i) 0); [lia|].
  destruct (Z.ltb_spec (at_ (firstn i u) (Z.of_nat i - 1)) RuneSelf) as [Hlt|Hge].
  - injection Hd; intros <- _.
    replace (Z.of_nat i - 1) with (Z.of_nat (i - 1)) in Hlt by lia.
    rewrite at_firstn in Hlt by lia. unfold at_ in Hlt. rewrite Nat2Z.id in Hlt.
    unfold cont, locb, RuneSelf in *.
    destruct (Z.leb_spec 128 (b2z (nth (i - 1) u zero))); [lia | reflexivity].
  - set (lb := lookback _ _ _) in Hd.
    assert (Hlb : lb <= Z.of_nat i - 1 - 1) by apply lookback_le.
    set (start := Z.to_nat (Z.max 0 lb)) in *.
    fold start in Hd. rewrite slice_firstn in Hd by lia.
    destruct (DecodeRuneInString (firstn (i - start) (skipn start u))) as [r' size'] eqn:Hdec.
    destruct (Z.eqb_spec (Z.max 0 lb + Z.of_nat size') (Z.of_nat i)) as [E|E];
      cbn [negb] in Hd; injection Hd; intros <- <-; [|discriminate].
    assert (Hk : (i - size' = start)%nat) by lia. rewrite Hk.
    rewrite (skipn_cons_nth u start) in Hdec by lia.
    assert (Hpos : (i - start = S (i - start - 1))%nat) by lia.
    rewrite Hpos in Hdec. cbn [firstn] in Hdec.
    apply (Decode_start _ (firstn (i - start - 1) (skipn (S start) u))).
    rewrite Hdec. cbn [fst]. apply IsSpace_not_RuneError. exact Hr.
Qed.

(** What the loop of [lastIndexFunc] returns, looking for a rune that is
    not a space: where such a rune begins; the rune ends at a boundary
    [i0], and is the last rune of [u[0:i0]]. *)
Lemma lastIndexFunc_spec fuel :
  forall u i k,
    (i <= List.length u)%nat -> boundary u i ->
    lastIndexFunc_loop fuel u i IsSpace false = Some k ->
    exists i0 r size,
      (1 <= i0 <= i)%nat /\ boundary u i0 /\
      DecodeLastRuneInString (firstn i0 u) = (r, size) /\
      IsSpace r = false /\ k = (i0 - size)%nat.
Proof.
  induction fuel as [|fuel IH]; intros u i k Hi Hb H; [discriminate|].
  cbn [lastIndexFunc_loop] in H.
  destruct (Nat.eqb_spec i 0); [discriminate|].
  destruct (DecodeLastRuneInString (firstn i u)) as [r size] eqn:Hd.
  destruct (IsSpace r) eqn:Hr; cbn [Bool.eqb] in H.
  - pose proof (DecodeLast_space_boundary u i r size ltac:(lia) Hd Hr) as Hb'.
    destruct (IH u (i - size)%nat k ltac:(lia) Hb' H)
      as [i0 [r0 [size0 [Hi0 [Hb0 [Hd0 [Hr0 Hk]]]]]]].
    exists i0, r0, size0. repeat split; try assumption; lia.
  - injection H; intros <-.
    exists i, r, size. repeat split; try assumption; lia.
Qed.

(** [TrimRightFunc] cuts the string right after its last rune that is
    not a space. *)
Lemma TrimRightFunc_last u :
  TrimRightFunc u IsSpace = [] \/
  (exists i0, (1 <= i0 <= List.length u)%nat /\
              TrimRightFunc u IsSpace = firstn i0 u /\
              IsSpace (fst (DecodeLastRuneInString (firstn i0 u))) = false).
Proof.
  unfold TrimRightFunc, lastIndexFunc.
  destruct (lastIndexFunc_loop _ _ _ _ _) as [k|] eqn:Hk; [|left; reflexivity].
  right.
  apply lastIndexFunc_spec in Hk; [|lia|left; reflexivity].
  destruct Hk as [i0 [r [size [Hi0 [Hb0 [Hd0 [Hr0 ->]]]]]]].
  destruct (DecodeLast_forward u i0 r size ltac:(lia) Hb0 Hd0) as [Hsz Hj].
  exists i0. split; [lia|]. split.
  - destruct (RuneSelf <=? at_ u (Z.of_nat (i0 - size))); rewrite Hj; reflexivity.
  - rewrite Hd0. exact Hr0.
Qed.

Lemma DecodeLast_ascii_last l z :
  b2z z < RuneSelf -> DecodeLastRuneInString (l ++ [z]) = (b2z z, 1%nat).
Proof.
  intros Hz. unfold DecodeLastRuneInString.
  rewrite length_app. cbn [List.length].
  destruct (Z.eqb_spec (Z.of_nat (List.length l + 1)) 0); [lia|].
  assert (E : at_ (l ++ [z]) (Z.of_nat (List.length l + 1) - 1) = b2z z).
  { unfold at_. replace (Z.to_nat (Z.of_nat (List.length l + 1) - 1)) with (List.length l) by lia.
    rewrite nth_middle. reflexivity. }
  rewrite E. destruct (Z.ltb_spec (b2z z) RuneSelf); [reflexivity | lia].
Qed.

(** The result of [TrimSpace] is empty or ends with a rune that is not a
    space. *)
Lemma TrimSpaceB_last s :
  TrimSpaceB s = [] \/
  IsSpace (fst (DecodeLastRuneInString (TrimSpaceB s))) = false.
Proof.
  assert (HR : forall u, TrimRightFunc u IsSpace = [] \/
                         IsSpace (fst (DecodeLastRuneInString (TrimRightFunc u IsSpace))) = false).
  { intros u. destruct (TrimRightFunc_last u) as [E | [i0 [_ [E H]]]];
      [left; exact E | right; rewrite E; exact H]. }
  unfold TrimSpaceB.
  destruct (TrimSpace_scan s) as [rest|rest]; [|apply HR].
  pose proof (scan_inv (rev rest)) as Hr.
  destruct (TrimSpace_scan (rev rest)) as [r|r]; [|apply HR].
  destruct Hr as [pre [_ [_ [-> | [z [t [-> [Hz Hns]]]]]]]]; [left; reflexivity|].
  right. cbn [rev]. rewrite DecodeLast_ascii_last by exact Hz. cbn [fst].
  rewrite IsSpace_ascii; [exact Hns|]. pose proof (b2z_range z). lia.
Qed.

(** A string that neither begins nor ends with a space is left as it is
    by [TrimRightFunc] and by [TrimSpace]. *)
Lemma TrimRightFunc_fixed t :
  t <> [] -> IsSpace (fst (DecodeLastRuneInString t)) = false ->
  TrimRightFunc t IsSpace = t.
Proof.
  intros Hne Hl. unfold TrimRightFunc, lastIndexFunc.
  assert (Hlen : (1 <= List.length t)%nat) by (destruct t; [congruence | cbn; lia]).
  destruct (List.length t) as [|n] eqn:En; [lia|].
  cbn [lastIndexFunc_loop Nat.eqb]. rewrite <- En. rewrite firstn_all.
  destruct (DecodeLastRuneInString t) as [r size] eqn:Hd. cbn [fst] in Hl.
  rewrite Hl. cbn [Bool.eqb].
  assert (Hd' : DecodeLastRuneInString (firstn (List.length t) t) = (r, size))
    by (rewrite firstn_all; exact Hd).
  destruct (DecodeLast_forward t (List.length t) r size ltac:(lia) ltac:(left; reflexivity) Hd')
    as [_ Hj].
  destruct (RuneSelf <=? at_ t (Z.of_nat (List.length t - size))); rewrite Hj; apply firstn_all.
Qed.

Lemma TrimLeftFunc_fixed t :
  t <> [] -> IsSpace (fst (DecodeRuneInString t)) = false ->
  TrimLeftFunc t IsSpace = t.
Proof.
  intros Hne Hf. unfold TrimLeftFunc, indexFunc.
  destruct t as [|c t']; [congruence|].
  cbn [List.length indexFunc_loop].
  destruct (DecodeRuneInString (c :: t')) as [r w]. cbn [fst] in Hf.
  rewrite Hf. reflexivity.
Qed.

Lemma TrimSpaceB_fixed t :
  t <> [] ->
  IsSpace (fst (DecodeRuneInString t)) = false ->
  IsSpace (fst (DecodeLastRuneInString t)) = false ->
  TrimSpaceB t = t.
Proof.
  intros Hne Hf Hl. unfold TrimSpaceB.
  destruct t as [|c t']; [congruence|].
  cbn [TrimSpace_scan].
  destruct (Z.leb_spec RuneSelf (b2z c)) as [Hge|Hlt].
  - unfold TrimFunc. rewrite TrimLeftFunc_fixed by assumption.
    apply TrimRightFunc_fixed; assumption.
  - rewrite Decode_ascii in Hf by exact Hlt. cbn [fst] in Hf.
    rewrite IsSpace_ascii in Hf by (pose proof (b2z_range c); lia).
    rewrite Hf.
    destruct (rev (c :: t')) as [|z r] eqn:Hrev.
    { apply (f_equal (@List.length ascii)) in Hrev. rewrite length_rev in Hrev. discriminate. }
    assert (Ht : c :: t' = rev r ++ [z]).
    { rewrite <- (rev_involutive (c :: t')), Hrev. reflexivity. }
    cbn [TrimSpace_scan].
    destruct (Z.leb_spec RuneSelf (b2z z)) as [Hzge|Hzlt].
    + cbn [rev]. rewrite <- Ht. apply TrimRightFunc_fixed; assumption.
    + rewrite Ht in Hl. rewrite DecodeLast_ascii_last in Hl by exact Hzlt. cbn [fst] in Hl.
      rewrite IsSpace_ascii in Hl by (pose proof (b2z_range z); lia).
      rewrite Hl. cbn [rev]. symmetry. exact Ht.
Qed.

(** [TrimSpace] is idempotent. *)
Lemma TrimSpaceB_idempotent s : TrimSpaceB (TrimSpaceB s) = TrimSpaceB s.
Proof.
  destruct (TrimSpaceB_first s) as [E | [Hne Hf]]; [rewrite E; reflexivity|].
  destruct (TrimSpaceB_last s) as [E | Hl]; [congruence|].
  apply TrimSpaceB_fixed; assumption.
Qed.

(** The result of [TrimSpace] is a part of its argument. *)
Lemma scan_suffix s :
  exists pre, s = pre ++ match TrimSpace_scan s with inl r => r | inr r => r end.
Proof.
  pose proof (scan_inv s) as H.
  destruct (TrimSpace_scan s); destruct H as [pre [H _]]; exists pre; exact H.
Qed.

Lemma TrimRightFunc_prefix u : exists post, u = TrimRightFunc u IsSpace ++ post.
Proof.
  unfold TrimRightFunc.
  destruct (lastIndexFunc u IsSpace false) as [k|].
  - destruct (RuneSelf <=? _); eexists; symmetry; apply firstn_skipn.
  - exists u. reflexivity.
Qed.

Lemma TrimLeftFunc_suffix u : exists pre, u = pre ++ TrimLeftFunc u IsSpace.
Proof.
  unfold TrimLeftFunc. destruct (indexFunc u IsSpace false) as [i|].
  - exists (firstn i u). symmetry. apply firstn_skipn.
  - exists u. rewrite app_nil_r. reflexivity.
Qed.

Lemma TrimSpaceB_part s : exists pre post, s = pre ++ TrimSpaceB s ++ post.
Proof.
  unfold TrimSpaceB. destruct (scan_suffix s) as [pre Hs].
  destruct (TrimSpace_scan s) as [rest|rest].
  - destruct (scan_suffix (rev rest)) as [q Hq].
    apply (f_equal (@rev ascii)) in Hq. rewrite rev_involutive, rev_app_distr in Hq.
    destruct (TrimSpace_scan (rev rest)) as [r|r].
    + exists pre, (rev q). rewrite Hs at 1. rewrite Hq. reflexivity.
    + destruct (TrimRightFunc_prefix (rev r)) as [post Hp].
      exists pre, (post ++ rev q). rewrite Hs at 1. rewrite Hq. rewrite Hp at 1.
      rewrite <- !app_assoc. reflexivity.
  - unfold TrimFunc.
    destruct (TrimLeftFunc_suffix rest) as [p Hp].
    destruct (TrimRightFunc_prefix (TrimLeftFunc rest IsSpace)) as [post Hq].
    exists (pre ++ p), post. rewrite Hs at 1. rewrite Hp at 1. rewrite Hq at 1.
    rewrite <- !app_assoc. reflexivity.
Qed.

End trim_facts.

Local Open Scope string_scope.

Module lines_facts.
Import string_facts.

Lemma gostring_app a b : gostring (a ++ b)%list = gostring a ++ gostring b.
Proof.
  induction a as [|c a IH]; [reflexivity|].
  cbn. unfold gostring in IH. rewrite IH. reflexivity.
Qed.

Lemma string_eq_str a b : str a = str b -> a = b.
Proof. intros H. rewrite <- (gostring_str a), <- (gostring_str b), H. reflexivity. Qed.

Lemma TrimSpace_idempotent s : strings.TrimSpace (strings.TrimSpace s) = strings.TrimSpace s.
Proof.
  unfold strings.TrimSpace. rewrite str_gostring, trim_facts.TrimSpaceB_idempotent. reflexivity.
Qed.

Lemma TrimSpace_starts s : starts_with_space (strings.TrimSpace s) = false.
Proof.
  unfold starts_with_space, strings.TrimSpace. rewrite str_gostring.
  destruct (strings_facts.TrimSpaceB_first (str s)) as [-> | [_ H]]; [reflexivity | exact H].
Qed.

Lemma TrimSpace_ends s : ends_with_space (strings.TrimSpace s) = false.
Proof.
  unfold ends_with_space, strings.TrimSpace. rewrite str_gostring.
  destruct (trim_facts.TrimSpaceB_last (str s)) as [-> | H]; [reflexivity | exact H].
Qed.

Lemma TrimSpace_part s : part_of (strings.TrimSpace s) s.
Proof.
  unfold part_of, strings.TrimSpace.
  destruct (trim_facts.TrimSpaceB_part (str s)) as [pre [post H]].
  exists (gostring pre), (gostring post).
  rewrite <- !gostring_app, <- H. symmetry. apply gostring_str.
Qed.

Lemma append_assoc a b c : (a ++ b) ++ c = a ++ b ++ c.
Proof. induction a as [|x a IH]; cbn; [reflexivity | rewrite IH; reflexivity]. Qed.

Lemma part_of_trans a b c : part_of a b -> part_of b c -> part_of a c.
Proof.
  intros [p1 [q1 H1]] [p2 [q2 H2]]. exists (p2 ++ p1), (q1 ++ q2).
  rewrite H2, H1. rewrite !append_assoc. reflexivity.
Qed.

Lemma split_at_nonempty c s : split_at c s <> [].
Proof.
  destruct s as [|x s]; cbn [split_at]; [discriminate|].
  destruct (Ascii.eqb x c); [discriminate|].
  destruct (split_at c s); discriminate.
Qed.

(** The pieces of a split stand in the string, the first at its start. *)
Lemma split_at_shape c s :
  exists l0 ls,
    split_at c s = l0 :: ls /\
    (exists post, s = (l0 ++ post)%list) /\
    (forall l, In l ls -> exists pre post, s = (pre ++ l ++ post)%list).
Proof.
  induction s as [|x s IH]; cbn [split_at].
  - exists [], []. split; [reflexivity|]. split; [exists []; reflexivity|]. intros l [].
  - destruct IH as [l0 [ls [Hs [[post Hp] Hin]]]]. rewrite Hs.
    destruct (Ascii.eqb x c).
    + exists [], (l0 :: ls). split; [reflexivity|].
      split; [exists (x :: s); reflexivity|].
      intros l [<-|Hl].
      * exists [x], post. cbn [app]. rewrite Hp at 1. reflexivity.
      * destruct (Hin l Hl) as [pre [q Hq]]. exists (x :: pre), q. cbn [app].
        rewrite Hq at 1. reflexivity.
    + exists (x :: l0), ls. split; [reflexivity|].
      split; [exists post; cbn [app]; rewrite Hp at 1; reflexivity|].
      intros l Hl. destruct (Hin l Hl) as [pre [q Hq]]. exists (x :: pre), q. cbn [app].
      rewrite Hq at 1. reflexivity.
Qed.

Lemma split_at_part c s l :
  In l (split_at c s) -> exists pre post, s = (pre ++ l ++ post)%list.
Proof.
  destruct (split_at_shape c s) as [l0 [ls [Hs [[post Hp] Hin]]]]. rewrite Hs.
  intros [<-|Hl]; [exists [], post; exact Hp | apply Hin; exact Hl].
Qed.

Lemma lines_part s l : In l (lines s) -> part_of l s.
Proof.
  unfold lines. intros H. apply in_map_iff in H. destruct H as [b [<- Hb]].
  apply split_at_part in Hb. destruct Hb as [pre [post Hp]].
  exists (gostring pre), (gostring post).
  rewrite <- !gostring_app, <- Hp. symmetry. apply gostring_str.
Qed.

Lemma length_split_at c s : List.length (split_at c s) = S (count_byte c s).
Proof.
  induction s as [|x s IH]; [reflexivity|]. cbn [split_at count_byte].
  destruct (Ascii.eqb x c); cbn [List.length]; [rewrite IH; reflexivity|].
  destruct (split_at c s) as [|l0 ls]; [discriminate | exact IH].
Qed.

(** A piece without the separator, then the separator: the first piece
    of the split. *)
Lemma split_at_app c l rest :
  forallb (fun x => negb (Ascii.eqb x c)) l = true ->
  split_at c (l ++ c :: rest)%list = l :: split_at c rest.
Proof.
  induction l as [|x l IH]; intros H; cbn [app split_at].
  - rewrite Ascii.eqb_refl. reflexivity.
  - cbn [forallb] in H. apply andb_true_iff in H. destruct H as [Hx Hl].
    apply negb_true_iff in Hx. rewrite Hx, (IH Hl). reflexivity.
Qed.

Lemma split_at_none c l :
  forallb (fun x => negb (Ascii.eqb x c)) l = true -> split_at c l = [l].
Proof.
  induction l as [|x l IH]; intros H; cbn [split_at]; [reflexivity|].
  cbn [forallb] in H. apply andb_true_iff in H. destruct H as [Hx Hl].
  apply negb_true_iff in Hx. rewrite Hx, (IH Hl). reflexivity.
Qed.

Lemma unlines_cons l ls : unlines (l :: ls) = l ++ LF ++ unlines ls.
Proof.
  unfold unlines. cbn [map]. destruct ls as [|l' ls'].
  - reflexivity.
  - change (String.concat "" ((l ++ LF) :: map (fun l0 => l0 ++ LF) (l' :: ls')))
      with ((l ++ LF) ++ "" ++ String.concat "" (map (fun l0 => l0 ++ LF) (l' :: ls'))).
    cbn [append]. apply append_assoc.
Qed.

Lemma lines_unlines ls :
  forallb no_newline ls = true -> lines (unlines ls) = (ls ++ [""])%list.
Proof.
  induction ls as [|l ls IH]; intros H; [reflexivity|].
  cbn [forallb] in H. apply andb_true_iff in H. destruct H as [Hl Hls].
  rewrite unlines_cons. unfold lines in *. rewrite !str_app.
  change (str LF) with ["010"%char]. cbn [app].
  rewrite split_at_app by exact Hl. cbn [map app].
  rewrite gostring_str, (IH Hls). reflexivity.
Qed.

Lemma token_no_newline tok : is_token tok = true -> no_newline tok = true.
Proof.
  unfold is_token, no_newline. intros H. apply andb_true_iff in H. destruct H as [_ H].
  rewrite forallb_forall in *. intros c Hc. specialize (H c Hc).
  unfold token_byte in H. apply andb_true_iff in H. destruct H as [_ H].
  destruct (Ascii.eqb_spec c "010"%char) as [->|]; [discriminate | reflexivity].
Qed.

Lemma no_newline_app a b :
  no_newline (a ++ b) = no_newline a && no_newline b.
Proof. unfold no_newline. rewrite str_app. apply forallb_app. Qed.

End lines_facts.

(* ================================================================== *)
(** * The container inventory, further *)
(* ================================================================== *)

Module more_inventory_facts.
Import string_facts lines_facts.

Lemma getContainerIDs_unfold {os : OS} all w :
  fst (exec (getContainerIDs all) w) =
  match cmd_Output (listCmd all) w with
  | ((_, Some e), _) => ([], Some e)
  | ((output, None), _) => (trimmed_nonempty_lines output, None)
  end.
Proof.
  unfold exec, getContainerIDs, bind, Output. cbn [world].
  replace (CommandContext "docker" _) with (listCmd all) by (destruct all; reflexivity).
  destruct (cmd_Output (listCmd all) w) as [[output [e|]] w']; unfold ret; cbn [fst].
  - reflexivity.
  - rewrite parseContainerIDs_lines. reflexivity.
Qed.

Lemma query_unfold {os : OS} (c : Cmd) w :
  fst (exec (r <- Output c ;;
             let '(output, err) := r in
             match err with
             | Some e => ret ("", Some e)
             | None => ret (strings.TrimSpace output, None)
             end)%go w) =
  match cmd_Output c w with
  | ((_, Some e), _) => ("", Some e)
  | ((output, None), _) => (strings.TrimSpace output, None)
  end.
Proof.
  unfold exec, bind, Output. cbn [world].
  destruct (cmd_Output c w) as [[output [e|]] w']; reflexivity.
Qed.

Lemma filter_length_le {A} (f : A -> bool) l : (List.length (filter f l) <= List.length l)%nat.
Proof.
  induction l as [|a l IH]; cbn; [lia|]. destruct (f a); cbn; lia.
Qed.

Lemma trimmed_lines_of_padded ls :
  forallb well_padded ls = true ->
  trimmed_nonempty_lines (unlines (map padded ls)) = map (fun l => snd (fst l)) ls.
Proof.
  intros H. unfold trimmed_nonempty_lines.
  rewrite lines_unlines.
  - rewrite map_app, filter_app. cbn [map filter].
    change (strings.TrimSpace "") with "". cbn [String.eqb negb]. rewrite app_nil_r.
    induction ls as [|[[pre tok] post] ls IH]; [reflexivity|].
    cbn [forallb] in H. apply andb_true_iff in H. destruct H as [Hl Hls].
    unfold well_padded in Hl.
    apply andb_true_iff in Hl; destruct Hl as [Hl Hnpost].
    apply andb_true_iff in Hl; destruct Hl as [Hl Hpost].
    apply andb_true_iff in Hl; destruct Hl as [Hl Htok].
    apply andb_true_iff in Hl; destruct Hl as [Hpre Hnpre].
    cbn [map padded filter fst snd].
    rewrite (TrimSpace_token pre tok post Hpre Htok Hpost).
    assert (Hne : String.eqb tok "" = false).
    { unfold is_token in *. destruct tok; [discriminate | reflexivity]. }
    rewrite Hne. cbn [negb]. rewrite (IH Hls). reflexivity.
  - rewrite forallb_forall in *. intros l Hl.
    apply in_map_iff in Hl. destruct Hl as [[[pre tok] post] [<- Hin]].
    specialize (H _ Hin). unfold well_padded in H.
    apply andb_true_iff in H; destruct H as [H Hnpost].
    apply andb_true_iff in H; destruct H as [H Hpost].
    apply andb_true_iff in H; destruct H as [H Htok].
    apply andb_true_iff in H; destruct H as [Hpre Hnpre].
    cbn [padded]. rewrite !no_newline_app.
    rewrite (token_no_newline tok Htok), Hnpre, Hnpost. reflexivity.
Qed.

(** The first and the last byte of tokens joined by newlines. *)
Lemma Join_tokens_edges tok toks :
  Forall (fun t => is_token t = true) (tok :: toks) ->
  (exists a t, str (strings.Join (tok :: toks) LF) = a :: t /\ is_token_byte a) /\
  (exists z t, rev (str (strings.Join (tok :: toks) LF)) = z :: t /\ is_token_byte z).
Proof.
  assert (Hfirst : forall s rest, is_token s = true ->
             exists a t, str (s ++ rest) = a :: t /\ is_token_byte a).
  { intros s rest Hs. unfold is_token in Hs. apply andb_true_iff in Hs.
    destruct Hs as [Hne Hall]. destruct s as [|a s]; [discriminate|].
    exists a, (str (s ++ rest)). split; [reflexivity|].
    apply token_byte_spec. cbn [str list_ascii_of_string forallb] in Hall.
    apply andb_true_iff in Hall. apply Hall. }
  assert (Hlast : forall s, is_token s = true ->
             exists z t, rev (str s) = z :: t /\ is_token_byte z).
  { intros s Hs. unfold is_token in Hs. apply andb_true_iff in Hs.
    destruct Hs as [Hne Hall]. rewrite forallb_forall in Hall.
    destruct (rev (str s)) as [|z t] eqn:Hz.
    - apply (f_equal (@rev ascii)) in Hz. rewrite rev_involutive in Hz.
      apply str_nil in Hz. subst s. discriminate.
    - exists z, t. split; [reflexivity|]. apply token_byte_spec, Hall.
      apply in_rev. rewrite Hz. left. reflexivity. }
  revert tok. induction toks as [|t2 toks IH]; intros tok H; inversion H as [|? ? Ht Hts]; subst.
  - cbn [strings.Join]. split.
    + destruct (Hfirst tok "" Ht) as [a [t [E Ha]]].
      rewrite inventory_facts.append_empty_r in E. eauto.
    + apply Hlast. exact Ht.
  - change (strings.Join (tok :: t2 :: toks) LF)
      with (tok ++ LF ++ strings.Join (t2 :: toks) LF).
    split; [apply Hfirst; exact Ht|].
    destruct (IH t2 Hts) as [_ [z [t [E Hz]]]].
    exists z. rewrite !str_app, !rev_app_distr, E. cbn [app]. eauto.
Qed.

Lemma unlines_Join tok toks :
  unlines (tok :: toks) = strings.Join (tok :: toks) LF ++ LF.
Proof.
  revert tok. induction toks as [|t2 toks IH]; intros tok.
  - reflexivity.
  - rewrite unlines_cons, IH.
    change (strings.Join (tok :: t2 :: toks) LF)
      with (tok ++ LF ++ strings.Join (t2 :: toks) LF).
    rewrite !append_assoc. reflexivity.
Qed.

Lemma TrimSpace_unlines_tokens tok toks :
  Forall (fun t => is_token t = true) (tok :: toks) ->
  strings.TrimSpace (unlines (tok :: toks)) = strings.Join (tok :: toks) LF.
Proof.
  intros H. rewrite unlines_Join. unfold strings.TrimSpace. rewrite str_app.
  destruct (Join_tokens_edges tok toks H) as [[a [t [Ea Ha]]] [z [t' [Ez Hz]]]].
  pose proof (strings_facts.TrimSpaceB_edges [] _ (str LF) a t z t' Ea Ez) as E.
  cbn [app] in E. rewrite E; [apply gostring_str | constructor | | exact Ha | exact Hz].
  repeat constructor.
Qed.

Lemma Join_two_not_token t1 t2 toks :
  is_token (strings.Join (t1 :: t2 :: toks) LF) = false.
Proof.
  change (strings.Join (t1 :: t2 :: toks) LF)
    with (t1 ++ LF ++ strings.Join (t2 :: toks) LF).
  unfold is_token. rewrite !str_app, !forallb_app.
  change (forallb token_byte (str LF)) with false.
  rewrite andb_false_r. cbn [andb]. apply andb_false_r.
Qed.

End more_inventory_facts.

Import more_inventory_facts.

(** X1.  Every identifier [getContainerIDs] returns is a non-empty string
    that neither begins nor ends with a white-space rune, and that
    [strings.TrimSpace] leaves as it is. *)
Theorem getContainerIDs_identifiers_trimmed :
  forall (os : OS) (all : bool) (w : World),
    Forall (fun id => id <> "" /\
                      starts_with_space id = false /\
                      ends_with_space id = false /\
                      strings.TrimSpace id = id)
           (fst (fst (exec (getContainerIDs all) w))).
Proof.
  intros os all w. rewrite getContainerIDs_unfold.
  destruct (cmd_Output (listCmd all) w) as [[output [e|]] w']; cbn [fst]; [constructor|].
  unfold trimmed_nonempty_lines. apply Forall_forall. intros id Hid.
  apply filter_In in Hid. destruct Hid as [Hin Hne].
  apply in_map_iff in Hin. destruct Hin as [l [<- _]].
  apply negb_true_iff in Hne. apply String.eqb_neq in Hne.
  split; [exact Hne|]. split; [apply lines_facts.TrimSpace_starts|].
  split; [apply lines_facts.TrimSpace_ends | apply lines_facts.TrimSpace_idempotent].
Qed.

(** X2.  [getContainerIDs] invents nothing: every identifier it returns
    stands in the output of the command, and there are no more
    identifiers than lines, that is than newlines in the output plus
    one. *)
Theorem getContainerIDs_identifiers_from_output :
  forall (os : OS) (all : bool) (w : World),
    let output := fst (fst (cmd_Output (listCmd all) w)) in
    let ids := fst (fst (exec (getContainerIDs all) w)) in
    Forall (fun id => part_of id output) ids /\
    (List.length ids <= S (count_byte "010"%char (str output)))%nat.
Proof.
  intros os all w. cbv zeta. rewrite getContainerIDs_unfold.
  destruct (cmd_Output (listCmd all) w) as [[output [e|]] w']; cbn [fst];
    [split; [constructor | cbn; lia]|].
  unfold trimmed_nonempty_lines. split.
  - apply Forall_forall. intros id Hid.
    apply filter_In in Hid. destruct Hid as [Hin _].
    apply in_map_iff in Hin. destruct Hin as [l [<- Hl]].
    eapply lines_facts.part_of_trans; [apply lines_facts.TrimSpace_part|].
    apply lines_facts.lines_part. exact Hl.
  - etransitivity; [apply filter_length_le|].
    rewrite length_map. unfold lines. rewrite length_map, lines_facts.length_split_at. lia.
Qed.

(** X3.  Round trip: when the runtime prints one token per line, each
    possibly between ASCII spaces, [getContainerIDs] returns exactly
    those tokens, in order. *)
Theorem getContainerIDs_tokens_round_trip :
  forall (os : OS) (all : bool) (w w' : World) (ls : list (string * string * string)),
    forallb well_padded ls = true ->
    cmd_Output (listCmd all) w = ((unlines (map padded ls), None), w') ->
    fst (exec (getContainerIDs all) w) = (map (fun l => snd (fst l)) ls, None).
Proof.
  intros os all w w' ls Hls Hout.
  rewrite getContainerIDs_unfold, Hout.
  rewrite trimmed_lines_of_padded by exact Hls. reflexivity.
Qed.

Lemma getContainerIDs_tokens_round_trip_witness :
  fst (@exec (queryOS ("4f1c2a9b7d3e" ++ CR ++ LF ++ "  a0b1c2d3e4f5 " ++ LF) false) _
             (@getContainerIDs
                (queryOS ("4f1c2a9b7d3e" ++ CR ++ LF ++ "  a0b1c2d3e4f5 " ++ LF) false)
                false) [])
  = (["4f1c2a9b7d3e"; "a0b1c2d3e4f5"], None).
Proof.
  apply (getContainerIDs_tokens_round_trip
           (queryOS ("4f1c2a9b7d3e" ++ CR ++ LF ++ "  a0b1c2d3e4f5 " ++ LF) false)
           false [] [listCmd false]
           [("", "4f1c2a9b7d3e", CR); ("  ", "a0b1c2d3e4f5", " ")]).
  - vm_compute. reflexivity.
  - reflexivity.
Defined.

(** X4.  What [getContainerIDForNodeName] and [getContainerAddr] return
    is a part of the output of their command that neither begins nor
    ends with a white-space rune and that [strings.TrimSpace] leaves as
    it is. *)
Theorem query_results_trimmed :
  forall (os : OS) (name : string) (w : World),
    let id := fst (fst (exec (getContainerIDForNodeName name) w)) in
    let addr := fst (fst (exec (getContainerAddr name) w)) in
    (part_of id (fst (fst (cmd_Output (nodeNameCmd name) w))) /\
     starts_with_space id = false /\ ends_with_space id = false /\
     strings.TrimSpace id = id) /\
    (part_of addr (fst (fst (cmd_Output (inspectCmd name) w))) /\
     starts_with_space addr = false /\ ends_with_space addr = false /\
     strings.TrimSpace addr = addr).
Proof.
  intros os name w. cbv zeta.
  assert (Hempty : forall s, part_of "" s).
  { intros s. exists "", s. reflexivity. }
  split.
  - unfold getContainerIDForNodeName. rewrite query_unfold.
    destruct (cmd_Output (nodeNameCmd name) w) as [[output [e|]] w']; cbn [fst].
    + split; [apply Hempty|]. repeat split; reflexivity.
    + split; [apply lines_facts.TrimSpace_part|].
      split; [apply lines_facts.TrimSpace_starts|].
      split; [apply lines_facts.TrimSpace_ends | apply lines_facts.TrimSpace_idempotent].
  - unfold getContainerAddr. rewrite query_unfold.
    destruct (cmd_Output (inspectCmd name) w) as [[output [e|]] w']; cbn [fst].
    + split; [apply Hempty|]. repeat split; reflexivity.
    + split; [apply lines_facts.TrimSpace_part|].
      split; [apply lines_facts.TrimSpace_starts|].
      split; [apply lines_facts.TrimSpace_ends | apply lines_facts.TrimSpace_idempotent].
Qed.

(** X5.  When the name filter matches several containers, the runtime
    printing one identifier per line, [getContainerIDForNodeName] returns
    no error and all the identifiers joined by newlines; with two
    identifiers or more this value is not an identifier. *)
Theorem getContainerIDForNodeName_several_matches :
  forall (os : OS) (nodeName : string) (w w' : World) (tok : string) (toks : list string),
    Forall (fun t => is_token t = true) (tok :: toks) ->
    cmd_Output (nodeNameCmd nodeName) w = ((unlines (tok :: toks), None), w') ->
    fst (exec (getContainerIDForNodeName nodeName) w)
      = (strings.Join (tok :: toks) LF, None) /\
    (toks <> [] -> is_token (strings.Join (tok :: toks) LF) = false).
Proof.
  intros os nodeName w w' tok toks Htoks Hout. split.
  - unfold getContainerIDForNodeName. rewrite query_unfold, Hout.
    rewrite TrimSpace_unlines_tokens by exact Htoks. reflexivity.
  - intros Hne. destruct toks as [|t2 toks]; [congruence|]. apply Join_two_not_token.
Qed.

Lemma getContainerIDForNodeName_several_matches_witness :
  fst (@exec (queryOS ("4f1c2a9b7d3e" ++ LF ++ "a0b1c2d3e4f5" ++ LF) false) _
             (@getContainerIDForNodeName
                (queryOS ("4f1c2a9b7d3e" ++ LF ++ "a0b1c2d3e4f5" ++ LF) false) "srl") [])
  = ("4f1c2a9b7d3e" ++ LF ++ "a0b1c2d3e4f5", None).
Proof.
  destruct (getContainerIDForNodeName_several_matches
              (queryOS ("4f1c2a9b7d3e" ++ LF ++ "a0b1c2d3e4f5" ++ LF) false)
              "srl" [] [nodeNameCmd "srl"] "4f1c2a9b7d3e" ["a0b1c2d3e4f5"]) as [H _].
  - repeat constructor.
  - reflexivity.
  - exact H.
Defined.

(* ================================================================== *)
(** * The daemon supervisor, further *)
(* ================================================================== *)

Module launch_facts.

Section Runs.
Variable M : Z.
Variable logger : Writer.

Lemma sleeps_run c res evs : sleeps (EvRun c res :: evs) = sleeps evs.
Proof. reflexivity. Qed.

Lemma sleeps_sleep d evs : sleeps (EvSleep d :: evs) = d :: sleeps evs.
Proof. reflexivity. Qed.

Ltac results :=
  rewrite ?probe_results_probe, ?probe_results_restart, ?probe_results_sleep,
          ?restart_results_probe, ?restart_results_restart, ?restart_results_sleep,
          ?sleeps_run, ?sleeps_sleep in *;
  change (probe_results []) with (@nil (option error)) in *;
  change (restart_results []) with (@nil (option error)) in *;
  change (sleeps []) with (@nil Z) in *.

(** One probe more than successful restarts, one sleep for each of them,
    at most one restart that failed, and only the last probe can have
    succeeded. *)
Lemma loop_run_accounting a evs r :
  loop_run M logger a evs r ->
  List.length (probe_results evs) = S (successes (restart_results evs)) /\
  sleeps evs = repeat time_Second (successes (restart_results evs)) /\
  (List.length (restart_results evs) <= S (successes (restart_results evs)))%nat /\
  Forall (fun res => res <> None) (removelast (probe_results evs)).
Proof.
  induction 1 as [a | a e Ha | a e e' Ha | a e evs r Ha Hrun IH]; results.
  - repeat split; cbn; auto.
  - repeat split; cbn; auto.
  - repeat split; cbn; auto.
  - destruct IH as [Hp [Hs [Hr Hf]]].
    unfold successes in *. cbn [filter is_nil List.length repeat].
    split; [lia|]. split; [rewrite Hs; reflexivity|]. split; [lia|].
    destruct (probe_results evs) as [|p ps] eqn:E; [discriminate|].
    cbn [removelast]. constructor; [discriminate | exact Hf].
Qed.

Lemma loop_run_bounds a evs r :
  loop_run M logger a evs r ->
  Z.of_nat (List.length (probe_results evs)) <= Z.max 1 (M + 2 - a) /\
  Z.of_nat (List.length (restart_results evs)) <= Z.max 0 (M + 1 - a).
Proof.
  induction 1 as [a | a e Ha | a e e' Ha | a e evs r Ha Hrun IH]; results;
    cbn [List.length]; try destruct IH; split; lia.
Qed.

Lemma loop_run_nil a evs r :
  loop_run M logger a evs r ->
  (r = None <-> In None (probe_results evs)) /\
  (r = None <-> last (probe_results evs) (Some ErrLaunch) = None).
Proof.
  induction 1 as [a | a e Ha | a e e' Ha | a e evs r Ha Hrun IH]; results.
  - cbn. intuition.
  - cbn. intuition; discriminate.
  - cbn. intuition; discriminate.
  - destruct IH as [IH1 IH2]. split.
    + rewrite IH1. cbn [In]. intuition; discriminate.
    + rewrite IH2. pose proof (loop_run_accounting _ _ _ Hrun) as [Hp _].
      destruct (probe_results evs) as [|p ps]; [discriminate|]. reflexivity.
Qed.

(** An error the loop returns is the error of a restart that failed, the
    last command then, or the launch error, every probe having failed and
    every restart succeeded. *)
Lemma loop_run_error a evs r e :
  loop_run M logger a evs r -> r = Some e ->
  Forall (fun res => res <> None) (probe_results evs) /\
  ((exists n, restart_results evs = (repeat None n ++ [Some e])%list /\
              exists pre, evs = (pre ++ [EvRun (startCmd logger) (Some e)])%list) \/
   (e = launchError /\
    Forall (fun res => res = None) (restart_results evs) /\
    Z.of_nat (List.length (restart_results evs)) = Z.max 0 (M + 1 - a))).
Proof.
  induction 1 as [a | a e0 Ha | a e0 e' Ha | a e0 evs r Ha Hrun IH]; intros Hr; results.
  - discriminate.
  - injection Hr as <-. split; [repeat constructor; discriminate|].
    right. split; [reflexivity|]. split; [constructor|]. cbn. lia.
  - injection Hr as ->. split; [repeat constructor; discriminate|].
    left. exists 0%nat. split; [reflexivity|]. eexists [_]. reflexivity.
  - destruct (IH Hr) as [Hp [[n [Hn [pre ->]]] | [-> [Hall Hlen]]]].
    + split; [constructor; [discriminate | exact Hp]|].
      left. exists (S n). split; [rewrite Hn; reflexivity|].
      eexists (_ :: _ :: _ :: pre). reflexivity.
    + split; [constructor; [discriminate | exact Hp]|].
      right. split; [reflexivity|]. split; [constructor; [reflexivity | exact Hall]|].
      cbn [List.length]. lia.
Qed.

End Runs.

End launch_facts.

(** X6.  In every environment [startDocker] returns, after at most
    [M + 2] probes and [M + 1] restarts for a ceiling [M >= 0] below the
    largest [int] (one probe and no restart for a negative ceiling). *)
Theorem startDocker_returns_within_bounds :
  forall (os : OS) (maxDockerLaunchAttempts : Z) (logger : Writer) (w : World),
    maxDockerLaunchAttempts < int_max ->
    exists r st,
      exec (startDocker maxDockerLaunchAttempts logger) w = (Some r, st) /\
      Z.of_nat (List.length (probe_results (trace st)))
        <= Z.max 1 (maxDockerLaunchAttempts + 2) /\
      Z.of_nat (List.length (restart_results (trace st)))
        <= Z.max 0 (maxDockerLaunchAttempts + 1).
Proof.
  intros os M logger w HM.
  destruct (startDocker_run M logger HM w) as [r [st [E Hrun]]].
  exists r, st. split; [exact E|].
  pose proof (launch_facts.loop_run_bounds M logger 0 _ _ Hrun) as H.
  rewrite !Z.sub_0_r in H. exact H.
Qed.

Lemma startDocker_returns_within_bounds_witness :
  exists r st,
    @exec (slowDaemon 2) _ (@startDocker (slowDaemon 2) 5 (Sink "log")) [] = (Some r, st) /\
    Z.of_nat (List.length (probe_results (trace st))) <= 7 /\
    Z.of_nat (List.length (restart_results (trace st))) <= 6.
Proof.
  apply (startDocker_returns_within_bounds (slowDaemon 2) 5 (Sink "log") []).
  reflexivity.
Defined.

(** X7.  [startDocker] returns nil exactly when a probe succeeded, and
    then it is the last probe that did. *)
Theorem startDocker_nil_iff_probe_succeeded :
  forall (os : OS) (maxDockerLaunchAttempts : Z) (logger : Writer) (w : World),
    maxDockerLaunchAttempts < int_max ->
    let '(res, st) := exec (startDocker maxDockerLaunchAttempts logger) w in
    (res = Some None <-> In None (probe_results (trace st))) /\
    (res = Some None <-> last (probe_results (trace st)) (Some ErrLaunch) = None).
Proof.
  intros os M logger w HM.
  destruct (startDocker_run M logger HM w) as [r [st [-> Hrun]]].
  destruct (launch_facts.loop_run_nil M logger 0 _ _ Hrun) as [H1 H2].
  split; (split; [intros E; injection E as ->; tauto | intros E; f_equal; tauto]).
Qed.

Lemma startDocker_nil_iff_probe_succeeded_witness :
  let '(res, st) := @exec (slowDaemon 2) _ (@startDocker (slowDaemon 2) 5 (Sink "log")) [] in
  (res = Some None <-> In None (probe_results (trace st))) /\
  (res = Some None <-> last (probe_results (trace st)) (Some ErrLaunch) = None).
Proof.
  apply (startDocker_nil_iff_probe_succeeded (slowDaemon 2) 5 (Sink "log") []).
  reflexivity.
Defined.

(** X8.  The rounds of [startDocker]: it probes once more than it
    restarted the service with success, sleeps one second after each
    successful restart and at no other time, runs at most one restart
    that fails, and every probe but the last failed. *)
Theorem startDocker_rounds :
  forall (os : OS) (maxDockerLaunchAttempts : Z) (logger : Writer) (w : World),
    maxDockerLaunchAttempts < int_max ->
    let tr := trace (snd (exec (startDocker maxDockerLaunchAttempts logger) w)) in
    List.length (probe_results tr) = S (successes (restart_results tr)) /\
    sleeps tr = repeat time_Second (successes (restart_results tr)) /\
    (List.length (restart_results tr) <= S (successes (restart_results tr)))%nat /\
    Forall (fun res => res <> None) (removelast (probe_results tr)).
Proof.
  intros os M logger w HM. cbv zeta.
  destruct (startDocker_run M logger HM w) as [r [st [-> Hrun]]]. cbn [snd].
  exact (launch_facts.loop_run_accounting M logger 0 _ _ Hrun).
Qed.

Lemma startDocker_rounds_witness :
  let tr := trace (snd (@exec (slowDaemon 2) _ (@startDocker (slowDaemon 2) 5 (Sink "log")) [])) in
  List.length (probe_results tr) = S (successes (restart_results tr)) /\
  sleeps tr = repeat time_Second (successes (restart_results tr)) /\
  (List.length (restart_results tr) <= S (successes (restart_results tr)))%nat /\
  Forall (fun res => res <> None) (removelast (probe_results tr)).
Proof.
  apply (startDocker_rounds (slowDaemon 2) 5 (Sink "log") []).
  reflexivity.
Defined.

(** X9.  [startDocker] returns no error of its own making but the launch
    error: an error it returns is the error of a restart command that
    failed, the last command it ran, or it is the launch error, every
    probe having failed and each of the [M + 1] restarts succeeded. *)
Theorem startDocker_error_origin :
  forall (os : OS) (maxDockerLaunchAttempts : Z) (logger : Writer) (w : World) (e : error),
    maxDockerLaunchAttempts < int_max ->
    fst (exec (startDocker maxDockerLaunchAttempts logger) w) = Some (Some e) ->
    let tr := trace (snd (exec (startDocker maxDockerLaunchAttempts logger) w)) in
    Forall (fun res => res <> None) (probe_results tr) /\
    ((exists n, restart_results tr = (repeat None n ++ [Some e])%list /\
                exists pre, tr = (pre ++ [EvRun (startCmd logger) (Some e)])%list) \/
     (e = launchError /\
      Forall (fun res => res = None) (restart_results tr) /\
      Z.of_nat (List.length (restart_results tr)) = Z.max 0 (maxDockerLaunchAttempts + 1))).
Proof.
  intros os M logger w e HM. cbv zeta.
  destruct (startDocker_run M logger HM w) as [r [st [-> Hrun]]]. cbn [fst snd].
  intros E. injection E as ->.
  pose proof (launch_facts.loop_run_error M logger 0 _ _ e Hrun eq_refl) as H.
  rewrite Z.sub_0_r in H. exact H.
Qed.

Lemma startDocker_error_origin_witness :
  let tr := trace (snd (@exec noServiceManager _
                          (@startDocker noServiceManager 3 (Sink "log")) [])) in
  Forall (fun res => res <> None) (probe_results tr) /\
  ((exists n, restart_results tr = (repeat None n ++ [Some noService])%list /\
              exists pre, tr = (pre ++ [EvRun (startCmd (Sink "log")) (Some noService)])%list) \/
   (noService = launchError /\
    Forall (fun res => res = None) (restart_results tr) /\
    Z.of_nat (List.length (restart_results tr)) = Z.max 0 (3 + 1))).
Proof.
  apply (startDocker_error_origin noServiceManager 3 (Sink "log") [] noService).
  - reflexivity.
  - vm_compute. reflexivity.
Defined.

(* ================================================================== *)
(** * The log dump and the daemon configuration, further *)
(* ================================================================== *)

Module dump_facts.
Section Dump.
Context {os : OS}.
Variable logger : Writer.

Lemma printContainerLogs_app a :
  forall b st,
    printContainerLogs logger (a ++ b)%list st =
    bind (printContainerLogs logger a) (fun _ => printContainerLogs logger b) st.
Proof.
  induction a as [|id a IH]; intros b st; [reflexivity|].
  cbn [app printContainerLogs]. unfold bind, Run.
  destruct (cmd_Run (printLogsCmd logger id) (world st)) as [[e|] w1].
  - unfold Warnf, emit. cbn [world trace]. rewrite IH. reflexivity.
  - unfold ret. rewrite IH. reflexivity.
Qed.

Lemma printContainerLogs_trace ids :
  forall st, exists evs,
    trace (snd (printContainerLogs logger ids st)) = (trace st ++ evs)%list /\
    evs = flat_map (dump_events logger) (combine ids (map snd (runs evs))).
Proof.
  induction ids as [|id ids IH]; intros st.
  - exists []. cbn. rewrite app_nil_r. auto.
  - cbn [printContainerLogs]. unfold bind at 1. unfold bind at 1. unfold Run.
    destruct (cmd_Run (printLogsCmd logger id) (world st)) as [res w1].
    destruct res as [e|].
    + unfold Warnf, emit. cbn [trace world].
      match goal with
      | |- context [printContainerLogs logger ids ?s] =>
        destruct (IH s) as [evs [Ht He]]
      end.
      exists (EvRun (printLogsCmd logger id) (Some e)
               :: EvWarnf printLogsWarning [ArgString id; ArgError (Some e)] :: evs).
      rewrite Ht. cbn [trace]. rewrite <- !app_assoc. cbn [app].
      split; [reflexivity|].
      unfold runs in *. cbn [flat_map app map fst snd combine dump_events].
      rewrite <- He. reflexivity.
    + unfold ret.
      match goal with
      | |- context [printContainerLogs logger ids ?s] =>
        destruct (IH s) as [evs [Ht He]]
      end.
      exists (EvRun (printLogsCmd logger id) None :: evs).
      rewrite Ht. cbn [trace]. rewrite <- !app_assoc. cbn [app].
      split; [reflexivity|].
      unfold runs in *. cbn [flat_map app map fst snd combine dump_events].
      rewrite <- He. reflexivity.
Qed.

End Dump.
End dump_facts.

Module registries_facts.
Import string_facts lines_facts.

Lemma Split_elements s : strings.Split s "," = elements s.
Proof.
  unfold strings.Split, elements. change (str ",") with [","%char].
  rewrite split_facts.SplitB_split_at. reflexivity.
Qed.

Lemma Join_cons e e' rest sep :
  strings.Join (e :: e' :: rest) sep = e ++ sep ++ strings.Join (e' :: rest) sep.
Proof. reflexivity. Qed.

Lemma Join_split_at c s :
  strings.Join (map gostring (split_at c s)) (String c "") = gostring s.
Proof.
  induction s as [|x s IH]; [reflexivity|].
  cbn [split_at]. pose proof (split_at_nonempty c s) as Hn.
  destruct (split_at c s) as [|l ls] eqn:E; [congruence|].
  destruct (Ascii.eqb_spec x c) as [->|Hne].
  - cbn [map] in *. rewrite Join_cons, IH. reflexivity.
  - cbn [map] in *. destruct ls as [|l2 ls].
    + cbn [map strings.Join] in *. change (gostring (x :: l)) with (String x (gostring l)).
      rewrite IH. reflexivity.
    + cbn [map] in *. rewrite Join_cons in *.
      change (gostring (x :: l)) with (String x (gostring l)).
      change (gostring (x :: s)) with (String x (gostring s)).
      rewrite <- IH. reflexivity.
Qed.

Lemma split_at_clean c s :
  Forall (fun l => forallb (fun x => negb (Ascii.eqb x c)) l = true) (split_at c s).
Proof.
  induction s as [|x s IH]; [repeat constructor|].
  cbn [split_at]. destruct (Ascii.eqb x c) eqn:E.
  - constructor; [reflexivity | exact IH].
  - destruct (split_at c s) as [|l ls]; [repeat constructor; cbn; rewrite E; reflexivity|].
    inversion IH; subst. constructor; [|assumption].
    cbn [forallb]. rewrite E. assumption.
Qed.

Lemma elements_facts s :
  strings.Join (elements s) "," = s /\
  forallb no_comma (elements s) = true /\
  List.length (elements s) = S (count_byte ","%char (str s)).
Proof.
  unfold elements. split; [|split].
  - change "," with (String ","%char ""). rewrite Join_split_at. apply gostring_str.
  - apply forallb_forall. intros l Hl. apply in_map_iff in Hl. destruct Hl as [b [<- Hb]].
    unfold no_comma. rewrite str_gostring.
    pose proof (split_at_clean ","%char (str s)) as H.
    rewrite Forall_forall in H. apply H. exact Hb.
  - rewrite length_map. apply length_split_at.
Qed.

End registries_facts.

(** X10.  Dumping the logs of two lists of containers in a row is
    dumping the logs of their concatenation: [printContainerLogs] keeps
    nothing from one container to the next. *)
Theorem printContainerLogs_concatenation :
  forall (os : OS) (logger : Writer) (a b : list string) (st : State),
    printContainerLogs logger (a ++ b)%list st =
    (printContainerLogs logger a ;;; printContainerLogs logger b)%go st.
Proof. intros os logger a b st. apply dump_facts.printContainerLogs_app. Qed.

(** X11.  All that [printContainerLogs] does: for each container, in
    order, the fetch-logs command, followed at once by the warning when
    the command failed; nothing else happens, and nothing after a failure
    is skipped. *)
Theorem printContainerLogs_trace_shape :
  forall (os : OS) (logger : Writer) (containerIDs : list string) (w : World),
    let tr := trace (snd (exec (printContainerLogs logger containerIDs) w)) in
    tr = flat_map (dump_events logger) (combine containerIDs (map snd (runs tr))) /\
    List.length (runs tr) = List.length containerIDs.
Proof.
  intros os logger ids w tr.
  destruct (dump_facts.printContainerLogs_trace logger ids (mkState w [])) as [evs [Ht He]].
  cbn [trace app] in Ht. assert (E : tr = evs) by exact Ht. rewrite E.
  split; [exact He|].
  destruct (printContainerLogs_events logger ids (mkState w [])) as [evs' [Ht' [Hr _]]].
  cbn [trace app] in Ht'. assert (E' : evs' = evs) by congruence.
  rewrite E' in Hr. rewrite <- (length_map fst (runs evs)), Hr, length_map. reflexivity.
Qed.

(** X12.  The outcome of [handleInsecureRegistries].  It writes at most
    once, the daemon configuration file with the permission constant, and
    changes the world through this write only.  It returns nil exactly
    when it had nothing to do or the write succeeded.  An error it
    returns is the error of the template parse, of the template
    execution, or of the write, unchanged. *)
Theorem handleInsecureRegistries_outcome :
  forall (os : OS) (LauncherInsecureRegistries LauncherPrivilegedEnv : string)
         (perm : Z) (w : World),
    let '(res, st) :=
      exec (handleInsecureRegistries LauncherInsecureRegistries LauncherPrivilegedEnv perm) w in
    ((write_events (trace st) = [] /\ world st = w) \/
     (exists data,
         write_events (trace st) = [(dockerDaemonConfig, data, perm, res)] /\
         (res, world st) = os_WriteFile dockerDaemonConfig data perm w)) /\
    (res = None <->
     os_Getenv LauncherInsecureRegistries w = "" \/
     exists data, write_events (trace st) = [(dockerDaemonConfig, data, perm, None)]) /\
    (forall e, res = Some e ->
       template_ParseFS templateName = inr e \/
       (exists t vars, template_ParseFS templateName = inl t /\
                       executions (trace st) = [vars] /\
                       template_Execute t vars = inr e) \/
       (exists data, write_events (trace st) = [(dockerDaemonConfig, data, perm, Some e)])).
Proof.
  intros os LIR LPE perm w.
  unfold exec, handleInsecureRegistries, bind, Getenv. cbn [world].
  destruct (String.eqb_spec (os_Getenv LIR w) "") as [E|E].
  - unfold ret. cbv beta iota. cbn [trace world].
    split; [left; auto|]. split; [tauto | discriminate].
  - fold templateName.
    destruct (template_ParseFS templateName) as [t|err] eqn:Hparse.
    + unfold emit, WriteFile. cbn [world trace app].
      match goal with
      | |- context [template_Execute t ?v] => set (vars := v)
      end.
      destruct (template_Execute t vars) as [data|err] eqn:Hexec.
      * cbn [world trace app].
        destruct (os_WriteFile dockerDaemonConfig data perm w) as [werr w'] eqn:Hw.
        destruct werr as [e|]; unfold ret; cbv beta iota; cbn [trace world].
        -- split; [right; exists data; split; [reflexivity | symmetry; exact Hw]|].
           split; [split; [discriminate | intros [H|[d H]]; [contradiction | discriminate]]|].
           intros e' He'. injection He' as <-. right. right. exists data. reflexivity.
        -- split; [right; exists data; split; [reflexivity | symmetry; exact Hw]|].
           split; [split; [intros _; right; exists data; reflexivity | reflexivity]|].
           discriminate.
      * unfold ret. cbv beta iota. cbn [trace world].
        split; [left; auto|].
        split; [split; [discriminate | intros [H|[d H]]; [contradiction | discriminate]]|].
        intros e' He'. injection He' as <-. right. left. exists t, vars. auto.
    + unfold ret. cbv beta iota. cbn [trace world].
      split; [left; auto|].
      split; [split; [discriminate | intros [H|[d H]]; [contradiction | discriminate]]|].
      intros e' He'. injection He' as <-. left. reflexivity.
Qed.

(** X13.  The registries of the configuration: with a non-empty variable
    and the template at hand, [handleInsecureRegistries] renders the
    template with each comma-separated element of the variable quoted by
    itself (empty elements too), the quoted elements joined by commas in
    the order of the variable.  The elements are what stands between the
    commas: joined by commas they give the variable back, none holds a
    comma, and there is one more of them than commas. *)
Theorem handleInsecureRegistries_quotes_each_registry :
  forall (os : OS) (LauncherInsecureRegistries LauncherPrivilegedEnv : string)
         (perm : Z) (w : World) (t : Template),
    let registries := os_Getenv LauncherInsecureRegistries w in
    let st :=
      snd (exec (handleInsecureRegistries LauncherInsecureRegistries
                                          LauncherPrivilegedEnv perm) w) in
    registries <> "" ->
    template_ParseFS templateName = inl t ->
    (exists vars,
        executions (trace st) = [vars] /\
        InsecureRegistries vars =
          strings.Join (map fmt_Sprintf_q (elements registries)) ",") /\
    strings.Join (elements registries) "," = registries /\
    forallb no_comma (elements registries) = true /\
    List.length (elements registries) = S (count_byte ","%char (str registries)).
Proof.
  intros os LIR LPE perm w t. cbv zeta. intros Hne Hparse.
  split; [|apply registries_facts.elements_facts].
  unfold exec, handleInsecureRegistries, bind, Getenv. cbn [world].
  destruct (String.eqb_spec (os_Getenv LIR w) "") as [E|E]; [contradiction|].
  fold templateName. rewrite Hparse.
  unfold emit, WriteFile. cbn [world trace app].
  rewrite registries_facts.Split_elements.
  match goal with
  | |- context [template_Execute t ?v] => set (vars := v)
  end.
  assert (Hregs : InsecureRegistries vars =
                  strings.Join (map fmt_Sprintf_q (elements (os_Getenv LIR w))) ",").
  { subst vars. destruct (negb _); reflexivity. }
  exists vars. split; [|exact Hregs].
  destruct (template_Execute t vars) as [data|err].
  - cbn [world trace app].
    destruct (os_WriteFile dockerDaemonConfig data perm w) as [[e|] w']; reflexivity.
  - reflexivity.
Qed.

Lemma handleInsecureRegistries_quotes_each_registry_witness :
  exists vars,
    executions (trace (snd (@exec (registriesOS "reg1:5000,,reg2" "true") _
       (@handleInsecureRegistries (registriesOS "reg1:5000,,reg2" "true")
          "LAUNCHER_INSECURE_REGISTRIES" "LAUNCHER_PRIVILEGED" 493) []))) = [vars] /\
    InsecureRegistries vars =
      quote ++ "reg1:5000" ++ quote ++ "," ++ quote ++ quote ++ "," ++ quote ++ "reg2" ++ quote.
Proof.
  destruct (handleInsecureRegistries_quotes_each_registry
              (registriesOS "reg1:5000,,reg2" "true")
              "LAUNCHER_INSECURE_REGISTRIES" "LAUNCHER_PRIVILEGED" 493 [] tt)
    as [[vars [H1 H2]] _].
  - vm_compute. discriminate.
  - reflexivity.
  - exists vars. split; [exact H1|]. rewrite H2. vm_compute. reflexivity.
Defined.

(** X14.  [handleInsecureRegistries] followed by [daemonConfigExists],
    in an environment where a file written with success is there for
    [os.Stat]: after a configuration was wanted and
    [handleInsecureRegistries] returned nil, [daemonConfigExists] answers
    true; when none was wanted it answers as it did before the call. *)
Theorem daemonConfigExists_after_handleInsecureRegistries :
  forall (os : OS) (LauncherInsecureRegistries LauncherPrivilegedEnv : string)
         (perm : Z) (w : World),
    files_persist ->
    let '(res, st) :=
      exec (handleInsecureRegistries LauncherInsecureRegistries LauncherPrivilegedEnv perm) w in
    (os_Getenv LauncherInsecureRegistries w <> "" -> res = None ->
     fst (daemonConfigExists st) = true) /\
    (os_Getenv LauncherInsecureRegistries w = "" ->
     fst (daemonConfigExists st) = fst (exec daemonConfigExists w)).
Proof.
  intros os LIR LPE perm w Hfs.
  unfold exec, handleInsecureRegistries, bind, Getenv. cbn [world].
  destruct (String.eqb_spec (os_Getenv LIR w) "") as [E|E].
  - unfold ret. cbv beta iota. split; [contradiction | reflexivity].
  - destruct (template_ParseFS _) as [t|err].
    + unfold emit, WriteFile. cbn [world trace app].
      match goal with
      | |- context [template_Execute t ?v] => set (vars := v)
      end.
      destruct (template_Execute t vars) as [data|err].
      * cbn [world trace app].
        pose proof (Hfs dockerDaemonConfig data perm w) as Hp.
        destruct (os_WriteFile dockerDaemonConfig data perm w) as [[e|] w'];
          unfold ret; cbv beta iota; (split; [|contradiction]); intros _ Hres;
          [discriminate|].
        unfold daemonConfigExists, bind, Stat, ret. cbn [world fst snd] in *.
        rewrite Hp by reflexivity. reflexivity.
      * unfold ret. cbv beta iota. split; [discriminate | contradiction].
    + unfold ret. cbv beta iota. split; [discriminate | contradiction].
Qed.

Lemma daemonConfigExists_after_handleInsecureRegistries_witness :
  fst (@exec (fsOS "reg1:5000" "true") _ (@daemonConfigExists (fsOS "reg1:5000" "true")) [])
    = false /\
  fst (@daemonConfigExists (fsOS "reg1:5000" "true")
         (snd (@exec (fsOS "reg1:5000" "true") _
                 (@handleInsecureRegistries (fsOS "reg1:5000" "true")
                    "LAUNCHER_INSECURE_REGISTRIES" "LAUNCHER_PRIVILEGED" 493) [])))
    = true.
Proof.
  split; [reflexivity|].
  pose proof (daemonConfigExists_after_handleInsecureRegistries
                (fsOS "reg1:5000" "true")
                "LAUNCHER_INSECURE_REGISTRIES" "LAUNCHER_PRIVILEGED" 493 []) as H.
  destruct (@exec (fsOS "reg1:5000" "true") _ _ []) as [res st] eqn:E.
  assert (Hres : res = None).
  { apply (f_equal fst) in E. vm_compute in E. symmetry. exact E. }
  destruct H as [H _].
  - intros name data p w0 _. cbn. rewrite String.eqb_refl. reflexivity.
  - apply H; [vm_compute; discriminate | exact Hres].
Defined.

(* ================================================================== *)
(** * The log follower under every schedule *)
(* ================================================================== *)

Module schedule_facts.
Import Tail.

Lemma update_map {A B} (h : A -> B) (l : list A) :
  forall k g g', nth_error l k = Some g -> h g' = h g -> map h (update l k g') = map h l.
Proof.
  induction l as [|x l IH]; intros k g g' Hk Hh; [reflexivity|].
  destruct k as [|k]; cbn in *.
  - injection Hk as ->. rewrite Hh. reflexivity.
  - rewrite (IH k g g' Hk Hh). reflexivity.
Qed.

Lemma update_filter_map {A B} (f : A -> bool) (h : A -> B) (l : list A) :
  forall k g g',
    nth_error l k = Some g -> f g' = f g -> h g' = h g ->
    map h (filter f (update l k g')) = map h (filter f l).
Proof.
  induction l as [|x l IH]; intros k g g' Hk Hf Hh; [reflexivity|].
  destruct k as [|k]; cbn in *.
  - injection Hk as ->. rewrite Hf. destruct (f g); cbn; [rewrite Hh|]; reflexivity.
  - destruct (f x); cbn; [f_equal|]; eapply IH; eassumption.
Qed.

Lemma update_filter_new {A} (f : A -> bool) (l : list A) :
  forall k g g',
    nth_error l k = Some g -> f g = false -> f g' = true ->
    Permutation (g' :: filter f l) (filter f (update l k g')).
Proof.
  induction l as [|x l IH]; intros k g g' Hk Hg Hg'; [destruct k; discriminate|].
  destruct k as [|k]; cbn in *.
  - injection Hk as ->. rewrite Hg, Hg'. reflexivity.
  - destruct (f x).
    + etransitivity; [apply perm_swap|]. apply perm_skip. eapply IH; eassumption.
    + eapply IH; eassumption.
Qed.

Lemma update_filter_length {A} (f : A -> bool) (l : list A) k g g' :
  nth_error l k = Some g -> f g' = f g ->
  List.length (filter f (update l k g')) = List.length (filter f l).
Proof.
  intros Hk Hf.
  rewrite <- (length_map (fun _ => tt) (filter f (update l k g'))).
  rewrite (update_filter_map f (fun _ => tt) l k g g' Hk Hf eq_refl).
  apply length_map.
Qed.

Lemma runs_app a b : runs (a ++ b) = (runs a ++ runs b)%list.
Proof. apply flat_map_app. Qed.

Lemma warnings_app a b : warnings (a ++ b) = (warnings a ++ warnings b)%list.
Proof. apply flat_map_app. Qed.

Section Schedules.
Context {os : OS}.
Variable nodeLogger : Writer.
Variable containerIDs : list string.

Lemma step_goroutine_main k ts :
  t_main (step nodeLogger containerIDs (TGo k) ts) = t_main ts.
Proof.
  cbn [step]. destruct (nth_error (t_pool ts) k) as [g|]; [|reflexivity].
  unfold step_goroutine. destruct (g_pc g); try reflexivity.
  unfold Run. destruct (cmd_Run _ _). reflexivity.
Qed.

Lemma step_main_left ts :
  (main_left (List.length containerIDs) (t_main (step nodeLogger containerIDs TMain ts))
   <= pred (main_left (List.length containerIDs) (t_main ts)))%nat.
Proof.
  cbn [step]. unfold step_main. destruct (t_main ts) as [| |rest wr|r] eqn:Hm.
  - unfold Create. destruct (os_Create _ _). cbn. lia.
  - destruct (t_err ts); cbn; lia.
  - destruct rest; cbn; lia.
  - rewrite Hm. cbn. lia.
Qed.

Lemma run_main_left sched :
  forall ts,
    (main_left (List.length containerIDs) (t_main (run nodeLogger containerIDs sched ts))
     <= main_left (List.length containerIDs) (t_main ts) - main_steps sched)%nat.
Proof.
  induction sched as [|t sched IH]; intros ts; [cbn; lia|].
  change (run nodeLogger containerIDs (t :: sched) ts)
    with (run nodeLogger containerIDs sched (step nodeLogger containerIDs t ts)).
  specialize (IH (step nodeLogger containerIDs t ts)).
  destruct t as [|k].
  - pose proof (step_main_left ts). unfold main_steps in *. cbn [filter List.length]. lia.
  - rewrite step_goroutine_main in IH. unfold main_steps in *. cbn [filter]. lia.
Qed.

Lemma main_left_returned n pc : main_left n pc = 0%nat -> exists r, pc = MReturned r.
Proof. destruct pc; cbn; try lia. eauto. Qed.

Lemma tail_inv_step t ts :
  tail_inv nodeLogger containerIDs ts ->
  tail_inv nodeLogger containerIDs (step nodeLogger containerIDs t ts).
Proof.
  unfold tail_inv. cbv zeta. intros [Hmain [Hwr [Hruns [Hlen Hwarn]]]].
  destruct t as [|k]; cbn [step].
  - unfold step_main. destruct (t_main ts) as [| |rest wr|r] eqn:Hm.
    + unfold Create. destruct (os_Create "node.log" (world (t_state ts))) as [res w'].
      cbn [t_main t_pool t_state trace].
      rewrite runs_app, warnings_app. cbn [runs warnings flat_map]. rewrite !app_nil_r.
      auto.
    + destruct (t_err ts) as [e|]; cbn [t_main t_pool t_state].
      * auto.
      * rewrite Hmain in *. cbn [map app]. repeat split; auto.
    + destruct rest as [|id rest]; cbn [t_main t_pool t_state].
      * destruct Hmain as [-> Hids]. rewrite app_nil_r in Hids. auto.
      * destruct Hmain as [-> Hids].
        rewrite !map_app, filter_app. cbn [map filter started finished g_pc].
        rewrite !app_nil_r, <- app_assoc. cbn [app g_containerID g_nodeOutWriter].
        split; [auto|]. split; [apply Forall_app; split; [exact Hwr | repeat constructor]|].
        split; [exact Hruns|].
        split; [rewrite filter_app; cbn [filter finished g_pc]; rewrite app_nil_r; exact Hlen|].
        eapply Forall_impl; [|exact Hwarn].
        intros fa [id' [err [Hin ->]]]. exists id', err. split; [|reflexivity].
        apply in_or_app. left. exact Hin.
    + rewrite Hm. auto.
  - destruct (nth_error (t_pool ts) k) as [g|] eqn:Hg; [|auto].
    assert (Hgw : g_nodeOutWriter g = nodeOutWriterOf nodeLogger).
    { rewrite Forall_forall in Hwr. apply Hwr.
      apply in_map. eapply nth_error_In. exact Hg. }
    assert (Hids : forall pc, map g_containerID (update (t_pool ts) k (set_pc g pc))
                              = map g_containerID (t_pool ts)).
    { intros pc. eapply update_map; [exact Hg | reflexivity]. }
    assert (Hws : forall pc, map g_nodeOutWriter (update (t_pool ts) k (set_pc g pc))
                             = map g_nodeOutWriter (t_pool ts)).
    { intros pc. eapply update_map; [exact Hg | reflexivity]. }
    assert (Hmain' : forall pool',
               map g_containerID pool' = map g_containerID (t_pool ts) ->
               match t_main ts with
               | MRange rest wr =>
                 wr = nodeOutWriterOf nodeLogger /\
                 (map g_containerID pool' ++ rest)%list = containerIDs
               | MReturned None => map g_containerID pool' = containerIDs
               | _ => pool' = []
               end).
    { intros pool' Hp'.
      destruct (t_main ts) as [| |rest wr|[e|]]; rewrite ?Hp'; try exact Hmain;
        rewrite Hmain in Hg; destruct k; discriminate. }
    unfold step_goroutine. destruct (g_pc g) eqn:Hpc.
    + unfold Run. destruct (cmd_Run _ _) as [res w'].
      cbn [t_main t_pool t_state trace]. rewrite Hws.
      split; [apply Hmain', Hids|]. rewrite ?Hids. split; [exact Hwr|].
      rewrite runs_app, warnings_app. cbn [runs warnings flat_map app]. rewrite app_nil_r.
      split.
      * rewrite map_app. cbn [map fst].
        etransitivity; [apply Permutation_app_comm|]. cbn [app].
        etransitivity;
          [|apply Permutation_map;
            apply (update_filter_new started (t_pool ts) k g (set_pc g (GStore res)) Hg)].
        -- cbn [map]. apply perm_skip. exact Hruns.
        -- unfold started. rewrite Hpc. reflexivity.
        -- reflexivity.
      * split; [|exact Hwarn].
        rewrite (update_filter_length finished (t_pool ts) k g _ Hg); [exact Hlen|].
        unfold finished. cbn. rewrite Hpc. reflexivity.
    + cbn [t_main t_pool t_state]. rewrite Hws.
      split; [apply Hmain', Hids|]. rewrite ?Hids. split; [exact Hwr|]. split.
      * rewrite (update_filter_map started goroutineCmd (t_pool ts) k g _ Hg);
          [exact Hruns | unfold started; cbn; rewrite Hpc; reflexivity | reflexivity].
      * split; [|exact Hwarn].
        rewrite (update_filter_length finished (t_pool ts) k g _ Hg); [exact Hlen|].
        unfold finished. cbn. rewrite Hpc. reflexivity.
    + cbn [t_main t_pool t_state]. rewrite Hws.
      split; [apply Hmain', Hids|]. rewrite ?Hids. split; [exact Hwr|]. split.
      * rewrite (update_filter_map started goroutineCmd (t_pool ts) k g _ Hg);
          [exact Hruns | unfold started; cbn; rewrite Hpc; destruct (t_err ts); reflexivity
          | reflexivity].
      * split; [|exact Hwarn].
        destruct (t_err ts).
        -- rewrite (update_filter_length finished (t_pool ts) k g _ Hg); [exact Hlen|].
           unfold finished. cbn. rewrite Hpc. reflexivity.
        -- rewrite <- (Permutation_length
                        (update_filter_new finished (t_pool ts) k g (set_pc g GDone) Hg
                           ltac:(unfold finished; rewrite Hpc; reflexivity) eq_refl)).
           cbn [List.length]. lia.
    + unfold Warnf, emit. cbn [t_main t_pool t_state trace world]. rewrite Hws.
      split; [apply Hmain', Hids|]. rewrite ?Hids. split; [exact Hwr|].
      rewrite runs_app, warnings_app. cbn [runs warnings flat_map app]. rewrite app_nil_r.
      split.
      * rewrite (update_filter_map started goroutineCmd (t_pool ts) k g _ Hg);
          [exact Hruns | unfold started; cbn; rewrite Hpc; reflexivity | reflexivity].
      * split.
        -- rewrite <- (Permutation_length
                        (update_filter_new finished (t_pool ts) k g (set_pc g GDone) Hg
                           ltac:(unfold finished; rewrite Hpc; reflexivity) eq_refl)).
           rewrite length_app. cbn [List.length]. lia.
        -- apply Forall_app. split; [exact Hwarn|]. constructor; [|constructor].
           exists (g_containerID g), (t_err ts). split; [|reflexivity].
           apply in_map. eapply nth_error_In. exact Hg.
    + auto.
Qed.

Lemma tail_inv_run sched :
  forall ts, tail_inv nodeLogger containerIDs ts ->
             tail_inv nodeLogger containerIDs (run nodeLogger containerIDs sched ts).
Proof.
  induction sched as [|t sched IH]; intros ts H; [exact H|].
  change (run nodeLogger containerIDs (t :: sched) ts)
    with (run nodeLogger containerIDs sched (step nodeLogger containerIDs t ts)).
  apply IH, tail_inv_step, H.
Qed.

Lemma tail_inv_init w : tail_inv nodeLogger containerIDs (init w).
Proof.
  unfold tail_inv, init. cbn. repeat split; auto. 
Qed.

Lemma tail_inv_reached sched w :
  tail_inv nodeLogger containerIDs (tailContainerLogs nodeLogger containerIDs sched w).
Proof. apply tail_inv_run, tail_inv_init. Qed.

End Schedules.

End schedule_facts.

Module single_facts.
Import Tail schedule_facts.

Section Single.
Context {os : OS}.
Variable nodeLogger : Writer.
Variable id : string.

Lemma single_inv_step t ts :
  single_inv nodeLogger id ts ->
  single_inv nodeLogger id (step nodeLogger [id] t ts).
Proof.
  unfold single_inv. cbv zeta. intros H.
  destruct t as [|k]; cbn [step].
  - unfold step_main. destruct (t_pool ts) as [|g [|g' pool]] eqn:Hpool; [| |contradiction].
    + destruct H as [Hr [Hw Hm]]. destruct (t_main ts) as [| |rest wr|[e|]] eqn:Hmain.
      * unfold Create. destruct (os_Create _ _) as [res w'].
        cbn [t_main t_pool t_state trace]. rewrite ?Hpool.
        rewrite runs_app, warnings_app, Hr, Hw. cbn. auto.
      * destruct (t_err ts); cbn [t_main t_pool t_state]; rewrite ?Hpool; auto.
      * destruct Hm as [-> ->]. cbn [t_main t_pool t_state]. rewrite ?Hpool.
        cbn [app g_containerID g_nodeOutWriter g_pc]. auto.
      * rewrite ?Hpool, ?Hmain. auto.
      * contradiction.
    + destruct H as [Hid [Hwr [Hm Hpc]]].
      destruct (t_main ts) as [| |rest wr|[e|]] eqn:Hmain; try contradiction.
      * destruct rest as [|x rest]; [|contradiction].
        cbn [t_main t_pool t_state t_err]. rewrite ?Hpool. auto.
      * rewrite ?Hpool, ?Hmain. auto.
  - destruct (nth_error (t_pool ts) k) as [g0|] eqn:Hg; [|exact H].
    destruct (t_pool ts) as [|g [|g' pool]] eqn:Hpool; [destruct k; discriminate| |contradiction].
    destruct k as [|k]; [|destruct k; discriminate]. injection Hg as <-.
    destruct H as [Hid [Hwr [Hm Hpc]]].
    unfold step_goroutine. rewrite Hwr, Hid, ?Hpool.
    destruct (g_pc g) eqn:Hg.
    + destruct Hpc as [Hr Hw]. unfold Run. destruct (cmd_Run _ _) as [res w'].
      cbn [t_main t_pool t_state t_err trace update set_pc g_containerID g_nodeOutWriter g_pc].
      rewrite runs_app, warnings_app, Hr, Hw. cbn. auto.
    + destruct Hpc as [Hr Hw].
      cbn [t_main t_pool t_state t_err trace update set_pc g_containerID g_nodeOutWriter g_pc].
      auto.
    + destruct Hpc as [Hr Hw].
      cbn [t_main t_pool t_state t_err trace update set_pc g_containerID g_nodeOutWriter g_pc].
      destruct (t_err ts) as [e|] eqn:He.
      * repeat split; auto. discriminate.
      * repeat split; auto.
    + destruct Hpc as [Hr [Hw Hne]]. unfold Warnf, emit.
      cbn [t_main t_pool t_state t_err trace world update set_pc
           g_containerID g_nodeOutWriter g_pc].
      rewrite runs_app, warnings_app, Hr, Hw.
      destruct (t_err ts) as [e|]; [|congruence]. cbn. auto.
    + rewrite ?Hpool. rewrite Hg. auto.
Qed.

Lemma single_inv_run sched :
  forall ts, single_inv nodeLogger id ts ->
             single_inv nodeLogger id (run nodeLogger [id] sched ts).
Proof.
  induction sched as [|t sched IH]; intros ts H; [exact H|].
  change (run nodeLogger [id] (t :: sched) ts)
    with (run nodeLogger [id] sched (step nodeLogger [id] t ts)).
  apply IH, single_inv_step, H.
Qed.

Lemma single_inv_reached sched w :
  single_inv nodeLogger id (tailContainerLogs nodeLogger [id] sched w).
Proof. apply single_inv_run. cbn. auto. Qed.

End Single.
End single_facts.

Module pool_facts.
Import Tail.

Lemma finished_started pool :
  (List.length (filter finished pool) <= List.length (filter started pool))%nat.
Proof.
  induction pool as [|g pool IH]; [cbn; lia|].
  cbn [filter]. unfold finished at 1, started at 1.
  destruct (g_pc g); cbn [List.length]; lia.
Qed.

Lemma filter_length {A} (f : A -> bool) l : (List.length (filter f l) <= List.length l)%nat.
Proof. induction l as [|a l IH]; cbn; [lia|]. destruct (f a); cbn; lia. Qed.

Lemma all_done_started {os : OS} (ts : TailState) : all_done ts = true -> filter started (t_pool ts) = t_pool ts.
Proof.
  unfold all_done. induction (t_pool ts) as [|g pool IH]; intros H; [reflexivity|].
  cbn [forallb] in H. apply andb_true_iff in H. destruct H as [Hg Hp].
  cbn [filter]. unfold started at 1. destruct (g_pc g); try discriminate.
  rewrite (IH Hp). reflexivity.
Qed.

Lemma goroutineCmd_writer wr pool :
  Forall (fun x => x = wr) (map g_nodeOutWriter pool) ->
  map goroutineCmd pool = map (tailLogsCmd wr) (map g_containerID pool).
Proof.
  induction pool as [|g pool IH]; intros H; [reflexivity|].
  cbn [map] in *. apply Forall_cons_iff in H. destruct H as [Hg Hp].
  rewrite (IH Hp). unfold goroutineCmd at 1. rewrite Hg. reflexivity.
Qed.

Lemma pool_ids {os : OS} nodeLogger containerIDs ts :
  tail_inv nodeLogger containerIDs ts ->
  exists rest, (map g_containerID (t_pool ts) ++ rest)%list = containerIDs.
Proof.
  intros [Hmain _]. cbv zeta in Hmain.
  destruct (t_main ts) as [| |rest wr|[e|]].
  - rewrite Hmain. exists containerIDs. reflexivity.
  - rewrite Hmain. exists containerIDs. reflexivity.
  - exists rest. apply Hmain.
  - rewrite Hmain. exists containerIDs. reflexivity.
  - exists []. rewrite app_nil_r. exact Hmain.
Qed.

End pool_facts.

(** X15.  [tailContainerLogs] waits for no goroutine: under every
    schedule that gives the caller [len(containerIDs) + 3] steps, however
    the steps of the goroutines are interleaved with them, the caller
    has returned, and what it returns is the result of [os.Create]. *)
Theorem tailContainerLogs_returns_under_every_schedule :
  forall (os : OS) (nodeLogger : Writer) (containerIDs : list string)
         (sched : list Tail.Tid) (w : World),
    (3 + List.length containerIDs <= main_steps sched)%nat ->
    Tail.t_main (Tail.tailContainerLogs nodeLogger containerIDs sched w)
      = Tail.MReturned (fst (os_Create "node.log" w)).
Proof.
  intros os nodeLogger ids sched w Hsteps.
  pose proof (schedule_facts.run_main_left nodeLogger ids sched (Tail.init w)) as Hleft.
  cbn [Tail.init Tail.t_main main_left] in Hleft.
  destruct (schedule_facts.main_left_returned (List.length ids)
              (Tail.t_main (Tail.tailContainerLogs nodeLogger ids sched w))) as [r Hr].
  - unfold Tail.tailContainerLogs. lia.
  - rewrite Hr. f_equal.
    eapply Tail_facts.tailContainerLogs_returns_create_error. exact Hr.
Qed.

Lemma tailContainerLogs_returns_under_every_schedule_witness :
  Tail.t_main (@Tail.tailContainerLogs tailOS (Sink "node") ["a"; "b"] misattributed [])
    = Tail.MReturned None.
Proof.
  apply (tailContainerLogs_returns_under_every_schedule
           tailOS (Sink "node") ["a"; "b"] misattributed []).
  vm_compute. lia.
Defined.

(** X16.  When "node.log" cannot be created, [tailContainerLogs] starts
    no goroutine: under every schedule no command is run and no warning
    emitted, and the caller, when it has returned, has returned the error
    of [os.Create]. *)
Theorem tailContainerLogs_create_failure :
  forall (os : OS) (nodeLogger : Writer) (containerIDs : list string)
         (sched : list Tail.Tid) (w : World) (e : error),
    fst (os_Create "node.log" w) = Some e ->
    let ts := Tail.tailContainerLogs nodeLogger containerIDs sched w in
    Tail.t_pool ts = [] /\
    runs (trace (Tail.t_state ts)) = [] /\
    warnings (trace (Tail.t_state ts)) = [] /\
    (forall r, Tail.t_main ts = Tail.MReturned r -> r = Some e).
Proof.
  intros os nodeLogger ids sched w e Hcreate ts.
  pose proof (schedule_facts.tail_inv_reached nodeLogger ids sched w) as Hinv.
  assert (Hcaller : caller_inv w ts).
  { apply Tail_facts.caller_inv_run. cbn. auto. }
  fold ts in Hinv. destruct Hinv as [Hmain [_ [Hruns [Hlen _]]]].
  assert (Hpool : Tail.t_pool ts = []).
  { unfold caller_inv in Hcaller.
    destruct (Tail.t_main ts) as [| |rest wr|[e'|]]; try exact Hmain; congruence. }
  rewrite Hpool in *. cbn [filter map List.length] in *.
  split; [reflexivity|].
  split; [apply Permutation_sym, Permutation_nil in Hruns;
          destruct (runs _); [reflexivity | discriminate]|].
  split; [destruct (warnings _); [reflexivity | cbn in Hlen; lia]|].
  intros r Hr. unfold caller_inv in Hcaller. rewrite Hr in Hcaller. congruence.
Qed.

Lemma tailContainerLogs_create_failure_witness :
  let ts := @Tail.tailContainerLogs readOnlyOS (Sink "node") ["a"; "b"] overwritten [] in
  Tail.t_pool ts = [] /\
  runs (trace (Tail.t_state ts)) = [] /\
  warnings (trace (Tail.t_state ts)) = [] /\
  (forall r, Tail.t_main ts = Tail.MReturned r ->
             r = Some (SysError "open node.log: read-only file system")).
Proof.
  apply (tailContainerLogs_create_failure readOnlyOS (Sink "node") ["a"; "b"] overwritten []).
  reflexivity.
Defined.

(** X17.  The goroutines of [tailContainerLogs]: under every schedule
    those started so far stand for a prefix of [containerIDs], one for
    each container and in the order of the list, each with the writer
    that duplicates to [nodeLogger] and to "node.log"; once the caller
    has returned nil there is one for every container of the list. *)
Theorem tailContainerLogs_goroutines :
  forall (os : OS) (nodeLogger : Writer) (containerIDs : list string)
         (sched : list Tail.Tid) (w : World),
    let ts := Tail.tailContainerLogs nodeLogger containerIDs sched w in
    (exists rest, (map Tail.g_containerID (Tail.t_pool ts) ++ rest)%list = containerIDs) /\
    Forall (fun g => Tail.g_nodeOutWriter g = MultiWriter nodeLogger (FileWriter "node.log"))
           (Tail.t_pool ts) /\
    (Tail.t_main ts = Tail.MReturned None ->
     map Tail.g_containerID (Tail.t_pool ts) = containerIDs).
Proof.
  intros os nodeLogger ids sched w ts.
  pose proof (schedule_facts.tail_inv_reached nodeLogger ids sched w) as Hinv.
  fold ts in Hinv. split; [eapply pool_facts.pool_ids; exact Hinv|].
  destruct Hinv as [Hmain [Hwr _]]. split.
  - rewrite Forall_map in Hwr. exact Hwr.
  - intros Hr. rewrite Hr in Hmain. exact Hmain.
Qed.

(** X18.  The commands and the warnings of [tailContainerLogs], under
    every schedule: each command run is the follow command of a container
    of the list, into the duplicating writer; there are no more commands
    than containers and no more warnings than commands; each warning
    names a container of the list.  Once the caller has returned nil and
    every goroutine has come to its end, the commands run are, up to
    their order, the follow commands of the containers of the list, one
    for each. *)
Theorem tailContainerLogs_commands :
  forall (os : OS) (nodeLogger : Writer) (containerIDs : list string)
         (sched : list Tail.Tid) (w : World),
    let ts := Tail.tailContainerLogs nodeLogger containerIDs sched w in
    let tr := trace (Tail.t_state ts) in
    let follow := Tail.tailLogsCmd (MultiWriter nodeLogger (FileWriter "node.log")) in
    Forall (fun c => exists id, In id containerIDs /\ c = follow id) (map fst (runs tr)) /\
    (List.length (runs tr) <= List.length containerIDs)%nat /\
    (List.length (warnings tr) <= List.length (runs tr))%nat /\
    Forall (fun fa => exists id err, In id containerIDs /\ fa = tailWarning id err)
           (warnings tr) /\
    (Tail.t_main ts = Tail.MReturned None -> Tail.all_done ts = true ->
     Permutation (map fst (runs tr)) (map follow containerIDs)).
Proof.
  intros os nodeLogger ids sched w ts tr follow.
  pose proof (schedule_facts.tail_inv_reached nodeLogger ids sched w) as Hinv.
  fold ts in Hinv.
  destruct (pool_facts.pool_ids nodeLogger ids ts Hinv) as [rest Hrest].
  destruct Hinv as [Hmain [Hwr [Hruns [Hlen Hwarn]]]]. fold tr in Hruns, Hlen, Hwarn.
  assert (Hin : forall id, In id (map Tail.g_containerID (Tail.t_pool ts)) -> In id ids).
  { intros id Hid. rewrite <- Hrest. apply in_or_app. left. exact Hid. }
  assert (Hcount : (List.length (filter started (Tail.t_pool ts)) <= List.length ids)%nat).
  { etransitivity; [apply pool_facts.filter_length|].
    rewrite <- Hrest, length_app, length_map. lia. }
  pose proof (Permutation_length Hruns) as Hl. rewrite !length_map in Hl.
  split; [|split; [|split; [|split]]].
  - apply Forall_forall. intros c Hc.
    apply (Permutation_in _ Hruns) in Hc.
    apply in_map_iff in Hc. destruct Hc as [g [<- Hg]].
    apply filter_In in Hg. destruct Hg as [Hg _].
    exists (Tail.g_containerID g). split; [apply Hin, in_map, Hg|].
    unfold goroutineCmd, follow. f_equal.
    rewrite Forall_map, Forall_forall in Hwr. apply Hwr. exact Hg.
  - lia.
  - pose proof (pool_facts.finished_started (Tail.t_pool ts)). lia.
  - eapply Forall_impl; [|exact Hwarn].
    intros fa [id [err [Hid ->]]]. exists id, err. auto.
  - intros Hr Hdone. rewrite Hr in Hmain.
    rewrite (pool_facts.all_done_started ts Hdone) in Hruns.
    rewrite (pool_facts.goroutineCmd_writer _ _ Hwr), Hmain in Hruns. exact Hruns.
Qed.

(** X19.  With a single container the goroutine is the only writer of
    the shared [err], and the failure of its command is reported
    faithfully: under every schedule a warning, if there is one, carries
    the container and the error of its command; and once the goroutine
    has come to its end there is a warning exactly when the command
    failed. *)
Theorem tailContainerLogs_single_container :
  forall (os : OS) (nodeLogger : Writer) (containerID : string)
         (sched : list Tail.Tid) (w : World),
    let ts := Tail.tailContainerLogs nodeLogger [containerID] sched w in
    let tr := trace (Tail.t_state ts) in
    let c := Tail.tailLogsCmd (MultiWriter nodeLogger (FileWriter "node.log")) containerID in
    (warnings tr = [] \/
     exists e, runs tr = [(c, Some e)] /\ warnings tr = [tailWarning containerID (Some e)]) /\
    (Tail.t_pool ts <> [] -> Tail.all_done ts = true ->
     exists res,
       runs tr = [(c, res)] /\
       warnings tr = match res with
                     | Some e => [tailWarning containerID (Some e)]
                     | None => []
                     end).
Proof.
  intros os nodeLogger id sched w ts tr c.
  pose proof (single_facts.single_inv_reached nodeLogger id sched w) as Hinv.
  fold ts in Hinv. unfold single_inv in Hinv. cbv zeta in Hinv.
  fold tr in Hinv. unfold nodeOutWriterOf in Hinv. fold c in Hinv.
  unfold Tail.all_done.
  destruct (Tail.t_pool ts) as [|g [|g' pool]]; [| |contradiction].
  - destruct Hinv as [_ [Hw _]]. split; [left; exact Hw | congruence].
  - destruct Hinv as [_ [_ [_ Hpc]]]. cbn [forallb].
    destruct (Tail.g_pc g).
    + destruct Hpc as [_ Hw]. split; [left; exact Hw | discriminate].
    + destruct Hpc as [_ Hw]. split; [left; exact Hw | discriminate].
    + destruct Hpc as [_ Hw]. split; [left; exact Hw | discriminate].
    + destruct Hpc as [_ [Hw _]]. split; [left; exact Hw | discriminate].
    + destruct Hpc as [Hr Hw]. split.
      * destruct (Tail.t_err ts) as [e|]; [right; exists e; auto | left; exact Hw].
      * intros _ _. exists (Tail.t_err ts). auto.
Qed.

(* ================================================================== *)
(** * The streams of the commands *)
(* ================================================================== *)

Module stream_facts.

Lemma loop_run_streams M logger a evs r :
  loop_run M logger a evs r ->
  Forall (streams_to logger) (map fst (runs evs)).
Proof.
  induction 1 as [a | a e Ha | a e e' Ha | a e evs r Ha Hrun IH];
    cbn [runs flat_map app map fst]; repeat constructor; exact IH.
Qed.

End stream_facts.

(** X20.  Where the output of the commands goes.  Every command that
    [startDocker] and [printContainerLogs] run has both its streams set
    to the logger they were given.  [enableLegacyIPTables] runs one
    command and no more, "update-alternatives --set iptables
    /usr/sbin/iptables-legacy" with both streams to its logger, and
    returns what the command returned, be it an error or nil. *)
Theorem commands_write_to_the_logger :
  forall (os : OS) (maxDockerLaunchAttempts : Z) (logger : Writer)
         (containerIDs : list string) (w : World),
    maxDockerLaunchAttempts < int_max ->
    Forall (streams_to logger)
           (map fst (runs (trace (snd (exec (startDocker maxDockerLaunchAttempts logger) w))))) /\
    Forall (streams_to logger)
           (map fst (runs (trace (snd (exec (printContainerLogs logger containerIDs) w))))) /\
    (let '(res, st) := exec (enableLegacyIPTables logger) w in
     trace st = [EvRun (updateAlternativesCmd logger) res] /\
     (res, world st) = cmd_Run (updateAlternativesCmd logger) w /\
     streams_to logger (updateAlternativesCmd logger)).
Proof.
  intros os M logger ids w HM. split; [|split].
  - destruct (startDocker_run M logger HM w) as [r [st [-> Hrun]]]. cbn [snd].
    eapply stream_facts.loop_run_streams. exact Hrun.
  - destruct (printContainerLogs_events logger ids (mkState w [])) as [evs [Ht [Hr _]]].
    cbn [trace app] in Ht. unfold exec. rewrite Ht, Hr.
    apply Forall_forall. intros c Hc. apply in_map_iff in Hc. destruct Hc as [id [<- _]].
    split; reflexivity.
  - unfold exec, enableLegacyIPTables, bind, Run. cbn [world trace app].
    change (set_Stderr (set_Stdout (CommandContext "update-alternatives" _) logger) logger)
      with (updateAlternativesCmd logger).
    destruct (cmd_Run (updateAlternativesCmd logger) w) as [[e|] w']; unfold ret;
      cbv beta iota; cbn [trace world]; repeat split.
Qed.

Lemma commands_write_to_the_logger_witness :
  Forall (streams_to (Sink "log"))
         (map fst (runs (trace (snd (@exec noServiceManager _
                                       (@startDocker noServiceManager 3 (Sink "log")) []))))) /\
  Forall (streams_to (Sink "log"))
         (map fst (runs (trace (snd (@exec noServiceManager _
                                       (@printContainerLogs noServiceManager (Sink "log")
                                                            ["a"; "b"]) []))))) /\
  (let '(res, st) := @exec noServiceManager _
                           (@enableLegacyIPTables noServiceManager (Sink "log")) [] in
   trace st = [EvRun (updateAlternativesCmd (Sink "log")) res] /\
   (res, world st) = @cmd_Run noServiceManager (updateAlternativesCmd (Sink "log")) [] /\
   streams_to (Sink "log") (updateAlternativesCmd (Sink "log"))).
Proof.
  apply (commands_write_to_the_logger noServiceManager 3 (Sink "log") ["a"; "b"] []).
  reflexivity.
Defined.
